(** * Quantitative core of the crypto analysis engine

    A shallow embedding of the numeric transforms of
    [services/cryptoApi.ts], [services/BacktestService.ts] and
    [services/HybridScannerService.ts], and the properties of the
    specification that are about them.

    The functions are translated one for one and keep their TypeScript
    names.  A JavaScript [number] is an exact rational or one of the three
    special values; rounding, overflow and the sign of zero are left out.
    [undefined] and [null] are [None]. *)

From Stdlib Require Import String QArith Qround Qabs ZArith List Bool Lia Lqa.
From Stdlib Require Import Sorted Permutation.
Import ListNotations.
Open Scope Q_scope.

(** ** Numbers *)

Module Js.

Inductive num : Type :=
| Fin (q : Q)
| NaN
| PInf
| NInf.

Definition Qltb (x y : Q) : bool := negb (Qle_bool y x).

Definition neg (a : num) : num :=
  match a with
  | Fin q => Fin (- q)
  | NaN => NaN
  | PInf => NInf
  | NInf => PInf
  end.

Definition add (a b : num) : num :=
  match a, b with
  | Fin x, Fin y => Fin (x + y)
  | NaN, _ | _, NaN => NaN
  | PInf, NInf | NInf, PInf => NaN
  | PInf, _ | _, PInf => PInf
  | NInf, _ | _, NInf => NInf
  end.

Definition sub (a b : num) : num := add a (neg b).

(** The infinity with the sign of [q]; [NaN] for zero. *)
Definition signed_inf (q : Q) : num :=
  if Qeq_bool q 0 then NaN else if Qltb 0 q then PInf else NInf.

Definition mul (a b : num) : num :=
  match a, b with
  | Fin x, Fin y => Fin (x * y)
  | NaN, _ | _, NaN => NaN
  | PInf, Fin y | Fin y, PInf => signed_inf y
  | NInf, Fin y | Fin y, NInf => signed_inf (- y)
  | PInf, PInf | NInf, NInf => PInf
  | PInf, NInf | NInf, PInf => NInf
  end.

Definition div (a b : num) : num :=
  match a, b with
  | Fin x, Fin y => if Qeq_bool y 0 then signed_inf x else Fin (x / y)
  | NaN, _ | _, NaN => NaN
  | Fin _, (PInf | NInf) => Fin 0
  | PInf, Fin y => if Qltb y 0 then NInf else PInf
  | NInf, Fin y => if Qltb y 0 then PInf else NInf
  | (PInf | NInf), (PInf | NInf) => NaN
  end.

Definition abs (a : num) : num :=
  match a with
  | Fin q => Fin (Qabs q)
  | NaN => NaN
  | PInf | NInf => PInf
  end.

(** [a < b]; false as soon as one side is [NaN]. *)
Definition lt (a b : num) : bool :=
  match a, b with
  | Fin x, Fin y => Qltb x y
  | NaN, _ | _, NaN => false
  | NInf, (Fin _ | PInf) => true
  | Fin _, PInf => true
  | _, _ => false
  end.

(** [a === b] on numbers. *)
Definition eq (a b : num) : bool :=
  match a, b with
  | Fin x, Fin y => Qeq_bool x y
  | PInf, PInf | NInf, NInf => true
  | _, _ => false
  end.

Definition le (a b : num) : bool := lt a b || eq a b.
Definition gt (a b : num) : bool := lt b a.
Definition ge (a b : num) : bool := le b a.

Definition isNaN (a : num) : bool :=
  match a with NaN => true | _ => false end.

(** [Math.max(a, b)] and [Math.min(a, b)]. *)
Definition max (a b : num) : num :=
  if isNaN a || isNaN b then NaN else if lt a b then b else a.

Definition min (a b : num) : num :=
  if isNaN a || isNaN b then NaN else if lt b a then b else a.

(** [Math.max(...xs)] and [Math.min(...xs)]. *)
Definition maxList (xs : list num) : num := fold_left max xs NInf.
Definition minList (xs : list num) : num := fold_left min xs PInf.

Definition floor (a : num) : num :=
  match a with
  | Fin q => Fin (inject_Z (Qfloor q))
  | other => other
  end.

(** [Math.round]: the nearest integer, halves upwards. *)
Definition round (a : num) : num :=
  match a with
  | Fin q => Fin (inject_Z (Qfloor (q + (1 # 2))))
  | other => other
  end.

(** Truthiness of a number: neither zero nor [NaN]. *)
Definition truthy (a : num) : bool :=
  match a with
  | Fin q => negb (Qeq_bool q 0)
  | NaN => false
  | PInf | NInf => true
  end.

(** A value that may be [undefined], used as a number. *)
Definition toNum (o : option num) : num :=
  match o with Some a => a | None => NaN end.

(** Truthiness of [number | undefined | null]. *)
Definition truthyOpt (o : option num) : bool :=
  match o with Some a => truthy a | None => false end.

(** [x || y] on numbers that may be undefined. *)
Definition orElse (o : option num) (d : num) : num :=
  if truthyOpt o then toNum o else d.

Definition ofNat (n : nat) : num := Fin (inject_Z (Z.of_nat n)).
Definition ofZ (z : Z) : num := Fin (inject_Z z).

(** Sum of an array: [xs.reduce((a, b) => a + b, 0)]. *)
Definition sum (xs : list num) : num := fold_left add xs (Fin 0).

(** Equality of numbers as values: rationals up to [Qeq]. *)
Definition same (a b : num) : Prop :=
  match a, b with
  | Fin x, Fin y => x == y
  | NaN, NaN | PInf, PInf | NInf, NInf => True
  | _, _ => False
  end.

Definition isFin (a : num) : Prop :=
  match a with Fin _ => True | _ => False end.

End Js.

Import Js.

Declare Scope js_scope.
Delimit Scope js_scope with js.
Bind Scope js_scope with num.
Notation "a .+ b" := (Js.add a b) (at level 50, left associativity) : js_scope.
Notation "a .- b" := (Js.sub a b) (at level 50, left associativity) : js_scope.
Notation "a .* b" := (Js.mul a b) (at level 40, left associativity) : js_scope.
Notation "a ./ b" := (Js.div a b) (at level 40, left associativity) : js_scope.
Notation "a .< b" := (Js.lt a b) (at level 70, no associativity) : js_scope.
Notation "a .> b" := (Js.gt a b) (at level 70, no associativity) : js_scope.
Notation "a .<= b" := (Js.le a b) (at level 70, no associativity) : js_scope.
Notation "a .>= b" := (Js.ge a b) (at level 70, no associativity) : js_scope.
Notation "a .== b" := (Js.eq a b) (at level 70, no associativity) : js_scope.

(** ** Arrays *)

(** [xs.slice(a, b)] for indices that are not negative. *)
Definition slice {A} (xs : list A) (a b : nat) : list A :=
  firstn (b - a) (skipn a xs).

(** [xs.slice(-n)]: the last [n] elements ([slice(-0)] is the whole array). *)
Definition lastN {A} (n : nat) (xs : list A) : list A :=
  if (n =? 0)%nat then xs else skipn (length xs - n) xs.

(** [xs[xs.length - 1 - k]]: the element [k] places before the end. *)
Definition fromEnd {A} (xs : list A) (k : nat) : option A :=
  if (k <? length xs)%nat then nth_error xs (length xs - 1 - k) else None.

(** [new Array(n).fill(x)]. *)
Definition fill {A} (n : nat) (x : A) : list A := repeat x n.

(** [xs.map((x, i) => f(i, x))]. *)
Fixpoint mapiFrom {A B} (f : nat -> A -> B) (i : nat) (xs : list A) : list B :=
  match xs with
  | [] => []
  | x :: rest => f i x :: mapiFrom f (S i) rest
  end.

Definition mapi {A B} (f : nat -> A -> B) (xs : list A) : list B :=
  mapiFrom f 0 xs.

(** [xs[i]] read as a number. *)
Definition at_ (xs : list num) (i : nat) : num := toNum (nth_error xs i).

(** ** types.ts *)

(** The fields of [ChartPoint] that the engine reads. *)
Record ChartPoint : Type := mkChartPoint {
  time : string;
  price : num;
  volume : option num;
  high : option num;
  low : option num
}.

Inductive Trend : Type := UPTREND | DOWNTREND | RANGING.

Inductive DivergenceType : Type := BULLISH | BEARISH | NONE.
Inductive DivergenceStrength : Type := WEAK | MEDIUM | STRONG.

Record DivergenceResult : Type := mkDivergence {
  dtype : DivergenceType;
  strength : DivergenceStrength
}.

Definition Trend_eqb (a b : Trend) : bool :=
  match a, b with
  | UPTREND, UPTREND | DOWNTREND, DOWNTREND | RANGING, RANGING => true
  | _, _ => false
  end.

(** ** cryptoApi.ts: indicators *)

Local Open Scope js_scope.

Definition calculateEMA (prices : list num) (period : nat) : list num :=
  if (length prices <? period)%nat then fill (length prices) NaN else
  let k := Fin 2 ./ (ofNat period .+ Fin 1) in
  let sum :=
    fold_left (fun s i => s .+ orElse (nth_error prices i) (Fin 0))
              (seq 0 period) (Fin 0) in
  let ema := sum ./ ofNat period in
  let emaArray := fill (period - 1) NaN ++ [ema] in
  snd (fold_left
         (fun (st : num * list num) (p : num) =>
            let ema := p .* k .+ fst st .* (Fin 1 .- k) in
            (ema, snd st ++ [ema]))
         (skipn period prices) (ema, emaArray)).

(** [changes] of [calculateRSIArray]. *)
Definition priceChanges (prices : list num) : list num :=
  mapi (fun i price => if (i =? 0)%nat then Fin 0
                       else price .- at_ prices (i - 1)) prices.

(** The seed averages, taken when [i === period]. *)
Definition rsiSeed (changes : list num) (period : nat) : num * num :=
  let sums :=
    fold_left
      (fun (s : num * num) j =>
         let chg := at_ changes j in
         if chg .> Fin 0 then (fst s .+ chg, snd s)
         else (fst s, snd s .+ Js.abs chg))
      (seq 1 period) (Fin 0, Fin 0) in
  (fst sums ./ ofNat period, snd sums ./ ofNat period).

(** The loop state of [calculateRSIArray]. *)
Record RsiState : Type := mkRsiState {
  avgGain : num;
  avgLoss : num;
  rsiArray : list (option num)
}.

(** The value pushed once the averages of the index are known. *)
Definition rsiValue (avgGain avgLoss : num) : num :=
  if avgLoss .== Fin 0 then Fin 100
  else
    let rs := avgGain ./ avgLoss in
    Fin 100 .- Fin 100 ./ (Fin 1 .+ rs).

Definition rsiStep (changes : list num) (period : nat)
           (st : RsiState) (i : nat) : RsiState :=
  if (i <? period)%nat then
    mkRsiState (avgGain st) (avgLoss st) (rsiArray st ++ [None])
  else
    let change := at_ changes i in
    let gain := if change .> Fin 0 then change else Fin 0 in
    let loss := if change .< Fin 0 then Js.abs change else Fin 0 in
    let '(g, l) :=
      if (i =? period)%nat then rsiSeed changes period
      else
        ((avgGain st .* (ofNat period .- Fin 1) .+ gain) ./ ofNat period,
         (avgLoss st .* (ofNat period .- Fin 1) .+ loss) ./ ofNat period) in
    mkRsiState g l (rsiArray st ++ [Some (rsiValue g l)]).

Definition calculateRSIArray (prices : list num) (period : nat)
  : list (option num) :=
  if (length prices <? period + 1)%nat then fill (length prices) None else
  let changes := priceChanges prices in
  rsiArray (fold_left (rsiStep changes period) (seq 0 (length prices))
                      (mkRsiState (Fin 0) (Fin 0) [])).

(** Returns [None] (the source's [null]) if there is not enough data. *)
Definition calculateRSI (prices : list num) (period : nat) : option num :=
  if (length prices <=? period)%nat then None else
  let rsiArray := calculateRSIArray prices period in
  match fromEnd rsiArray 0 with
  | Some (Some lastRsi) => Some lastRsi
  | _ => None
  end.

Definition calculateATR (highs lows closes : list num) (period : nat)
  : option num :=
  if (length highs <? period + 1)%nat then None else
  let tr :=
    map (fun i =>
           let hl := at_ highs i .- at_ lows i in
           let hc := Js.abs (at_ highs i .- at_ closes (i - 1)) in
           let lc := Js.abs (at_ lows i .- at_ closes (i - 1)) in
           maxList [hl; hc; lc])
        (seq 1 (length highs - 1)) in
  if (length tr <? period)%nat then None else
  Some (Js.sum (lastN period tr) ./ ofNat period).

Record StochRSI : Type := mkStochRSI {
  k : num;
  d : num;
  rawK : option num
}.

(** [smooth] of [calculateStochRSI]. *)
Definition smooth (arr : list num) (p : nat) : list num :=
  map (fun i => Js.sum (slice arr (i - p) i) ./ ofNat p .* Fin 100)
      (seq p (length arr + 1 - p)).

(** The normalisation loop of [calculateStochRSI], run twice by the source:
    [flat] is pushed where the window has one value only, and [post] is
    applied to the normalised value otherwise. *)
Definition stochLoop (rsiValues : list num) (period : nat)
           (flat : num) (post : num -> num) : list num :=
  flat_map
    (fun i =>
       let sl := slice rsiValues (i - period + 1) (i + 1) in
       if (length sl =? 0)%nat then [] else
       let min := minList sl in
       let max := maxList sl in
       let current := at_ rsiValues i in
       if max .== min then [flat]
       else [post ((current .- min) ./ (max .- min))])
    (seq period (length rsiValues - period)).

Definition definedOnly (xs : list (option num)) : list num :=
  flat_map (fun x => match x with Some v => [v] | None => [] end) xs.

Definition calculateStochRSI (prices : list num) (period : nat)
  : option StochRSI :=
  let rsiValues := definedOnly (calculateRSIArray prices period) in
  if (length rsiValues <? period + 5)%nat then None else
  let stochRsi := stochLoop rsiValues period (Fin 0.5) (fun v => v) in
  let rawKList :=
    stochLoop rsiValues period (Fin 50) (fun v => v .* Fin 100) in
  let kValues := smooth stochRsi 3 in
  let dValues := smooth (map (fun v => v ./ Fin 100) kValues) 3 in
  let k := toNum (fromEnd kValues 0) in
  let d := toNum (fromEnd dValues 0) in
  let rawK := fromEnd rawKList 0 in
  if isNaN k || isNaN d then None
  else Some (mkStochRSI k d rawK).

Definition calculateADX (highs lows closes : list num) (period : nat)
  : option num :=
  if (length highs <? period * 2)%nat then None else
  let a := lastN period closes in
  let changes :=
    mapi (fun i c => if (i =? 0)%nat then Fin 0
                     else Js.abs (c .- at_ a (i - 1))) a in
  let avgChange := Js.sum changes ./ ofNat period in
  if (length closes =? 0)%nat || (toNum (fromEnd closes 0) .== Fin 0)
  then None else
  let volatility := avgChange ./ toNum (fromEnd closes 0) in
  Some (Js.min (Js.max (volatility .* Fin 1000) (Fin 10)) (Fin 60)).

(** ** cryptoApi.ts: market structure *)

Record MarketStructure : Type := mkMarketStructure {
  trend : Trend;
  supports : list num;
  resistances : list num
}.

(** [levels.sort((a, b) => a - b)]: a stable sort by the sign of [a - b]. *)
Fixpoint insertSorted (x : num) (xs : list num) : list num :=
  match xs with
  | [] => [x]
  | y :: rest =>
      if (x .- y) .< Fin 0 then x :: xs else y :: insertSorted x rest
  end.

Definition sortAsc (xs : list num) : list num :=
  fold_left (fun acc x => insertSorted x acc) xs [].

(** The loop of [clusterLevels] from index [i] on: [prev] is [levels[i - 1]],
    [rest] is [levels[i..]]. *)
Fixpoint clusterLoop (tolerance : num) (prev : num)
         (currentClusterSum : num) (currentClusterCount : nat)
         (rest : list num) : list num :=
  match rest with
  | [] => [currentClusterSum ./ ofNat currentClusterCount]
  | level :: rest' =>
      if level .<= prev .* (Fin 1 .+ tolerance) then
        clusterLoop tolerance level (currentClusterSum .+ level)
                    (S currentClusterCount) rest'
      else
        currentClusterSum ./ ofNat currentClusterCount
          :: clusterLoop tolerance level level 1 rest'
  end.

(** [clusterLevels] sorts its argument in place: the first component is the
    returned clusters, the second is the array the caller still holds. *)
Definition clusterLevels (levels : list num) (tolerance : num)
  : list num * list num :=
  let levels := sortAsc levels in
  match levels with
  | [] => ([], levels)
  | first :: rest => (clusterLoop tolerance first first 1 rest, levels)
  end.

(** The swing highs and lows, in the order the loop pushes them. *)
Definition swings (prices : list num) : list num * list num :=
  fold_left
    (fun (hl : list num * list num) i =>
       let highs :=
         if (at_ prices (i - 1) .> at_ prices (i - 2))
            && (at_ prices (i - 1) .> at_ prices i)
         then fst hl ++ [at_ prices (i - 1)] else fst hl in
       let lows :=
         if (at_ prices (i - 1) .< at_ prices (i - 2))
            && (at_ prices (i - 1) .< at_ prices i)
         then snd hl ++ [at_ prices (i - 1)] else snd hl in
       (highs, lows))
    (seq 2 (length prices - 2)) ([], []).

Definition analyzeMarketStructure (prices : list num) : MarketStructure :=
  if (length prices <? 10)%nat then mkMarketStructure RANGING [] [] else
  let '(highs, lows) := swings prices in
  (* both calls sort the array they are given: [highs] and [lows] below are
     the sorted arrays *)
  let '(highClusters, highs) := clusterLevels highs (Fin 0.02) in
  let resistances := lastN 3 highClusters in
  let '(lowClusters, lows) := clusterLevels lows (Fin 0.02) in
  let supports := firstn 3 lowClusters in
  let lastPrice := toNum (fromEnd prices 0) in
  let trend :=
    if (2 <=? length highs)%nat && (2 <=? length lows)%nat then
      let lastHigh := toNum (fromEnd highs 0) in
      let prevHigh := toNum (fromEnd highs 1) in
      let lastLow := toNum (fromEnd lows 0) in
      let prevLow := toNum (fromEnd lows 1) in
      let trend :=
        if (lastHigh .> prevHigh) && (lastLow .> prevLow) then UPTREND
        else if (lastHigh .< prevHigh) && (lastLow .< prevLow) then DOWNTREND
        else RANGING in
      let trend :=
        if Trend_eqb trend DOWNTREND && (lastPrice .> lastHigh)
        then UPTREND else trend in
      let trend :=
        if Trend_eqb trend UPTREND && (lastPrice .< lastLow)
        then DOWNTREND else trend in
      trend
    else
      let start := at_ prices 0 in
      let end_ := toNum (fromEnd prices 0) in
      if end_ .> start .* Fin 1.05 then UPTREND
      else if end_ .< start .* Fin 0.95 then DOWNTREND
      else RANGING in
  mkMarketStructure trend supports resistances.

(** ** cryptoApi.ts: divergence *)

Inductive PeakKind : Type := HIGH | LOW.

Definition findPeaks (arr : list (option num)) (type : PeakKind) : list nat :=
  flat_map
    (fun i =>
       match nth_error arr i with
       | Some (Some val) =>
           let rd j := toNum (match nth_error arr j with
                              | Some v => v | None => None end) in
           let left := rd (i - 1)%nat in
           let left2 := rd (i - 2)%nat in
           let right := rd (i + 1)%nat in
           let right2 := rd (i + 2)%nat in
           match type with
           | HIGH =>
               if (val .> left) && (val .> left2)
                  && (val .> right) && (val .> right2) then [i] else []
           | LOW =>
               if (val .< left) && (val .< left2)
                  && (val .< right) && (val .< right2) then [i] else []
           end
       | _ => []
       end)
    (seq 5 (length arr - 2 - 5)).

Definition detectRSIDivergence (prices : list num)
           (rsiValues : list (option num)) : DivergenceResult :=
  if (length prices <? 20)%nat || (length rsiValues <? 20)%nat
  then mkDivergence NONE WEAK else
  let priceHighs := findPeaks (map Some prices) HIGH in
  let priceLows := findPeaks (map Some prices) LOW in
  match fromEnd priceHighs 0, fromEnd priceHighs 1,
        fromEnd priceLows 0, fromEnd priceLows 1 with
  | Some lastHighIdx, Some prevHighIdx, Some lastLowIdx, Some prevLowIdx =>
      let rsiAt i := match nth_error rsiValues i with
                     | Some v => v | None => None end in
      let bearish :=
        (length prices - lastHighIdx <? 15)%nat
        && (at_ prices lastHighIdx .> at_ prices prevHighIdx)
        && match rsiAt lastHighIdx, rsiAt prevHighIdx with
           | Some rsi1, Some rsi2 => rsi1 .< rsi2
           | _, _ => false
           end in
      let bullish :=
        (length prices - lastLowIdx <? 15)%nat
        && (at_ prices lastLowIdx .< at_ prices prevLowIdx)
        && match rsiAt lastLowIdx, rsiAt prevLowIdx with
           | Some rsi1, Some rsi2 => rsi1 .> rsi2
           | _, _ => false
           end in
      if bearish then mkDivergence BEARISH STRONG
      else if bullish then mkDivergence BULLISH STRONG
      else mkDivergence NONE WEAK
  | _, _, _, _ => mkDivergence NONE WEAK
  end.

(** ** cryptoApi.ts: whale and anomaly detection *)

Inductive NetFlow : Type := NF_ACCUMULATION | NF_DISTRIBUTION | NF_NEUTRAL.

Record WhaleMetrics : Type := mkWhaleMetrics {
  netFlowStatus : NetFlow;
  volumeAnomalyFactor : num;
  turnoverRatio : num;
  whaleAlert : string
}.

Definition alertInsufficient : string := "بيانات غير كافية للتحليل".
Definition alertNone : string := "لا يوجد نشاط غير طبيعي".
Definition alertAbsorption : string :=
  "جدار شراء مخفي: حجم تداول ضخم مع ثبات سعري (امتصاص)".
Definition alertDump : string := "تصريف عنيف: سيولة بيع ضخمة تضغط السعر".
Definition alertTrap : string :=
  "صعود وهمي: السعر يرتفع بلا سيولة حقيقية (Trap)".
Definition alertInstitutional : string :=
  "شراء مؤسساتي: إغلاق قوي مع حجم تداول عالي".

(** Where the close sits in the range of the candle. *)
Definition closePosition (lastCandle : ChartPoint) : num :=
  (price lastCandle .- orElse (low lastCandle) (price lastCandle))
  ./ (orElse (high lastCandle) (price lastCandle)
      .- orElse (low lastCandle) (price lastCandle)).

(** [history] is an array, so the [!history] half of the guard is left out;
    so is [isLowClose], which the source computes and never reads. *)
Definition detectWhaleMovements
           (currentPrice priceChange24h volume24h marketCap : num)
           (history : list ChartPoint) : WhaleMetrics :=
  if (length history <? 24)%nat then
    mkWhaleMetrics NF_NEUTRAL (Fin 0) (Fin 0) alertInsufficient
  else
  let turnover :=
    if marketCap .> Fin 0 then volume24h ./ marketCap .* Fin 100
    else Fin 0 in
  let recentVols :=
    map (fun h => orElse (volume h) (Fin 0)) (lastN 24 history) in
  let avgVol :=
    Js.sum recentVols
    ./ (if (length recentVols =? 0)%nat then Fin 1
        else ofNat (length recentVols)) in
  let anomalyFactor :=
    if avgVol .> Fin 0 then volume24h ./ (avgVol .* Fin 24) else Fin 1 in
  let isHighClose :=
    match fromEnd history 0 with
    | Some lastCandle => closePosition lastCandle .> Fin 0.7
    | None => false
    end in
  let '(netFlow, alert) :=
    if (anomalyFactor .> Fin 1.5) && (Js.abs priceChange24h .< Fin 3) then
      (NF_ACCUMULATION, alertAbsorption)
    else if (anomalyFactor .> Fin 2.0) && (priceChange24h .< Fin (-5)) then
      (NF_DISTRIBUTION, alertDump)
    else if (priceChange24h .> Fin 5) && (anomalyFactor .< Fin 0.8) then
      (NF_DISTRIBUTION, alertTrap)
    else if (anomalyFactor .> Fin 2.0) && isHighClose then
      (NF_ACCUMULATION, alertInstitutional)
    else (NF_NEUTRAL, alertNone) in
  mkWhaleMetrics netFlow anomalyFactor turnover alert.

(** ** cryptoApi.ts: technical score *)

Definition calculateTechnicalScore
           (prices : list num) (rsi adx : option num)
           (stochRsi : option StochRSI) (trend : Trend)
           (divergence : DivergenceResult) : num :=
  let score := Fin 50 in
  let ema9 := calculateEMA prices 9 in
  let lastPrice := toNum (fromEnd prices 0) in
  let lastEma := fromEnd ema9 0 in
  let score :=
    if truthyOpt lastEma && negb (isNaN (toNum lastEma)) then
      if lastPrice .> toNum lastEma then score .+ Fin 12
      else score .- Fin 12
    else score in
  let score :=
    match trend with
    | UPTREND => score .+ Fin 10
    | DOWNTREND => score .- Fin 10
    | RANGING => score
    end in
  let score :=
    match rsi with
    | Some rsi =>
        if rsi .< Fin 30 then score .+ Fin 10
        else if rsi .> Fin 70 then score .- Fin 10
        else if (rsi .> Fin 50) && Trend_eqb trend UPTREND
             then score .+ Fin 5
        else score
    | None => score
    end in
  let score :=
    match adx with
    | Some adx =>
        if adx .> Fin 25 then
          match trend with
          | UPTREND => score .+ Fin 10
          | DOWNTREND => score .- Fin 10
          | RANGING => score
          end
        else score
    | None => score
    end in
  let score :=
    match stochRsi with
    | Some stochRsi =>
        let k := match rawK stochRsi with
                 | Some rawK => rawK
                 | None => k stochRsi
                 end in
        if k .< Fin 20 then score .+ Fin 10
        else if k .> Fin 80 then score .- Fin 10
        else score
    | None => score
    end in
  let score :=
    match dtype divergence with
    | BULLISH => score .+ Fin 15
    | BEARISH => score .- Fin 15
    | NONE => score
    end in
  Js.max (Fin 0) (Js.min (Fin 100) score).

(** ** cryptoApi.ts: volume profile *)

Record ProfileBin : Type := mkProfileBin {
  binPrice : option num;
  binVolume : num
}.

Record VolumeProfile : Type := mkVolumeProfile {
  poc : option num;
  vacLow : option num;
  vacHigh : option num;
  profile : list ProfileBin
}.

(** [xs[z]] for an index that may have left the array on either side. *)
Definition atZ {A} (xs : list A) (z : Z) : option A :=
  if (z <? 0)%Z then None else nth_error xs (Z.to_nat z).

(** [profileBins[binIndex] += vol] as seen through the keys [0 .. bins - 1],
    the only ones read afterwards; any other key makes a property of its
    own. *)
Definition addAtKey (profileBins : list num) (binIndex : num) (vol : num)
  : list num :=
  match binIndex with
  | Fin q =>
      let z := Qfloor q in
      if Qeq_bool q (inject_Z z) && (0 <=? z)%Z then
        mapi (fun i v => if (i =? Z.to_nat z)%nat then v .+ vol else v)
             profileBins
      else profileBins
  | _ => profileBins
  end.

(** The accumulation loop: one candle per iteration. *)
Definition fillBins (prices volumes : list num)
           (min step : num) (bins : nat) (profileBins : list num)
  : list num :=
  fold_left
    (fun profileBins i =>
       let price := at_ prices i in
       let vol := at_ volumes i in
       let binIndex := Js.floor ((price .- min) ./ step) in
       let binIndex :=
         if binIndex .>= ofNat bins then ofNat bins .- Fin 1
         else binIndex in
       addAtKey profileBins binIndex vol)
    (seq 0 (length prices)) profileBins.

(** The state of the POC loop: [maxVol], [pocIndex], [totalVolume]. *)
Definition pocLoop (profileBins : list num) (bins : nat) : num * nat * num :=
  fold_left
    (fun (st : num * nat * num) i =>
       let '(maxVol, pocIndex, totalVolume) := st in
       let vol := at_ profileBins i in
       let '(maxVol, pocIndex) :=
         if vol .> maxVol then (vol, i) else (maxVol, pocIndex) in
       (maxVol, pocIndex, totalVolume .+ vol))
    (seq 0 bins) (Fin 0, 0%nat, Fin 0).

(** The value-area loop.  [None] when [fuel] iterations were not enough to
    leave it. *)
Fixpoint valueAreaLoop (fuel : nat) (profileBins : list num) (bins : nat)
         (targetVol currentVol : num) (lowIdx highIdx : Z) : option (Z * Z) :=
  if (currentVol .< targetVol)
     && ((lowIdx >? 0)%Z || (highIdx <? Z.of_nat bins - 1)%Z)
  then
    match fuel with
    | O => None
    | S fuel' =>
        let lowerVol :=
          if (lowIdx >? 0)%Z then toNum (atZ profileBins (lowIdx - 1))
          else Fin 0 in
        let upperVol :=
          if (highIdx <? Z.of_nat bins - 1)%Z
          then toNum (atZ profileBins (highIdx + 1))
          else Fin 0 in
        if upperVol .> lowerVol then
          valueAreaLoop fuel' profileBins bins targetVol
                        (currentVol .+ upperVol) lowIdx (highIdx + 1)
        else
          valueAreaLoop fuel' profileBins bins targetVol
                        (currentVol .+ lowerVol) (lowIdx - 1) highIdx
    end
  else Some (lowIdx, highIdx).

Definition calculateVolumeProfile (fuel : nat) (prices volumes : list num)
           (bins : nat)
  : option VolumeProfile :=
  if (length prices =? 0)%nat || (length volumes =? 0)%nat then
    Some (mkVolumeProfile (Some (Fin 0)) (Some (Fin 0)) (Some (Fin 0)) [])
  else
  let min := minList prices in
  let max := maxList prices in
  let range := max .- min in
  let step := range ./ ofNat bins in
  let binKeys := map (fun i => min .+ ofNat i .* step) (seq 0 bins) in
  let profileBins := fill bins (Fin 0) in
  let profileBins := fillBins prices volumes min step bins profileBins in
  let '(maxVol, pocIndex, totalVolume) := pocLoop profileBins bins in
  let resultProfile :=
    map (fun i => mkProfileBin (nth_error binKeys i) (at_ profileBins i))
        (seq 0 bins) in
  let poc := nth_error binKeys pocIndex in
  let targetVol := totalVolume .* Fin 0.7 in
  match valueAreaLoop fuel profileBins bins targetVol maxVol
                      (Z.of_nat pocIndex) (Z.of_nat pocIndex) with
  | None => None
  | Some (lowIdx, highIdx) =>
      Some (mkVolumeProfile poc (atZ binKeys lowIdx) (atZ binKeys highIdx)
                            resultProfile)
  end.

(** ** BacktestService.ts *)

Inductive Strategy : Type := TREND_FOLLOWING | MEAN_REVERSION | SCORE_BASED.
Inductive Side : Type := LONG | SHORT.

Record TradeLog : Type := mkTradeLog {
  entryTime : string;
  exitTime : string;
  side : Side;
  entryPrice : num;
  exitPrice : num;
  pnl : num;
  pnlPercent : num;
  reason : string
}.

Record EquityPoint : Type := mkEquityPoint {
  curveTime : string;
  curveEquity : num
}.

Record BacktestResult : Type := mkBacktestResult {
  totalTrades : nat;
  wins : nat;
  losses : nat;
  winRate : num;
  profitFactor : num;
  maxDrawdown : num;
  equityCurve : list EquityPoint;
  trades : list TradeLog
}.

Record ScoreWeights : Type := mkScoreWeights {
  w_momentum : num;
  w_trend : num;
  w_rsiOverbought : num;
  w_rsiOversold : num;
  w_adx : num;
  w_stoch : num;
  w_div : num;
  w_orderBook : num
}.

(** The open position of the simulation. *)
Record Position : Type := mkPosition {
  posType : Side;
  entry : num;
  posTime : string;
  sl : num;
  tp : num
}.

(** The variables the candle loop of [runBacktest] updates. *)
Record BtState : Type := mkBtState {
  btTrades : list TradeLog;
  btEquity : num;
  btMaxEquity : num;
  btMaxDrawdown : num;
  btEquityCurve : list EquityPoint;
  btPosition : option Position
}.

(** The outcome of the stop and target checks of one candle. *)
Record StopCheck : Type := mkStopCheck {
  closed : bool;
  checkPnl : num;
  checkReason : string
}.

Definition checkStops (position : Position) (H L : num) : StopCheck :=
  match posType position with
  | LONG =>
      if L .<= sl position then
        mkStopCheck
          true ((sl position .- entry position) ./ entry position .* Fin 100)
          "Stop Loss"
      else if H .>= tp position then
        mkStopCheck
          true ((tp position .- entry position) ./ entry position .* Fin 100)
          "Take Profit"
      else mkStopCheck false (Fin 0) ""
  | SHORT =>
      if H .>= sl position then
        mkStopCheck
          true ((entry position .- sl position) ./ entry position .* Fin 100)
          "Stop Loss"
      else if L .<= tp position then
        mkStopCheck
          true ((entry position .- tp position) ./ entry position .* Fin 100)
          "Take Profit"
      else mkStopCheck false (Fin 0) ""
  end.

(** [candle.high !== undefined ? candle.high : currentPrice], and the same
    for the low. *)
Definition intrabarHigh (candle : ChartPoint) (currentPrice : num) : num :=
  match high candle with Some h => h | None => currentPrice end.

Definition intrabarLow (candle : ChartPoint) (currentPrice : num) : num :=
  match low candle with Some l => l | None => currentPrice end.

(** What closing a position does to the state, at the candle [candle]. *)
Definition closePosition_ (st : BtState) (position : Position)
           (candle : ChartPoint) (chk : StopCheck) : BtState :=
  let pnl := checkPnl chk in
  let riskPerTrade := btEquity st .* Fin 0.02 in
  let riskDistance := Js.abs (entry position .- sl position) in
  let rewardDistance := Js.abs (tp position .- entry position) in
  let rr := rewardDistance ./ orElse (Some riskDistance) (Fin 1) in
  let equity :=
    if pnl .> Fin 0 then btEquity st .+ riskPerTrade .* rr
    else btEquity st .- riskPerTrade in
  let trade :=
    mkTradeLog
      (posTime position) (time candle) (posType position)
      (entry position)
      (if pnl .> Fin 0 then tp position else sl position)
      (equity .- (equity .- (if pnl .> Fin 0 then riskPerTrade .* rr
                             else Js.neg riskPerTrade)))
      pnl (checkReason chk) in
  let maxEquity :=
    if equity .> btMaxEquity st then equity else btMaxEquity st in
  let dd := (maxEquity .- equity) ./ maxEquity .* Fin 100 in
  let maxDrawdown :=
    if dd .> btMaxDrawdown st then dd else btMaxDrawdown st in
  mkBtState (btTrades st ++ [trade]) equity maxEquity maxDrawdown
            (btEquityCurve st ++ [mkEquityPoint (time candle) equity])
            None.

Section Backtest.

(** [BacktestService.ts] calls [calculateTechnicalScore] with eight
    arguments, the last one an optional weight table; the function of that
    signature is not among the sources ([cryptoApi.ts] has the one of six
    arguments above), so the simulation takes it as a parameter. *)
Variable weightedTechnicalScore :
  list num -> option num -> option num -> option StochRSI -> Trend ->
  DivergenceResult -> option ScoreWeights -> num.

(** The entry rules: the position opened at candle [i], if any. *)
Definition entrySignal (strategy : Strategy) (weights : option ScoreWeights)
           (prices : list num) (i : nat) (candle : ChartPoint)
  : option Position :=
  let currentPrice := at_ prices i in
  let lookbackPrices := slice prices 0 (i + 1) in
  match strategy with
  | SCORE_BASED =>
      let rsi := calculateRSI lookbackPrices 14 in
      let structure := analyzeMarketStructure lookbackPrices in
      let adx := calculateADX [] [] lookbackPrices 14 in
      let stoch := calculateStochRSI lookbackPrices 14 in
      let divergence := detectRSIDivergence lookbackPrices [] in
      let score :=
        weightedTechnicalScore lookbackPrices rsi adx stoch
                               (trend structure) divergence weights in
      if score .> Fin 75 then
        let sl := currentPrice .* Fin 0.98 in
        let tp := currentPrice .* Fin 1.04 in
        Some (mkPosition LONG currentPrice (time candle) sl tp)
      else None
  | TREND_FOLLOWING =>
      let rsi := calculateRSI lookbackPrices 14 in
      let structure := analyzeMarketStructure lookbackPrices in
      if Trend_eqb (trend structure) UPTREND
         && truthyOpt rsi && (toNum rsi .< Fin 40) then
        let sl := currentPrice .* Fin 0.98 in
        let tp := currentPrice .* Fin 1.04 in
        Some (mkPosition LONG currentPrice (time candle) sl tp)
      else None
  | MEAN_REVERSION =>
      let rsi := calculateRSI lookbackPrices 14 in
      let structure := analyzeMarketStructure lookbackPrices in
      if Trend_eqb (trend structure) RANGING then
        if truthyOpt rsi && (toNum rsi .< Fin 30) then
          let sl := currentPrice .* Fin 0.97 in
          let tp := currentPrice .* Fin 1.03 in
          Some (mkPosition LONG currentPrice (time candle) sl tp)
        else None
      else None
  end.

(** One iteration of the candle loop, at index [i]. *)
Definition backtestStep (strategy : Strategy) (weights : option ScoreWeights)
           (history : list ChartPoint) (prices : list num)
           (st : BtState) (i : nat) : BtState :=
  match nth_error history i with
  | None => st
  | Some candle =>
      let currentPrice := at_ prices i in
      match btPosition st with
      | Some position =>
          let H := intrabarHigh candle currentPrice in
          let L := intrabarLow candle currentPrice in
          let chk := checkStops position H L in
          if closed chk then closePosition_ st position candle chk
          else st
      | None =>
          mkBtState (btTrades st) (btEquity st) (btMaxEquity st)
                    (btMaxDrawdown st) (btEquityCurve st)
                    (entrySignal strategy weights prices i candle)
      end
  end.

Definition countIf {A} (f : A -> bool) (xs : list A) : nat :=
  length (filter f xs).

(** [trades.filter(t => t.pnl > 0).reduce((a, b) => a + b.pnl, 0)]. *)
Definition grossProfitOf (trades : list TradeLog) : num :=
  fold_left (fun a b => a .+ pnl b)
            (filter (fun t => pnl t .> Fin 0) trades) (Fin 0).

(** [Math.abs(trades.filter(t => t.pnl < 0).reduce((a, b) => a + b.pnl, 0))]. *)
Definition grossLossOf (trades : list TradeLog) : num :=
  Js.abs (fold_left (fun a b => a .+ pnl b)
                    (filter (fun t => pnl t .< Fin 0) trades) (Fin 0)).

(** The variables as they are set up before the candle loop. *)
Definition backtestInit (history : list ChartPoint) (initialCapital : num)
  : BtState :=
  let equity := initialCapital in
  let equityCurve :=
    match nth_error history 0 with
    | Some h0 => [mkEquityPoint (time h0) equity]
    | None => []
    end in
  mkBtState [] equity initialCapital (Fin 0) equityCurve None.

(** The state after the first [n] iterations of the candle loop, which
    starts at index 50. *)
Definition backtestStateAt (strategy : Strategy)
           (weights : option ScoreWeights) (history : list ChartPoint)
           (initialCapital : num) (n : nat) : BtState :=
  let prices := map price history in
  fold_left (backtestStep strategy weights history prices) (seq 50 n)
            (backtestInit history initialCapital).

Definition runBacktest (strategy : Strategy) (history : list ChartPoint)
           (initialCapital : num) (weights : option ScoreWeights)
  : BacktestResult :=
  if (length history <? 50)%nat then
    mkBacktestResult 0 0 0 (Fin 0) (Fin 0) (Fin 0) [] []
  else
  let st :=
    backtestStateAt strategy weights history initialCapital
                    (length history - 50) in
  let trades := btTrades st in
  let wins := countIf (fun t => pnl t .> Fin 0) trades in
  let losses := countIf (fun t => pnl t .<= Fin 0) trades in
  let totalTrades := length trades in
  let grossProfit := grossProfitOf trades in
  let grossLoss := grossLossOf trades in
  let profitFactor :=
    if grossLoss .== Fin 0 then grossProfit
    else grossProfit ./ grossLoss in
  mkBacktestResult
    totalTrades wins losses
    (if (0 <? totalTrades)%nat
     then ofNat wins ./ ofNat totalTrades .* Fin 100 else Fin 0)
    profitFactor (btMaxDrawdown st) (btEquityCurve st) trades.

(** *** Walk-forward analysis *)

Record PeriodResult : Type := mkPeriodResult {
  windowIndex : nat;
  train : BacktestResult;
  test : BacktestResult
}.

Record WalkForwardResult : Type := mkWalkForwardResult {
  periodResults : list PeriodResult;
  overallStability : num;
  averageWinRate : num
}.

(** The sliding-window loop from index [i] on.  The counter moves by
    [testSize], so with [testSize = 0] the loop never ends; [None] when
    [fuel] iterations were not enough to leave it. *)
Fixpoint walkForwardLoop (fuel : nat) (strategy : Strategy)
         (history : list ChartPoint) (trainSize testSize : nat)
         (i : nat) (results : list PeriodResult)
  : option (list PeriodResult) :=
  let step := testSize in
  if (Z.of_nat i <? Z.of_nat (length history)
                    - Z.of_nat (trainSize + testSize))%Z
  then
    match fuel with
    | O => None
    | S fuel' =>
        let trainWindow := slice history i (i + trainSize) in
        let testWindow :=
          slice history (i + trainSize) (i + trainSize + testSize) in
        if (length testWindow <? testSize)%nat then Some results
        else
          let trainResult :=
            runBacktest strategy trainWindow (Fin 1000) None in
          let testResult :=
            runBacktest
              strategy testWindow
              (orElse (option_map curveEquity
                                  (fromEnd (equityCurve trainResult) 0))
                      (Fin 1000))
              None in
          walkForwardLoop
            fuel' strategy history trainSize testSize (i + step)
            (results ++ [mkPeriodResult i trainResult testResult])
    end
  else Some results.

(** The stability of one window, as the aggregation loop computes it. *)
Definition periodStability (r : PeriodResult) : num :=
  let trainWR := winRate (train r) in
  let testWR := winRate (test r) in
  let diff := Js.abs (trainWR .- testWR) in
  Js.max (Fin 0) (Fin 100 .- diff).

(** [runWalkForwardAnalysis]; the loop is given one iteration per candle
    and one more, which is enough whenever the step is positive. *)
Definition runWalkForwardAnalysis (strategy : Strategy)
           (history : list ChartPoint) (trainSize testSize : nat)
  : option WalkForwardResult :=
  match walkForwardLoop (S (length history)) strategy history
                        trainSize testSize 0 [] with
  | None => None
  | Some results =>
      let stabilitySum :=
        fold_left (fun s r => s .+ periodStability r) results (Fin 0) in
      let totalWinRate :=
        fold_left (fun s r => s .+ winRate (test r)) results (Fin 0) in
      Some (mkWalkForwardResult
              results
              (if (0 <? length results)%nat
               then stabilitySum ./ ofNat (length results) else Fin 0)
              (if (0 <? length results)%nat
               then totalWinRate ./ ofNat (length results) else Fin 0))
  end.

End Backtest.

(** ** HybridScannerService.ts *)

Module HybridScannerService.

Inductive SignalType : Type :=
| SIG_ACCUMULATION | SIG_BREAKOUT | SIG_VOLUME_SPIKE | SIG_DUMP
| SIG_SCALPING_PUMP | SIG_TREND_CONTINUATION | SIG_UNDERVALUED
| SIG_FALSE_BREAKOUT_RISK.

Record FuturesData : Type := mkFuturesData {
  openInterest : num;
  longShortRatio : num;
  fundingRate : num
}.

(** The fields of [ScannerSignal] that the service reads. *)
Record ScannerSignal : Type := mkScannerSignal {
  signalType : SignalType;
  probability : num;
  futuresData : option FuturesData
}.

Inductive MarketRegime : Type :=
| TRENDING | RANGING | VOLATILE | ACCUMULATION | DISTRIBUTION.

Inductive MoveClassification : Type :=
| REAL_MOMENTUM | LIQUIDITY_GRAB | STOP_HUNT | NEWS_EVENT | UNKNOWN.

Inductive RiskLevel : Type := LOW | MEDIUM | HIGH.

Inductive ExecutionBias : Type :=
| BIAS_BREAKOUT | BIAS_PULLBACK | BIAS_MEAN_REVERSION | BIAS_ACCUMULATION.

Inductive BtcTrend : Type := UP | DOWN | FLAT.

(** [failureProbability] is the number in front of the percent sign. *)
Record HybridAnalysisResult : Type := mkHybridAnalysisResult {
  marketRegime : MarketRegime;
  moveClassification : MoveClassification;
  opportunityScore : num;
  riskLevel : RiskLevel;
  executionBias : ExecutionBias;
  failureProbability : num;
  institutionalTag : option string
}.

Definition SignalType_eqb (a b : SignalType) : bool :=
  match a, b with
  | SIG_ACCUMULATION, SIG_ACCUMULATION | SIG_BREAKOUT, SIG_BREAKOUT
  | SIG_VOLUME_SPIKE, SIG_VOLUME_SPIKE | SIG_DUMP, SIG_DUMP
  | SIG_SCALPING_PUMP, SIG_SCALPING_PUMP
  | SIG_TREND_CONTINUATION, SIG_TREND_CONTINUATION
  | SIG_UNDERVALUED, SIG_UNDERVALUED
  | SIG_FALSE_BREAKOUT_RISK, SIG_FALSE_BREAKOUT_RISK => true
  | _, _ => false
  end.

Definition MarketRegime_eqb (a b : MarketRegime) : bool :=
  match a, b with
  | TRENDING, TRENDING | RANGING, RANGING | VOLATILE, VOLATILE
  | ACCUMULATION, ACCUMULATION | DISTRIBUTION, DISTRIBUTION => true
  | _, _ => false
  end.

Definition VOLATILITY_THRESHOLD_HIGH : num := Fin 2.5.
Definition MOMENTUM_CONFIRMATION_VOLUME_FACTOR : num := Fin 1.5.

(** The last entry that is a number, [0] if there is none. *)
Definition getLast (arr : list num) : num :=
  match filter (fun x => negb (isNaN x)) (rev arr) with
  | x :: _ => x
  | [] => Fin 0
  end.

(** The source also computes [calculateADX([], [], prices)] here and never
    reads it. *)
Definition detectMarketRegime (history : list ChartPoint)
           (prices : list num) : MarketRegime :=
  let highs := map (fun h => orElse (high h) (price h)) history in
  let lows := map (fun l => orElse (low l) (price l)) history in
  let ema20 := getLast (calculateEMA prices 20) in
  let ema50 := getLast (calculateEMA prices 50) in
  let current := toNum (fromEnd prices 0) in
  let atr := calculateATR highs lows prices 14 in
  let atrPct :=
    if truthyOpt atr && truthy current
    then toNum atr ./ current .* Fin 100 else Fin 0 in
  if atrPct .> VOLATILITY_THRESHOLD_HIGH then VOLATILE else
  let isUptrend := (current .> ema20) && (ema20 .> ema50) in
  let isDowntrend := (current .< ema20) && (ema20 .< ema50) in
  if isUptrend || isDowntrend then TRENDING else
  let period50 := lastN 50 prices in
  let min50 := minList period50 in
  let max50 := maxList period50 in
  let rangePos := (current .- min50) ./ (max50 .- min50) in
  if rangePos .< Fin 0.3 then ACCUMULATION
  else if rangePos .> Fin 0.7 then DISTRIBUTION
  else RANGING.

(** [classifyMove] reads the last candle; the caller has checked that the
    history has fifty of them.  [isWickRejection], which the source computes
    and never reads, is left out. *)
Definition classifyMove (signal : ScannerSignal) (history : list ChartPoint)
           (regime : MarketRegime) : MoveClassification :=
  match fromEnd history 0 with
  | None => UNKNOWN
  | Some lastCandle =>
      let prevPrice :=
        match fromEnd history 1 with
        | Some prevCandle => price prevCandle
        | None => price lastCandle
        end in
      let avgVol :=
        fold_left (fun a b => a .+ toNum (volume b)) (lastN 20 history)
                  (Fin 0) ./ Fin 20 in
      let isVolumeSupported :=
        toNum (volume lastCandle)
        .> avgVol .* MOMENTUM_CONFIRMATION_VOLUME_FACTOR in
      if (SignalType_eqb (signalType signal) SIG_BREAKOUT
          || SignalType_eqb (signalType signal) SIG_SCALPING_PUMP)
         && negb isVolumeSupported
      then LIQUIDITY_GRAB
      else if isVolumeSupported
              && (MarketRegime_eqb regime TRENDING
                  || MarketRegime_eqb regime ACCUMULATION)
      then REAL_MOMENTUM
      else
        let movePct :=
          Js.abs ((price lastCandle .- prevPrice) ./ prevPrice)
          .* Fin 100 in
        if (movePct .> Fin 2.0) && MarketRegime_eqb regime VOLATILE
        then NEWS_EVENT
        else if MarketRegime_eqb regime RANGING then UNKNOWN
        else REAL_MOMENTUM
  end.

Definition calculateOpportunityScore (signal : ScannerSignal)
           (regime : MarketRegime) (classification : MoveClassification)
           (history : list ChartPoint) (btcContext : option BtcTrend) : num :=
  let score := Fin 50 in
  let score := score .+ (probability signal .- Fin 50) in
  let isType t := SignalType_eqb (signalType signal) t in
  let score :=
    if isType SIG_TREND_CONTINUATION && MarketRegime_eqb regime TRENDING
    then score .+ Fin 10 else score in
  let score :=
    if isType SIG_BREAKOUT && MarketRegime_eqb regime ACCUMULATION
    then score .+ Fin 15 else score in
  let score :=
    if isType SIG_SCALPING_PUMP && MarketRegime_eqb regime VOLATILE
    then score .- Fin 10 else score in
  let score :=
    if isType SIG_SCALPING_PUMP && MarketRegime_eqb regime TRENDING
    then score .+ Fin 10 else score in
  let score :=
    match classification with
    | REAL_MOMENTUM => score .+ Fin 15
    | LIQUIDITY_GRAB => score .- Fin 20
    | STOP_HUNT => score .- Fin 15
    | NEWS_EVENT => score .- Fin 5
    | UNKNOWN => score .- Fin 5
    end in
  let score :=
    match btcContext with
    | Some btcTrend =>
        let signalBias := if isType SIG_DUMP then DOWN else UP in
        match signalBias, btcTrend with
        | UP, UP | DOWN, DOWN => score .+ Fin 5
        | _, _ => score .- Fin 5
        end
    | None => score
    end in
  let prices := map price history in
  let rsi := calculateRSI prices 14 in
  let score :=
    if truthyOpt rsi then
      let score :=
        if negb (isType SIG_DUMP) && (toNum rsi .> Fin 75)
        then score .- Fin 10 else score in
      if negb (isType SIG_DUMP) && (toNum rsi .< Fin 40)
         && MarketRegime_eqb regime TRENDING
      then score .+ Fin 5 else score
    else score in
  Js.min (Fin 99) (Js.max (Fin 1) score).

Definition assessRisk (score : num) (regime : MarketRegime)
           (classification : MoveClassification) : RiskLevel * num :=
  let risk :=
    if score .> Fin 80 then LOW
    else if score .< Fin 50 then HIGH
    else MEDIUM in
  let risk := if MarketRegime_eqb regime VOLATILE then HIGH else risk in
  let risk :=
    match classification with LIQUIDITY_GRAB => HIGH | _ => risk end in
  let failProb := Fin 100 .- score in
  let failProb :=
    if MarketRegime_eqb regime RANGING then failProb .+ Fin 5
    else failProb in
  (risk, Js.round failProb).

Definition determineExecutionBias (signalType : SignalType)
           (regime : MarketRegime) : ExecutionBias :=
  match signalType with
  | SIG_SCALPING_PUMP => BIAS_BREAKOUT
  | SIG_DUMP => BIAS_BREAKOUT
  | _ =>
      match regime with
      | TRENDING => BIAS_PULLBACK
      | ACCUMULATION => BIAS_ACCUMULATION
      | RANGING => BIAS_MEAN_REVERSION
      | _ => BIAS_BREAKOUT
      end
  end.

Definition tagShortSqueeze : string := "🐋 Potential Short Squeeze".
Definition tagCrowdedLongs : string := "⚠️ Crowded Longs (Risk)".
Definition tagSmartMoney : string := "🏦 Smart Money Accumulation".

(** The derivatives overlay: tag, adjusted score and forced risk. *)
Definition futuresOverlay (baseSignal : ScannerSignal) (score : num)
  : option string * num * option RiskLevel :=
  match futuresData baseSignal with
  | None => (None, score, None)
  | Some fd =>
      let notDump := negb (SignalType_eqb (signalType baseSignal) SIG_DUMP) in
      let '(institutionalTag, adjustedScore, adjustedRisk) :=
        if (longShortRatio fd .< Fin 0.6) && notDump then
          (Some tagShortSqueeze, score .+ Fin 20, Some LOW)
        else if (longShortRatio fd .> Fin 3.0) && notDump then
          (Some tagCrowdedLongs, score .- Fin 30, Some HIGH)
        else (None, score, None) in
      if SignalType_eqb (signalType baseSignal) SIG_ACCUMULATION
         && (openInterest fd .> Fin 0) && (longShortRatio fd .< Fin 0.8)
      then (Some tagSmartMoney, adjustedScore .+ Fin 15, adjustedRisk)
      else (institutionalTag, adjustedScore, adjustedRisk)
  end.

Definition enrichSignal (baseSignal : ScannerSignal)
           (history : list ChartPoint) (btcContext : option BtcTrend)
  : HybridAnalysisResult :=
  if (length history <? 50)%nat then
    mkHybridAnalysisResult RANGING UNKNOWN (probability baseSignal) MEDIUM
                           BIAS_MEAN_REVERSION (Fin 50) None
  else
  let prices := map price history in
  let regime := detectMarketRegime history prices in
  let classification := classifyMove baseSignal history regime in
  let score :=
    calculateOpportunityScore baseSignal regime classification history
                              btcContext in
  let '(institutionalTag, adjustedScore, adjustedRisk) :=
    futuresOverlay baseSignal score in
  let '(risk, failureProbability) :=
    assessRisk adjustedScore regime classification in
  let bias := determineExecutionBias (signalType baseSignal) regime in
  let finalRisk :=
    match adjustedRisk with Some r => r | None => risk end in
  mkHybridAnalysisResult regime classification
                         (Js.min (Fin 99) adjustedScore)
                         finalRisk bias failureProbability institutionalTag.

End HybridScannerService.

(** ** cryptoApi.ts: anchored VWAP and Fibonacci levels *)

(** The loop of [calculateAnchoredVWAP]: [cumVol], [cumPv] and the line. *)
Definition vwapStep (st : num * num * list num) (p : ChartPoint)
  : num * num * list num :=
  let '(cumVol, cumPv, vwapLine) := st in
  let price := price p in
  let vol := toNum (volume p) in
  let cumPv := cumPv .+ price .* vol in
  let cumVol := cumVol .+ vol in
  (cumVol, cumPv,
   vwapLine ++ [if cumVol .> Fin 0 then cumPv ./ cumVol else price]).

Definition calculateAnchoredVWAP (points : list ChartPoint) (anchorIndex : Z)
  : list num :=
  if (length points =? 0)%nat || (anchorIndex <? 0)%Z
     || (anchorIndex >=? Z.of_nat (length points))%Z
  then [] else
  let vwapLine := fill (Z.to_nat anchorIndex) NaN in
  snd (fold_left vwapStep (skipn (Z.to_nat anchorIndex) points)
                 (Fin 0, Fin 0, vwapLine)).

Record FibonacciLevels : Type := mkFibonacciLevels {
  fibLow : num;
  fibHigh : num;
  fib236 : num;
  fib382 : num;
  fib500 : num;
  fib618 : num;
  fib786 : num
}.

(** The running [min] and [max] of the [forEach] of
    [calculateFibonacciLevels]. *)
Definition fibRange (subset : list num) : num * num :=
  fold_left
    (fun (mm : num * num) p =>
       let min := if p .< fst mm then p else fst mm in
       let max := if p .> snd mm then p else snd mm in
       (min, max))
    subset (PInf, NInf).

Definition calculateFibonacciLevels (prices : list num) : FibonacciLevels :=
  let lookback := Nat.min (length prices) 100 in
  let subset := lastN lookback prices in
  let '(min, max) := fibRange subset in
  let diff := max .- min in
  mkFibonacciLevels min max
                    (max .- diff .* Fin 0.236)
                    (max .- diff .* Fin 0.382)
                    (max .- diff .* Fin 0.5)
                    (max .- diff .* Fin 0.618)
                    (max .- diff .* Fin 0.786).

(** ** BacktestService.ts: sensitivity analysis *)

(** The keys of [ScoreWeights]. *)
Inductive WeightKey : Type :=
| K_momentum | K_trend | K_rsiOverbought | K_rsiOversold
| K_adx | K_stoch | K_div | K_orderBook.

Definition keyName (key : WeightKey) : string :=
  match key with
  | K_momentum => "momentum"
  | K_trend => "trend"
  | K_rsiOverbought => "rsiOverbought"
  | K_rsiOversold => "rsiOversold"
  | K_adx => "adx"
  | K_stoch => "stoch"
  | K_div => "div"
  | K_orderBook => "orderBook"
  end.

Definition WeightKey_eqb (a b : WeightKey) : bool :=
  match a, b with
  | K_momentum, K_momentum | K_trend, K_trend
  | K_rsiOverbought, K_rsiOverbought | K_rsiOversold, K_rsiOversold
  | K_adx, K_adx | K_stoch, K_stoch | K_div, K_div
  | K_orderBook, K_orderBook => true
  | _, _ => false
  end.

(** [weights[key]]. *)
Definition getWeight (weights : ScoreWeights) (key : WeightKey) : num :=
  match key with
  | K_momentum => w_momentum weights
  | K_trend => w_trend weights
  | K_rsiOverbought => w_rsiOverbought weights
  | K_rsiOversold => w_rsiOversold weights
  | K_adx => w_adx weights
  | K_stoch => w_stoch weights
  | K_div => w_div weights
  | K_orderBook => w_orderBook weights
  end.

(** [{ ...weights, [key]: value }]. *)
Definition setWeight (weights : ScoreWeights) (key : WeightKey) (value : num)
  : ScoreWeights :=
  let pick k := if WeightKey_eqb k key then value else getWeight weights k in
  mkScoreWeights (pick K_momentum) (pick K_trend) (pick K_rsiOverbought)
                 (pick K_rsiOversold) (pick K_adx) (pick K_stoch)
                 (pick K_div) (pick K_orderBook).

Inductive Change : Type := PLUS_20 | MINUS_20.
Inductive Impact : Type := POSITIVE | NEGATIVE | NEUTRAL.

Record Variation : Type := mkVariation {
  varFactor : WeightKey;
  varChange : Change;
  varWinRate : num;
  varProfitFactor : num;
  varImpact : Impact
}.

(** [mostSensitiveFactor] is the name of a factor or ["None"]. *)
Record SensitivityReport : Type := mkSensitivityReport {
  baseWinRate : num;
  variations : list Variation;
  mostSensitiveFactor : string
}.

Definition Change_eqb (a b : Change) : bool :=
  match a, b with
  | PLUS_20, PLUS_20 | MINUS_20, MINUS_20 => true
  | _, _ => false
  end.

Definition sensitivityFactors : list WeightKey :=
  [K_momentum; K_trend; K_rsiOverbought; K_rsiOversold; K_adx; K_stoch;
   K_div].

Definition baseWeights : ScoreWeights :=
  mkScoreWeights (Fin 10) (Fin 10) (Fin 20) (Fin 10) (Fin 5) (Fin 10)
                 (Fin 15) (Fin 10).

Definition impactOf (winRate base : num) : Impact :=
  if winRate .> base then POSITIVE
  else if winRate .< base then NEGATIVE
  else NEUTRAL.

Section Sensitivity.

Variable weightedTechnicalScore :
  list num -> option num -> option num -> option StochRSI -> Trend ->
  DivergenceResult -> option ScoreWeights -> num.

(** The two entries that the first [forEach] pushes for a factor. *)
Definition factorVariations (history : list ChartPoint)
           (baseResult : BacktestResult) (factor : WeightKey)
  : list Variation :=
  let weightsHigh :=
    setWeight baseWeights factor (getWeight baseWeights factor .* Fin 1.2) in
  let resHigh :=
    runBacktest weightedTechnicalScore SCORE_BASED history (Fin 1000)
                (Some weightsHigh) in
  let weightsLow :=
    setWeight baseWeights factor (getWeight baseWeights factor .* Fin 0.8) in
  let resLow :=
    runBacktest weightedTechnicalScore SCORE_BASED history (Fin 1000)
                (Some weightsLow) in
  [mkVariation factor PLUS_20 (winRate resHigh) (profitFactor resHigh)
               (impactOf (winRate resHigh) (winRate baseResult));
   mkVariation factor MINUS_20 (winRate resLow) (profitFactor resLow)
               (impactOf (winRate resLow) (winRate baseResult))].

(** The second [forEach]: [maxDiff] and [mostSensitive]. *)
Definition mostSensitiveStep (variations : list Variation)
           (st : num * string) (factor : WeightKey) : num * string :=
  let vHigh :=
    find (fun v => WeightKey_eqb (varFactor v) factor
                   && Change_eqb (varChange v) PLUS_20) variations in
  let vLow :=
    find (fun v => WeightKey_eqb (varFactor v) factor
                   && Change_eqb (varChange v) MINUS_20) variations in
  match vHigh, vLow with
  | Some vHigh, Some vLow =>
      let diff := Js.abs (varWinRate vHigh .- varWinRate vLow) in
      if diff .> fst st then (diff, keyName factor) else st
  | _, _ => st
  end.

Definition runSensitivityAnalysis (history : list ChartPoint)
  : SensitivityReport :=
  let baseResult :=
    runBacktest weightedTechnicalScore SCORE_BASED history (Fin 1000) None in
  let variations :=
    flat_map (factorVariations history baseResult) sensitivityFactors in
  let '(maxDiff, mostSensitive) :=
    fold_left (mostSensitiveStep variations) sensitivityFactors
              (Fin 0, "None"%string) in
  mkSensitivityReport (winRate baseResult) variations mostSensitive.

End Sensitivity.

(** ** Notions used to state the properties *)

(** The candle reaches the stop and the target of the position at once. *)
Definition touchesBoth (position : Position) (H L : num) : bool :=
  match posType position with
  | LONG => (L .<= sl position) && (H .>= tp position)
  | SHORT => (H .>= sl position) && (L .<= tp position)
  end.

(** The percent result of leaving the position at its stop price. *)
Definition stopPnl (position : Position) : num :=
  match posType position with
  | LONG => (sl position .- entry position) ./ entry position .* Fin 100
  | SHORT => (entry position .- sl position) ./ entry position .* Fin 100
  end.

(** A stop on the losing side of a position: leaving there is no gain. *)
Definition stopIsLoss (position : Position) : Prop :=
  (stopPnl position .> Fin 0) = false.

(** The state of the loop of [calculateRSIArray] once the indices below [n]
    are done: the rolling averages and the entries pushed so far. *)
Definition rsiStateAt (prices : list num) (period n : nat) : RsiState :=
  fold_left (rsiStep (priceChanges prices) period) (seq 0 n)
            (mkRsiState (Fin 0) (Fin 0) []).

(** An entry of an indicator series is either undefined or within the
    bounds. *)
Definition entryWithin (lo hi : Q) (e : option num) : Prop :=
  match e with
  | None => True
  | Some v => exists q, v = Fin q /\ lo <= q <= hi
  end.

(** The clustering as the specification words it: after the ascending sort,
    a level joins the current cluster exactly when it is within [tolerance]
    of the running average of that cluster. *)
Fixpoint clusterLoop_spec (tolerance : num) (currentClusterSum : num)
         (currentClusterCount : nat) (rest : list num) : list num :=
  let average := currentClusterSum ./ ofNat currentClusterCount in
  match rest with
  | [] => [average]
  | level :: rest' =>
      if Js.abs (level .- average) .<= average .* tolerance then
        clusterLoop_spec tolerance (currentClusterSum .+ level)
                         (S currentClusterCount) rest'
      else average :: clusterLoop_spec tolerance level 1 rest'
  end.

Definition clusterLevels_spec (levels : list num) (tolerance : num)
  : list num :=
  match sortAsc levels with
  | [] => []
  | first :: rest => clusterLoop_spec tolerance first 1 rest
  end.

(** The ascending sort on rationals. *)
Fixpoint insertQ (x : Q) (ys : list Q) : list Q :=
  match ys with
  | [] => [x]
  | y :: rest => if Qltb (x - y) 0 then x :: ys else y :: insertQ x rest
  end.

Definition sortQ (qs : list Q) : list Q :=
  fold_left (fun acc x => insertQ x acc) qs [].

(** The chains of a sorted list of levels: a level stays in the chain of the
    level before it exactly when it is at most [tolerance] above that
    level.  [prev] is the last level of [current]. *)
Fixpoint chainsFrom (tolerance : Q) (prev : Q) (current : list Q)
         (rest : list Q) : list (list Q) :=
  match rest with
  | [] => [current]
  | x :: rest' =>
      if Qle_bool x (prev * (1 + tolerance))
      then chainsFrom tolerance x (current ++ [x]) rest'
      else current :: chainsFrom tolerance x [x] rest'
  end.

Definition chains (tolerance : Q) (sorted : list Q) : list (list Q) :=
  match sorted with
  | [] => []
  | x :: rest => chainsFrom tolerance x [x] rest
  end.

(** Every level of the chain is at most [tolerance] above the one before. *)
Fixpoint linked (tolerance : Q) (c : list Q) : Prop :=
  match c with
  | a :: (b :: _) as rest => b <= a * (1 + tolerance) /\ linked tolerance rest
  | _ => True
  end.

(** Each chain starts more than [tolerance] above the end of the chain
    before it. *)
Fixpoint separated (tolerance : Q) (cs : list (list Q)) : Prop :=
  match cs with
  | c1 :: (c2 :: _) as rest =>
      match c2 with
      | b :: _ => last c1 0 * (1 + tolerance) < b
      | [] => False
      end
      /\ separated tolerance rest
  | _ => True
  end.

Definition sumQ (c : list Q) : Q := fold_left Qplus c 0.

(** The arithmetic mean of a cluster. *)
Definition meanQ (c : list Q) : Q :=
  sumQ c / inject_Z (Z.of_nat (length c)).

(** The crowded-longs rule of the derivatives overlay fires: the one rule
    that lowers the score (by 30) after it has been clamped. *)
Definition crowdedLongs (baseSignal : HybridScannerService.ScannerSignal)
  : bool :=
  match HybridScannerService.futuresData baseSignal with
  | None => false
  | Some fd =>
      let notDump :=
        negb (HybridScannerService.SignalType_eqb
                (HybridScannerService.signalType baseSignal)
                HybridScannerService.SIG_DUMP) in
      negb ((HybridScannerService.longShortRatio fd .< Fin 0.6) && notDump)
      && (HybridScannerService.longShortRatio fd .> Fin 3.0) && notDump
  end.

(** A score between 1 and 99. *)
Definition scoreInRange (x : num) : bool := (Fin 1 .<= x) && (x .<= Fin 99).

(** Values for the concrete instances.  The score function to run the
    simulation with is the six-argument [calculateTechnicalScore] of
    [cryptoApi.ts], which has no use for the weights. *)
Definition unweightedScore
           (prices : list num) (rsi adx : option num)
           (stochRsi : option StochRSI) (trend : Trend)
           (divergence : DivergenceResult) (_ : option ScoreWeights) : num :=
  calculateTechnicalScore prices rsi adx stochRsi trend divergence.

Definition flatCandle : ChartPoint :=
  mkChartPoint "2024-01-01T00:00:00.000Z" (Fin 100) (Some (Fin 1)) None None.

(** The position is one that the entry rules of [runBacktest] open. *)
Definition openedByEntry
           (score : list num -> option num -> option num -> option StochRSI ->
                    Trend -> DivergenceResult -> option ScoreWeights -> num)
           (position : Position) : Prop :=
  exists strategy weights prices i candle,
    entrySignal score strategy weights prices i candle = Some position.

(** A positive entry price with the stop on the losing side of it: at or
    below for a long position, at or above for a short one. *)
Definition stopOnLosingSide (position : Position) : Prop :=
  exists e s,
    entry position = Fin e /\ sl position = Fin s /\ 0 < e /\
    match posType position with
    | LONG => s <= e
    | SHORT => e <= s
    end.

(** A history on which the mean-reversion rule enters at candle 50: flat at
    100, one candle at 101, then fourteen steps of 0.2 down to 98.2.  The
    candle after it spans 90 to 110, beyond the 3% stop and the 3% target of
    that entry on both sides. *)
Definition dipPrices : list Q :=
  repeat 100 36
  ++ [101; 100.8; 100.6; 100.4; 100.2; 100; 99.8; 99.6; 99.4; 99.2; 99;
      98.8; 98.6; 98.4; 98.2].

Definition plainCandle (q : Q) : ChartPoint :=
  mkChartPoint "2024-01-01T00:00:00.000Z" (Fin q) (Some (Fin 1)) None None.

Definition wideCandle : ChartPoint :=
  mkChartPoint "2024-01-03T03:00:00.000Z" (Fin 95) (Some (Fin 1))
               (Some (Fin 110)) (Some (Fin 90)).

Definition dipHistory : list ChartPoint :=
  map plainCandle dipPrices ++ [wideCandle] ++ map plainCandle [90; 90].

(** The position that the rule opens at candle 50 of [dipHistory]. *)
Definition dipPosition : Position :=
  mkPosition LONG (Fin 98.2) "2024-01-01T00:00:00.000Z"
             (Fin (98.2 * 0.97)) (Fin (98.2 * 1.03)).

(** The number of windows that the sliding loop of the walk-forward analysis
    visits from the start index [i] on, for a history of [len] candles, in
    closed form. *)
Definition windowCount (len trainSize testSize i : nat) : nat :=
  if (i + (trainSize + testSize) <? len)%nat
  then ((len - (trainSize + testSize) - 1 - i) / testSize + 1)%nat
  else 0%nat.

(** A finite number above zero, and one that is not below zero. *)
Definition isPositive (a : num) : Prop :=
  match a with Fin q => 0 < q | _ => False end.

Definition isNonNegative (a : num) : Prop :=
  match a with Fin q => 0 <= q | _ => False end.

(** A finite number between two bounds. *)
Definition within (lo hi : Q) (a : num) : Prop :=
  match a with Fin q => lo <= q <= hi | _ => False end.

(** The prices of the candles are finite numbers. *)
Definition finitePrices (history : list ChartPoint) : Prop :=
  Forall (fun p => isFin (price p)) history.

(** What the candle loop of [runBacktest] keeps true of the log, the curve
    and the open position. *)
Definition logInvariant (st : BtState) : Prop :=
  Forall (fun t => side t = LONG
                   /\ (reason t = "Stop Loss"%string
                       \/ reason t = "Take Profit"%string))
         (btTrades st)
  /\ length (btEquityCurve st) = S (length (btTrades st))
  /\ (forall position, btPosition st = Some position ->
                       posType position = LONG).

(** What it keeps true of the money, for a positive capital and finite
    prices: the equity is positive and at most its running maximum, the
    drawdown is a percentage up to 100, every point of the curve is
    positive, every logged result is finite, and so are the levels of the
    open position. *)
Definition equityInvariant (st : BtState) : Prop :=
  (exists e m d,
      btEquity st = Fin e /\ btMaxEquity st = Fin m
      /\ btMaxDrawdown st = Fin d
      /\ 0 < e /\ e <= m /\ 0 <= d /\ d <= 100)
  /\ Forall (fun pt => isPositive (curveEquity pt)) (btEquityCurve st)
  /\ Forall (fun t => isFin (pnl t)) (btTrades st)
  /\ (forall position,
         btPosition st = Some position ->
         isFin (entry position) /\ isFin (sl position)
         /\ isFin (tp position)).

(** Every entry of the list lies between the two bounds. *)
Definition allWithin (lo hi : Q) (qs : list Q) : Prop :=
  Forall (fun q => lo <= q <= hi) qs.

(** The candles carry a finite price between the bounds and a volume that
    is a finite number and not negative. *)
Definition tradedWithin (lo hi : Q) (points : list ChartPoint) : Prop :=
  Forall (fun p => exists q v,
              price p = Fin q /\ volume p = Some (Fin v)
              /\ lo <= q <= hi /\ 0 <= v)
         points.

(** The series never falls from one entry to the next. *)
Definition nondecreasing (qs : list Q) : Prop :=
  forall i a b,
    nth_error qs i = Some a -> nth_error qs (S i) = Some b -> a <= b.

(** The series never rises from one entry to the next. *)
Definition nonincreasing (qs : list Q) : Prop :=
  forall i a b,
    nth_error qs i = Some a -> nth_error qs (S i) = Some b -> b <= a.

(** Every change of the series satisfies [P]. *)
Definition changesAll (P : Q -> Prop) (qs : list Q) : Prop :=
  forall i, (i < length qs)%nat ->
            exists c, at_ (priceChanges (map Fin qs)) i = Fin c /\ P c.

(** None of the candles carries a volume: it is missing or 0. *)
Definition noVolume (candles : list ChartPoint) : Prop :=
  Forall (fun h => truthyOpt (volume h) = false) candles.

(** The array is in ascending order: no entry is greater than a later
    one. *)
Definition ascending (xs : list num) : Prop :=
  StronglySorted (fun a b => (a .<= b) = true) xs.

(** Sixty prices that fall by one unit per candle, from 200. *)
Definition slidePrices : list Q :=
  map (fun i => 200 - inject_Z (Z.of_nat i)) (seq 0 60).

Definition slideHistory : list ChartPoint := map plainCandle slidePrices.

(** Ten prices with the swing highs 90, 100, 78 and the swing lows 75, 65,
    72, in this order. *)
Definition zigzagPrices : list Q := [70; 90; 75; 100; 85; 80; 65; 78; 72; 82].

(** A candle without volume. *)
Definition quietCandle : ChartPoint :=
  mkChartPoint "2024-01-01T00:00:00.000Z" (Fin 100) None None None.

(** A breakout signal with a long/short ratio of 0.5. *)
Definition squeezedSignal : HybridScannerService.ScannerSignal :=
  HybridScannerService.mkScannerSignal
    HybridScannerService.SIG_BREAKOUT (Fin 70)
    (Some (HybridScannerService.mkFuturesData (Fin 1) (Fin 0.5) (Fin 0))).

(** Small series for the instances of the indicator properties. *)
Definition rampPrices : list Q := [1; 2; 3; 4].
Definition barHighs : list Q := [3; 4; 5].
Definition barLows : list Q := [1; 2; 3].
Definition barCloses : list Q := [2; 3; 4].
Definition stepPrices : list Q := [1; 2; 2; 3].
Definition wavePrices : list Q := [1; 2; 3; 2; 5; 4; 6; 5; 7; 6].
Definition zigzagHighs : list Q := [90; 100; 78].
Definition zigzagLows : list Q := [75; 65; 72].
Definition profilePrices : list Q := [100; 101; 124].
Definition pairVolumes : list Q := [6; 4].
Definition pairBins : list Q := [0 + 6; 0 + 4].
Definition pairCandles : list ChartPoint := [plainCandle 10; plainCandle 20].

(** * Properties *)

(** ** Numbers *)

Lemma Qltb_lt (x y : Q) : Qltb x y = true <-> x < y.
Proof.
  unfold Qltb. rewrite negb_true_iff. split; intro H.
  - apply Qnot_le_lt. intro L. apply Qle_bool_iff in L. congruence.
  - destruct (Qle_bool y x) eqn:E; [|reflexivity].
    apply Qle_bool_iff in E. exfalso. apply (Qlt_not_le _ _ H E).
Qed.

Lemma Qltb_ge (x y : Q) : Qltb x y = false <-> y <= x.
Proof.
  unfold Qltb. rewrite negb_false_iff. apply Qle_bool_iff.
Qed.

Lemma Qeqb_neq (x y : Q) : Qeq_bool x y = false <-> ~ x == y.
Proof.
  split; intro H.
  - intro E. apply Qeq_bool_iff in E. congruence.
  - destruct (Qeq_bool x y) eqn:E; [|reflexivity].
    apply Qeq_bool_iff in E. contradiction.
Qed.

Lemma same_refl (a : num) : same a a.
Proof. destruct a; simpl; auto. reflexivity. Qed.

(** A finite score stays finite under the additive adjustments. *)
Lemma isFin_add (s : num) (c : Q) : isFin s -> isFin (s .+ Fin c).
Proof. destruct s; simpl; auto. Qed.

Lemma isFin_sub (s : num) (c : Q) : isFin s -> isFin (s .- Fin c).
Proof. destruct s; simpl; auto. Qed.

Create HintDb fin.
#[local] Hint Resolve isFin_add isFin_sub : fin.

(** [Math.max(lo, Math.min(hi, s))] of a finite [s] lies between the two. *)
Lemma clamp_max_min (lo hi : Q) (s : num) :
  lo <= hi -> isFin s ->
  exists q, Js.max (Fin lo) (Js.min (Fin hi) s) = Fin q /\ lo <= q <= hi.
Proof.
  intros Hlh Hs. destruct s as [x| | |]; try contradiction.
  unfold Js.min, Js.max; simpl.
  destruct (Qltb x hi) eqn:E1; simpl.
  - destruct (Qltb lo x) eqn:E2.
    + exists x. apply Qltb_lt in E1, E2. split; [reflexivity|]. split; lra.
    + exists lo. apply Qltb_ge in E2. split; [reflexivity|]. split; lra.
  - destruct (Qltb lo hi) eqn:E2.
    + exists hi. split; [reflexivity|]. split; lra.
    + exists lo. apply Qltb_ge in E2. split; [reflexivity|]. split; lra.
Qed.

(** [Math.min(hi, Math.max(lo, s))], the other nesting. *)
Lemma clamp_min_max (lo hi : Q) (s : num) :
  lo <= hi -> isFin s ->
  exists q, Js.min (Fin hi) (Js.max (Fin lo) s) = Fin q /\ lo <= q <= hi.
Proof.
  intros Hlh Hs. destruct s as [x| | |]; try contradiction.
  unfold Js.min, Js.max; simpl.
  destruct (Qltb lo x) eqn:E1; simpl.
  - destruct (Qltb x hi) eqn:E2.
    + exists x. apply Qltb_lt in E1, E2. split; [reflexivity|]. split; lra.
    + exists hi. apply Qltb_ge in E2. split; [reflexivity|]. split; lra.
  - destruct (Qltb lo hi) eqn:E2.
    + exists lo. split; [reflexivity|]. split; lra.
    + exists hi. apply Qltb_ge in E2. split; [reflexivity|]. split; lra.
Qed.

(** ** Whale classifier *)

(** C7: with fewer than 24 history points [detectWhaleMovements] answers
    NEUTRAL, anomaly factor 0 and turnover 0 with the insufficient-data
    alert, whatever the price, the 24h change, the volume and the market
    capitalisation are. *)
Theorem detectWhaleMovements_insufficient
        (currentPrice priceChange24h volume24h marketCap : num)
        (history : list ChartPoint) :
  (length history < 24)%nat ->
  detectWhaleMovements currentPrice priceChange24h volume24h marketCap history
  = mkWhaleMetrics NF_NEUTRAL (Fin 0) (Fin 0) alertInsufficient.
Proof.
  intro H. unfold detectWhaleMovements.
  apply Nat.ltb_lt in H. rewrite H. reflexivity.
Qed.

Lemma detectWhaleMovements_insufficient_witness :
  detectWhaleMovements (Fin 42000) (Fin 12) (Fin 1000000) NaN
    (repeat (mkChartPoint "t" (Fin 42000) (Some (Fin 9)) None None) 23)
  = mkWhaleMetrics NF_NEUTRAL (Fin 0) (Fin 0) alertInsufficient.
Proof.
  apply (detectWhaleMovements_insufficient
           (Fin 42000) (Fin 12) (Fin 1000000) NaN
           (repeat (mkChartPoint "t" (Fin 42000) (Some (Fin 9)) None None)
                   23)).
  simpl. lia.
Defined.

(** ** Technical score *)

Section TechnicalScore.

Variable trend : Trend.

Lemma fin_momentum (s lastPrice : num) (lastEma : option num) :
  isFin s ->
  isFin (if truthyOpt lastEma && negb (isNaN (toNum lastEma))
         then if lastPrice .> toNum lastEma then s .+ Fin 12 else s .- Fin 12
         else s).
Proof.
  intro. destruct (truthyOpt lastEma && _); auto.
  destruct (lastPrice .> _); auto with fin.
Qed.

Lemma fin_trend (s : num) (a b : Q) :
  isFin s ->
  isFin (match trend with
         | UPTREND => s .+ Fin a
         | DOWNTREND => s .- Fin b
         | RANGING => s
         end).
Proof. intro. destruct trend; auto with fin. Qed.

Lemma fin_rsi (s : num) (rsi : option num) :
  isFin s ->
  isFin (match rsi with
         | Some rsi =>
             if rsi .< Fin 30 then s .+ Fin 10
             else if rsi .> Fin 70 then s .- Fin 10
             else if (rsi .> Fin 50) && Trend_eqb trend UPTREND
                  then s .+ Fin 5
             else s
         | None => s
         end).
Proof.
  intro. destruct rsi as [r|]; auto.
  destruct (r .< _); auto with fin.
  destruct (r .> Fin 70); auto with fin.
  destruct ((r .> Fin 50) && _); auto with fin.
Qed.

Lemma fin_adx (s : num) (adx : option num) :
  isFin s ->
  isFin (match adx with
         | Some adx =>
             if adx .> Fin 25 then
               match trend with
               | UPTREND => s .+ Fin 10
               | DOWNTREND => s .- Fin 10
               | RANGING => s
               end
             else s
         | None => s
         end).
Proof.
  intro. destruct adx as [a|]; auto.
  destruct (a .> _); auto using fin_trend.
Qed.

Lemma fin_stoch (s : num) (stochRsi : option StochRSI) :
  isFin s ->
  isFin (match stochRsi with
         | Some stochRsi =>
             let k := match rawK stochRsi with
                      | Some rawK => rawK
                      | None => k stochRsi
                      end in
             if k .< Fin 20 then s .+ Fin 10
             else if k .> Fin 80 then s .- Fin 10
             else s
         | None => s
         end).
Proof.
  intro. destruct stochRsi as [st|]; auto. cbv zeta.
  destruct (_ .< Fin 20); auto with fin.
  destruct (_ .> Fin 80); auto with fin.
Qed.

Lemma fin_divergence (s : num) (ty : DivergenceType) :
  isFin s ->
  isFin (match ty with
         | BULLISH => s .+ Fin 15
         | BEARISH => s .- Fin 15
         | NONE => s
         end).
Proof. intro. destruct ty; auto with fin. Qed.

End TechnicalScore.

(** C4: whatever the prices, RSI, ADX, StochRSI, trend and divergence are
    (the special values of a number included), [calculateTechnicalScore]
    returns a number between 0 and 100; and it is the baseline 50 itself when
    no factor applies: fewer than nine prices, no RSI, ADX or StochRSI, a
    ranging trend and no divergence. *)
Theorem calculateTechnicalScore_range :
  (forall prices rsi adx stochRsi trend divergence,
      exists q,
        calculateTechnicalScore prices rsi adx stochRsi trend divergence
        = Fin q /\ 0 <= q <= 100)
  /\ (forall prices strength,
         calculateTechnicalScore (firstn 8 prices) None None None RANGING
                                 (mkDivergence NONE strength)
         = Fin 50).
Proof.
  split.
  - intros. unfold calculateTechnicalScore. cbv zeta.
    apply clamp_max_min; [lra|].
    apply fin_divergence, fin_stoch, fin_adx, fin_rsi, fin_trend,
          fin_momentum.
    exact I.
  - intros. unfold calculateTechnicalScore, calculateEMA. cbv zeta.
    assert (L : (length (firstn 8 prices) <? 9)%nat = true).
    { apply Nat.ltb_lt. rewrite length_firstn. lia. }
    rewrite L. unfold fill.
    assert (E : truthyOpt (fromEnd (repeat NaN (length (firstn 8 prices))) 0)
                = false).
    { unfold fromEnd. rewrite repeat_length.
      destruct (0 <? length (firstn 8 prices))%nat; [|reflexivity].
      destruct (nth_error _ _) as [x|] eqn:N; [|reflexivity].
      apply nth_error_In, repeat_spec in N. subst x. reflexivity. }
    rewrite E. reflexivity.
Qed.

(** The extreme case named by the specification: RSI 0, ADX 100 and a
    bearish divergence at once, on falling prices. *)
Example calculateTechnicalScore_extreme :
  calculateTechnicalScore (map Fin [9; 8; 7; 6; 5; 4; 3; 2; 1])
                          (Some (Fin 0)) (Some (Fin 100))
                          (Some (mkStochRSI (Fin 100) (Fin 100) None))
                          DOWNTREND (mkDivergence BEARISH STRONG)
  = Fin 3.
Proof. vm_compute. reflexivity. Qed.

(** Every factor at its most bearish: the sum is -17 and the result 0. *)
Example calculateTechnicalScore_floor :
  calculateTechnicalScore (map Fin [9; 8; 7; 6; 5; 4; 3; 2; 1])
                          (Some (Fin 71)) (Some (Fin 100))
                          (Some (mkStochRSI (Fin 100) (Fin 100) None))
                          DOWNTREND (mkDivergence BEARISH STRONG)
  = Fin 0.
Proof. vm_compute. reflexivity. Qed.

(** Every factor at its most bullish: the sum is 117 and the result 100. *)
Example calculateTechnicalScore_ceiling :
  calculateTechnicalScore (map Fin [1; 2; 3; 4; 5; 6; 7; 8; 9])
                          (Some (Fin 29)) (Some (Fin 100))
                          (Some (mkStochRSI (Fin 0) (Fin 0) None))
                          UPTREND (mkDivergence BULLISH STRONG)
  = Fin 100.
Proof. vm_compute. reflexivity. Qed.

(** ** Backtest engine *)

Section BacktestProperties.

Variable score :
  list num -> option num -> option num -> option StochRSI -> Trend ->
  DivergenceResult -> option ScoreWeights -> num.

(** The trade log of a history of fewer than fifty candles is empty; so is
    that of exactly fifty, where the candle loop has nothing to visit. *)
Lemma runBacktest_short strategy history initialCapital weights :
  (length history < 50)%nat ->
  runBacktest score strategy history initialCapital weights
  = mkBacktestResult 0 0 0 (Fin 0) (Fin 0) (Fin 0) [] [].
Proof.
  intro H. unfold runBacktest. apply Nat.ltb_lt in H. rewrite H. reflexivity.
Qed.

Lemma runBacktest_fifty strategy history initialCapital weights :
  length history = 50%nat ->
  exists h0,
    nth_error history 0 = Some h0 /\
    runBacktest score strategy history initialCapital weights
    = mkBacktestResult 0 0 0 (Fin 0) (Fin 0) (Fin 0)
                       [mkEquityPoint (time h0) initialCapital] [].
Proof.
  intro H. destruct history as [|h0 rest]; [discriminate|].
  exists h0. split; [reflexivity|].
  unfold runBacktest. rewrite H. reflexivity.
Qed.

(** C10: the profit factor of every backtest result is the gross profit of
    its trade log when the gross loss is 0, and the quotient of the two
    otherwise, so the division is never by zero. *)
Theorem runBacktest_profitFactor strategy history initialCapital weights :
  let r := runBacktest score strategy history initialCapital weights in
  let grossProfit := grossProfitOf (trades r) in
  let grossLoss := grossLossOf (trades r) in
  ((grossLoss .== Fin 0) = true -> profitFactor r = grossProfit)
  /\ ((grossLoss .== Fin 0) = false ->
      profitFactor r = grossProfit ./ grossLoss
      /\ forall p l, grossProfit = Fin p -> grossLoss = Fin l ->
                     ~ l == 0 /\ profitFactor r = Fin (p / l)).
Proof.
  cbv zeta. unfold runBacktest.
  destruct (length history <? 50)%nat.
  - split; intro H; [reflexivity|discriminate].
  - cbv zeta. simpl trades. simpl profitFactor.
    set (gp := grossProfitOf _). set (gl := grossLossOf _).
    split; intro H; rewrite H; [reflexivity|].
    split; [reflexivity|]. intros p l Hp Hl. rewrite Hl in H. rewrite Hp, Hl.
    simpl in H. split; [now apply Qeqb_neq|].
    simpl. rewrite H. reflexivity.
Qed.

(** *** Stops and targets *)

(** Both sides: when the candle reaches the stop and the target, the check
    answers with the stop. *)
Lemma checkStops_stop_first (position : Position) (H L : num) :
  touchesBoth position H L = true ->
  checkStops position H L = mkStopCheck true (stopPnl position) "Stop Loss".
Proof.
  unfold touchesBoth, checkStops, stopPnl.
  destruct (posType position); intro T;
    apply andb_true_iff in T; destruct T as [T _]; rewrite T; reflexivity.
Qed.

(** Closing at the stop when it is on the losing side. *)
Lemma closePosition_stop (st : BtState) (position : Position)
      (candle : ChartPoint) :
  stopIsLoss position ->
  let st' := closePosition_ st position candle
                            (mkStopCheck true (stopPnl position) "Stop Loss")
  in
  btPosition st' = None
  /\ btEquity st' = btEquity st .- btEquity st .* Fin 0.02
  /\ exists t,
      btTrades st' = btTrades st ++ [t]
      /\ reason t = "Stop Loss"%string
      /\ exitPrice t = sl position
      /\ entryPrice t = entry position
      /\ side t = posType position
      /\ pnlPercent t = stopPnl position
      /\ exitTime t = time candle.
Proof.
  intro Hloss. unfold stopIsLoss in Hloss.
  unfold closePosition_. cbv zeta. simpl checkPnl. simpl checkReason.
  rewrite Hloss. simpl.
  split; [reflexivity|]. split; [reflexivity|].
  eexists. split; [reflexivity|]. simpl. repeat split.
Qed.

(** One iteration of the candle loop with an open position whose stop and
    target are both inside the candle. *)
Lemma backtestStep_stop strategy weights history prices st i candle position :
  nth_error history i = Some candle ->
  btPosition st = Some position ->
  stopIsLoss position ->
  touchesBoth position (intrabarHigh candle (at_ prices i))
              (intrabarLow candle (at_ prices i)) = true ->
  let st' := backtestStep score strategy weights history prices st i in
  btPosition st' = None
  /\ btEquity st' = btEquity st .- btEquity st .* Fin 0.02
  /\ exists t,
      btTrades st' = btTrades st ++ [t]
      /\ reason t = "Stop Loss"%string
      /\ exitPrice t = sl position
      /\ entryPrice t = entry position
      /\ side t = posType position
      /\ pnlPercent t = stopPnl position
      /\ exitTime t = time candle.
Proof.
  intros Hc Hp Hloss Ht. unfold backtestStep. rewrite Hc, Hp. cbv zeta.
  rewrite (checkStops_stop_first _ _ _ Ht). simpl closed. cbv iota.
  apply closePosition_stop. exact Hloss.
Qed.

(** The stop of a long position a fixed fraction [c < 1] below its entry is
    on the losing side, whatever the entry price is. *)
Lemma long_stop_below (p : num) (c : Q) :
  0 < c -> c < 1 ->
  ((p .* Fin c .- p) ./ p .* Fin 100 .> Fin 0) = false.
Proof.
  intros H0 H1. destruct p as [x| | |]; simpl.
  - destruct (Qeq_bool x 0) eqn:E.
    + apply Qeq_bool_iff in E. unfold signed_inf.
      assert (Z : Qeq_bool (x * c + - x) 0 = true).
      { apply Qeq_bool_iff. rewrite E. ring. }
      rewrite Z. reflexivity.
    + apply Qeqb_neq in E. simpl. unfold Js.gt. simpl. apply Qltb_ge.
      assert (R : (x * c + - x) / x == c - 1) by (field; exact E).
      rewrite R. lra.
  - reflexivity.
  - unfold signed_inf.
    assert (Z : Qeq_bool c 0 = false) by (apply Qeqb_neq; lra).
    assert (P : Qltb 0 c = true) by (apply Qltb_lt; exact H0).
    rewrite Z, P. reflexivity.
  - unfold signed_inf.
    assert (Z : Qeq_bool (- c) 0 = false) by (apply Qeqb_neq; lra).
    assert (P : Qltb 0 (- c) = false) by (apply Qltb_ge; lra).
    rewrite Z, P. reflexivity.
Qed.

(** Every position the entry rules open is long, with its stop on the losing
    side. *)
Lemma entrySignal_long strategy weights prices i candle position :
  entrySignal score strategy weights prices i candle = Some position ->
  posType position = LONG /\ stopIsLoss position.
Proof.
  unfold entrySignal. cbv zeta.
  destruct strategy.
  - destruct (_ && _); [|discriminate].
    intro E. injection E as <-. split; [reflexivity|].
    unfold stopIsLoss, stopPnl. simpl. apply long_stop_below; lra.
  - destruct (Trend_eqb _ _); [|discriminate].
    destruct (_ && _); [|discriminate].
    intro E. injection E as <-. split; [reflexivity|].
    unfold stopIsLoss, stopPnl. simpl. apply long_stop_below; lra.
  - destruct (_ .> _); [|discriminate].
    intro E. injection E as <-. split; [reflexivity|].
    unfold stopIsLoss, stopPnl. simpl. apply long_stop_below; lra.
Qed.

(** A stop at or beyond a positive entry price, on the losing side of the
    trade: below for a long, above for a short. *)
Lemma stopIsLoss_wellFormed (position : Position) (e s : Q) :
  entry position = Fin e -> sl position = Fin s -> 0 < e ->
  match posType position with LONG => s <= e | SHORT => e <= s end ->
  stopIsLoss position.
Proof.
  intros He Hs Hpos Hside. unfold stopIsLoss, stopPnl.
  assert (Z : Qeq_bool e 0 = false) by (apply Qeqb_neq; lra).
  destruct (posType position); rewrite He, Hs; simpl; rewrite Z; simpl;
    unfold Js.gt; simpl; apply Qltb_ge.
  - assert (R : (s + - e) / e * 100 == (s - e) * 100 / e) by (field; lra).
    rewrite R. apply Qle_shift_div_r; [exact Hpos|]. lra.
  - assert (R : (e + - s) / e * 100 == (e - s) * 100 / e) by (field; lra).
    rewrite R. apply Qle_shift_div_r; [exact Hpos|]. lra.
Qed.

Lemma at_map_price (history : list ChartPoint) (i : nat)
      (candle : ChartPoint) :
  nth_error history i = Some candle -> at_ (map price history) i = price candle.
Proof.
  intro H. unfold at_. rewrite nth_error_map, H. reflexivity.
Qed.

Lemma backtestStateAt_S strategy weights history initialCapital n :
  backtestStateAt score strategy weights history initialCapital (S n)
  = backtestStep score strategy weights history (map price history)
                 (backtestStateAt score strategy weights history
                                  initialCapital n)
                 (50 + n).
Proof.
  unfold backtestStateAt. cbv zeta. rewrite seq_S, fold_left_app.
  reflexivity.
Qed.

(** An iteration leaves the position as it is, closes it, or opens one by
    the entry rules. *)
Lemma backtestStep_position strategy weights history prices st i position :
  btPosition (backtestStep score strategy weights history prices st i)
  = Some position ->
  btPosition st = Some position \/ openedByEntry score position.
Proof.
  unfold backtestStep.
  destruct (nth_error history i) as [candle|]; [|auto].
  destruct (btPosition st) as [open|] eqn:P.
  - cbv zeta. destruct (closed _); [discriminate|].
    rewrite P. auto.
  - simpl. intro E. right. unfold openedByEntry. eauto 6.
Qed.

(** Throughout the candle loop the open position, if there is one, was
    opened by the entry rules. *)
Lemma backtestStateAt_position strategy weights history initialCapital n
      position :
  btPosition (backtestStateAt score strategy weights history initialCapital n)
  = Some position ->
  openedByEntry score position.
Proof.
  induction n as [|n IH].
  - discriminate.
  - rewrite backtestStateAt_S. intro E.
    apply backtestStep_position in E. destruct E as [E|E]; auto.
Qed.

(** C5: in the candle loop of [runBacktest] the stop is checked before the
    target.  Whenever the intrabar low of a candle reaches the stop of the
    open long position and its high reaches the target (for a short: the
    high the stop, the low the target), the check answers "Stop Loss".  An
    iteration on such a candle closes the trade at the stop price as a loss
    of the 2% risked, never at the target: for every position the entry
    rules open, for every long or short position whose stop is on the losing
    side of a positive entry, and so at every candle of a run of
    [runBacktest] itself. *)
Theorem stop_loss_before_take_profit :
  (forall position H L,
      touchesBoth position H L = true ->
      checkStops position H L
      = mkStopCheck true (stopPnl position) "Stop Loss")
  /\
  (forall strategy weights history prices st i candle position,
      nth_error history i = Some candle ->
      btPosition st = Some position ->
      openedByEntry score position \/ stopOnLosingSide position ->
      touchesBoth position (intrabarHigh candle (at_ prices i))
                  (intrabarLow candle (at_ prices i)) = true ->
      let st' := backtestStep score strategy weights history prices st i in
      btPosition st' = None
      /\ btEquity st' = btEquity st .- btEquity st .* Fin 0.02
      /\ exists t,
          btTrades st' = btTrades st ++ [t]
          /\ reason t = "Stop Loss"%string
          /\ exitPrice t = sl position
          /\ entryPrice t = entry position
          /\ side t = posType position
          /\ pnlPercent t = stopPnl position
          /\ exitTime t = time candle)
  /\
  (forall strategy weights history initialCapital n candle position,
      nth_error history (50 + n) = Some candle ->
      let st := backtestStateAt score strategy weights history
                                initialCapital n in
      let st' := backtestStateAt score strategy weights history
                                 initialCapital (S n) in
      btPosition st = Some position ->
      touchesBoth position (intrabarHigh candle (price candle))
                  (intrabarLow candle (price candle)) = true ->
      posType position = LONG
      /\ btPosition st' = None
      /\ btEquity st' = btEquity st .- btEquity st .* Fin 0.02
      /\ exists t,
          btTrades st' = btTrades st ++ [t]
          /\ reason t = "Stop Loss"%string
          /\ exitPrice t = sl position
          /\ entryPrice t = entry position
          /\ side t = LONG
          /\ pnlPercent t = stopPnl position
          /\ exitTime t = time candle).
Proof.
  split; [|split].
  - exact checkStops_stop_first.
  - intros strategy weights history prices st i candle position Hc Hp Ho Ht.
    apply backtestStep_stop; try assumption.
    destruct Ho as [(s' & w' & p' & j & c' & E)|(e & s & He & Hs & H0 & Hside)].
    + exact (proj2 (entrySignal_long _ _ _ _ _ _ E)).
    + exact (stopIsLoss_wellFormed _ e s He Hs H0 Hside).
  - intros strategy weights history initialCapital n candle position Hc
           st st' Hp Ht.
    pose proof (backtestStateAt_position _ _ _ _ _ _ Hp)
      as (s' & w' & p' & j & c' & E).
    destruct (entrySignal_long _ _ _ _ _ _ E) as (Hlong & Hloss).
    split; [exact Hlong|].
    subst st'. rewrite backtestStateAt_S. fold st.
    rewrite <- (at_map_price history (50 + n) candle Hc) in Ht.
    destruct (backtestStep_stop strategy weights history (map price history)
                                st (50 + n)%nat candle position Hc Hp Hloss Ht)
      as (A & B & t & C & D & F & G & K & M & N).
    split; [exact A|]. split; [exact B|].
    exists t. rewrite <- Hlong. repeat (split; [assumption|]). exact N.
Qed.

(** *** Walk-forward windows *)

Lemma slice_length {A} (xs : list A) (a b : nat) :
  length (slice xs a b) = Nat.min (b - a) (length xs - a).
Proof. unfold slice. rewrite length_firstn, length_skipn. reflexivity. Qed.

(** The loop goes on while a whole train and test window lie strictly inside
    the history. *)
Lemma walkForwardLoop_continue fuel strategy history trainSize testSize
      i results :
  (i + (trainSize + testSize) < length history)%nat ->
  walkForwardLoop score (S fuel) strategy history trainSize testSize i results
  = let trainResult :=
      runBacktest score strategy (slice history i (i + trainSize))
                  (Fin 1000) None in
    let testResult :=
      runBacktest
        score strategy
        (slice history (i + trainSize) (i + trainSize + testSize))
        (orElse (option_map curveEquity (fromEnd (equityCurve trainResult) 0))
                (Fin 1000))
        None in
    walkForwardLoop score fuel strategy history trainSize testSize
                    (i + testSize)
                    (results ++ [mkPeriodResult i trainResult testResult]).
Proof.
  intro H. simpl.
  assert (C : (Z.of_nat i <? Z.of_nat (length history)
                             - Z.of_nat (trainSize + testSize))%Z = true)
    by (apply Z.ltb_lt; lia).
  rewrite C.
  assert (L : (length (slice history (i + trainSize)
                             (i + trainSize + testSize)) <? testSize)%nat
              = false).
  { apply Nat.ltb_ge. rewrite slice_length. lia. }
  rewrite L. reflexivity.
Qed.

(** It stops as soon as the last candle of the test window would be the last
    candle of the history, or beyond. *)
Lemma walkForwardLoop_exit fuel strategy history trainSize testSize
      i results :
  (length history <= i + (trainSize + testSize))%nat ->
  walkForwardLoop score fuel strategy history trainSize testSize i results
  = Some results.
Proof.
  intro H.
  assert (C : (Z.of_nat i <? Z.of_nat (length history)
                             - Z.of_nat (trainSize + testSize))%Z = false)
    by (apply Z.ltb_ge; lia).
  destruct fuel; simpl; rewrite C; reflexivity.
Qed.

(** With a positive step the loop ends, and what holds of every window it
    appends holds of all its results. *)
Lemma walkForwardLoop_total (P : PeriodResult -> Prop)
      strategy history trainSize testSize :
  (0 < testSize)%nat ->
  (forall i cap,
      P (mkPeriodResult
           i
           (runBacktest score strategy (slice history i (i + trainSize))
                        (Fin 1000) None)
           (runBacktest score strategy
                        (slice history (i + trainSize)
                               (i + trainSize + testSize))
                        cap None))
      \/ length (slice history (i + trainSize) (i + trainSize + testSize))
         <> testSize) ->
  forall fuel i results,
    (length history - i < fuel)%nat ->
    Forall P results ->
    exists rs,
      walkForwardLoop score fuel strategy history trainSize testSize i results
      = Some rs
      /\ Forall P rs.
Proof.
  intros Hpos HP. induction fuel as [|fuel IH]; intros i results Hf Hres.
  - lia.
  - destruct (Nat.lt_ge_cases (i + (trainSize + testSize)) (length history))
      as [Hin|Hout].
    + rewrite walkForwardLoop_continue by exact Hin. cbv zeta.
      apply IH; [lia|].
      apply Forall_app. split; [exact Hres|].
      constructor; [|constructor].
      destruct (HP i (orElse
                        (option_map
                           curveEquity
                           (fromEnd
                              (equityCurve
                                 (runBacktest score strategy
                                              (slice history i (i + trainSize))
                                              (Fin 1000) None)) 0))
                        (Fin 1000))) as [Hok|Hlen]; [exact Hok|].
      exfalso. apply Hlen. rewrite slice_length. lia.
    + rewrite walkForwardLoop_exit by exact Hout.
      exists results. split; [reflexivity|exact Hres].
Qed.

(** The windows of the loop in closed form: from [i] on it visits [i],
    [i + testSize], [i + 2 * testSize] and so on, [windowCount] of them. *)
Lemma walkForwardLoop_windows strategy history trainSize testSize :
  (0 < testSize)%nat ->
  forall fuel i results,
    (length history - i < fuel)%nat ->
    exists rs,
      walkForwardLoop score fuel strategy history trainSize testSize i results
      = Some rs
      /\ map windowIndex rs
         = map windowIndex results
           ++ map (fun k => i + k * testSize)%nat
                  (seq 0 (windowCount (length history) trainSize testSize i)).
Proof.
  intro Hpos. induction fuel as [|fuel IH]; intros i results Hf; [lia|].
  unfold windowCount.
  destruct (Nat.lt_ge_cases (i + (trainSize + testSize)) (length history))
    as [Hin|Hout].
  - rewrite walkForwardLoop_continue by exact Hin. cbv zeta.
    destruct (IH (i + testSize)%nat
                 (results
                    ++ [mkPeriodResult
                          i
                          (runBacktest score strategy
                                       (slice history i (i + trainSize))
                                       (Fin 1000) None)
                          (runBacktest
                             score strategy
                             (slice history (i + trainSize)
                                    (i + trainSize + testSize))
                             (orElse
                                (option_map
                                   curveEquity
                                   (fromEnd
                                      (equityCurve
                                         (runBacktest
                                            score strategy
                                            (slice history i (i + trainSize))
                                            (Fin 1000) None)) 0))
                                (Fin 1000))
                             None)]))
      as (rs & E & M); [lia|].
    exists rs. split; [exact E|]. rewrite M.
    rewrite map_app, <- app_assoc. f_equal. simpl map at 1.
    apply Nat.ltb_lt in Hin. rewrite Hin. apply Nat.ltb_lt in Hin.
    assert (C : ((length history - (trainSize + testSize) - 1 - i)
                   / testSize + 1
                 = S (windowCount (length history) trainSize testSize
                                  (i + testSize)))%nat).
    { unfold windowCount.
      destruct (Nat.lt_ge_cases (i + testSize + (trainSize + testSize))
                                (length history)) as [Hn|Hn].
      - apply Nat.ltb_lt in Hn. rewrite Hn. apply Nat.ltb_lt in Hn.
        replace (length history - (trainSize + testSize) - 1 - i)%nat
          with (length history - (trainSize + testSize) - 1
                - (i + testSize) + 1 * testSize)%nat by lia.
        rewrite Nat.div_add by lia. lia.
      - apply Nat.ltb_ge in Hn. rewrite Hn. apply Nat.ltb_ge in Hn.
        rewrite Nat.div_small by lia. reflexivity. }
    rewrite C. simpl. f_equal; [lia|].
    rewrite <- seq_shift, map_map. apply map_ext. intro k. lia.
  - rewrite walkForwardLoop_exit by exact Hout.
    apply Nat.ltb_ge in Hout. rewrite Hout.
    exists results. split; [reflexivity|]. simpl. rewrite app_nil_r.
    reflexivity.
Qed.

(** The number of windows of an analysis: none unless the history is longer
    than a train and a test window together, and then
    [(length - (trainSize + testSize) - 1) / testSize + 1]. *)
Lemma runWalkForwardAnalysis_count strategy history trainSize testSize :
  (0 < testSize)%nat ->
  exists r,
    runWalkForwardAnalysis score strategy history trainSize testSize = Some r
    /\ length (periodResults r)
       = windowCount (length history) trainSize testSize 0.
Proof.
  intro Hpos. unfold runWalkForwardAnalysis.
  destruct (walkForwardLoop_windows strategy history trainSize testSize Hpos
                                    (S (length history)) 0%nat [])
    as (rs & E & M); [lia|].
  rewrite E. eexists. split; [reflexivity|]. simpl.
  rewrite <- (length_map windowIndex), M. simpl.
  rewrite length_map, length_seq. reflexivity.
Qed.

(** C1 (what the code does): on a history of 500 candles with a train window
    of 200 and a test window of 50 the loop runs for the start indices 0, 50,
    100, 150 and 200, and [periodResults] has five windows; the window that
    starts at 250 and ends with the last candle is not visited. *)
Theorem runWalkForwardAnalysis_500 strategy (history : list ChartPoint) :
  length history = 500%nat ->
  exists r,
    runWalkForwardAnalysis score strategy history 200 50 = Some r
    /\ map windowIndex (periodResults r) = [0; 50; 100; 150; 200]%nat
    /\ length (periodResults r) = 5%nat.
Proof.
  intro H. unfold runWalkForwardAnalysis. rewrite H.
  do 5 (rewrite walkForwardLoop_continue by (rewrite H; simpl; lia);
        cbv zeta).
  rewrite walkForwardLoop_exit by (rewrite H; simpl; lia).
  eexists. split; [reflexivity|]. split; reflexivity.
Qed.

(** With exactly one train and one test window of candles, which the caller
    describes as enough for one loop, the loop does not run at all. *)
Lemma runWalkForwardAnalysis_250 strategy (history : list ChartPoint) :
  length history = 250%nat ->
  runWalkForwardAnalysis score strategy history 200 50
  = Some (mkWalkForwardResult [] (Fin 0) (Fin 0)).
Proof.
  intro H. unfold runWalkForwardAnalysis.
  rewrite walkForwardLoop_exit by (rewrite H; simpl; lia).
  reflexivity.
Qed.

(** The win rate of a backtest is a percentage that is not negative. *)
Lemma runBacktest_winRate strategy history initialCapital weights :
  exists q,
    winRate (runBacktest score strategy history initialCapital weights)
    = Fin q /\ 0 <= q.
Proof.
  unfold runBacktest. destruct (length history <? 50)%nat.
  - exists 0. split; [reflexivity|lra].
  - cbv zeta. simpl winRate.
    set (trades := btTrades _).
    set (w := countIf _ trades).
    destruct (0 <? length trades)%nat eqn:E.
    + apply Nat.ltb_lt in E. unfold ofNat. simpl.
      assert (Z : Qeq_bool (inject_Z (Z.of_nat (length trades))) 0 = false).
      { apply Qeqb_neq. unfold Qeq. simpl. lia. }
      rewrite Z. simpl. eexists. split; [reflexivity|].
      apply Qmult_le_0_compat; [|lra].
      apply Qle_shift_div_l.
      * unfold Qlt. simpl. lia.
      * unfold Qle. simpl. lia.
    + exists 0. split; [reflexivity|lra].
Qed.

Lemma max_zero_same (a b : Q) :
  a == b -> same (Js.max (Fin 0) (Fin a)) (Js.max (Fin 0) (Fin b)).
Proof.
  intro E. unfold Js.max. simpl.
  destruct (Qltb 0 a) eqn:A, (Qltb 0 b) eqn:B; simpl;
    try apply Qltb_lt in A; try apply Qltb_lt in B;
    try apply Qltb_ge in A; try apply Qltb_ge in B; lra.
Qed.

(** Against a test win rate of 0 the stability of a window is
    [max(0, 100 - trainWinRate)]. *)
Lemma periodStability_zero_test (r : PeriodResult) (q : Q) :
  winRate (train r) = Fin q -> 0 <= q -> winRate (test r) = Fin 0 ->
  same (periodStability r) (Js.max (Fin 0) (Fin 100 .- winRate (train r))).
Proof.
  intros Htr Hq Hte. unfold periodStability. cbv zeta. rewrite Htr, Hte.
  simpl. apply max_zero_same.
  assert (A : Qabs (q + - 0) == q).
  { rewrite Qabs_pos; lra. }
  rewrite A. reflexivity.
Qed.

Lemma totalWinRate_zero (results : list PeriodResult) (s : Q) :
  Forall (fun r => winRate (test r) = Fin 0) results ->
  exists q,
    fold_left (fun s r => s .+ winRate (test r)) results (Fin s) = Fin q
    /\ q == s.
Proof.
  revert s. induction results as [|r rest IH]; intros s H.
  - exists s. split; reflexivity.
  - inversion H as [|? ? Hr Hrest]; subst. simpl. rewrite Hr. simpl.
    destruct (IH (s + 0) Hrest) as (q & E & Q0).
    exists q. split; [exact E|]. rewrite Q0. ring.
Qed.

(** C2: with the default test size of 50 every test window has exactly 50
    candles, and a backtest over 50 candles never enters its candle loop:
    each test result has no trade and the win rate 0.  So the average win
    rate of the analysis is 0 and the stability of each window is
    [max(0, 100 - trainWinRate)], for every history, strategy and train
    size. *)
Theorem runWalkForwardAnalysis_default_test strategy history trainSize :
  exists r,
    runWalkForwardAnalysis score strategy history trainSize 50 = Some r
    /\ Forall
         (fun w =>
            (exists testWindow cap,
                length testWindow = 50%nat
                /\ test w = runBacktest score strategy testWindow cap None)
            /\ totalTrades (test w) = 0%nat
            /\ trades (test w) = []
            /\ winRate (test w) = Fin 0
            /\ same (periodStability w)
                    (Js.max (Fin 0) (Fin 100 .- winRate (train w))))
         (periodResults r)
    /\ same (averageWinRate r) (Fin 0).
Proof.
  unfold runWalkForwardAnalysis.
  destruct (walkForwardLoop_total
              (fun w =>
                 (exists testWindow cap,
                     length testWindow = 50%nat
                     /\ test w = runBacktest score strategy testWindow cap None)
                 /\ totalTrades (test w) = 0%nat
                 /\ trades (test w) = []
                 /\ winRate (test w) = Fin 0
                 /\ same (periodStability w)
                         (Js.max (Fin 0) (Fin 100 .- winRate (train w))))
              strategy history trainSize 50) with
    (fuel := S (length history)) (i := 0%nat) (results := @nil PeriodResult)
    as (rs & E & HP).
  - lia.
  - intros i cap.
    destruct (Nat.eq_dec
                (length (slice history (i + trainSize) (i + trainSize + 50)))
                50) as [L|L]; [left|right; exact L].
    destruct (runBacktest_fifty strategy _ cap None L) as (h0 & _ & R).
    destruct (runBacktest_winRate
                strategy (slice history i (i + trainSize)) (Fin 1000) None)
      as (q & Hq & Hpos).
    set (w := mkPeriodResult i _ _).
    assert (T : test w = mkBacktestResult
                           0 0 0 (Fin 0) (Fin 0) (Fin 0)
                           [mkEquityPoint (time h0) cap] []) by exact R.
    split.
    + exists (slice history (i + trainSize) (i + trainSize + 50)), cap.
      split; [exact L|reflexivity].
    + split; [rewrite T; reflexivity|].
      split; [rewrite T; reflexivity|].
      split; [rewrite T; reflexivity|].
      apply (periodStability_zero_test w q); [exact Hq|exact Hpos|].
      rewrite T. reflexivity.
  - lia.
  - constructor.
  - rewrite E. eexists. split; [reflexivity|]. split; [exact HP|].
    simpl averageWinRate.
    destruct (0 <? length rs)%nat eqn:N; [|reflexivity].
    apply Nat.ltb_lt in N.
    destruct (totalWinRate_zero rs 0) as (q & Eq & Q0).
    { eapply Forall_impl; [|exact HP]. simpl. intros a H. apply H. }
    rewrite Eq. unfold ofNat. simpl.
    assert (Z : Qeq_bool (inject_Z (Z.of_nat (length rs))) 0 = false).
    { apply Qeqb_neq. unfold Qeq. simpl. lia. }
    rewrite Z. simpl. rewrite Q0. unfold Qdiv. ring.
Qed.

End BacktestProperties.

(** ** Relative strength index *)

Lemma nth_error_mapiFrom {A B} (f : nat -> A -> B) (k : nat) (xs : list A)
      (i : nat) :
  nth_error (mapiFrom f k xs) i = option_map (f (k + i)%nat) (nth_error xs i).
Proof.
  revert k i. induction xs as [|x rest IH]; intros k i.
  - destruct i; reflexivity.
  - destruct i; simpl.
    + rewrite Nat.add_0_r. reflexivity.
    + rewrite IH. f_equal. f_equal. lia.
Qed.

Lemma length_mapiFrom {A B} (f : nat -> A -> B) (k : nat) (xs : list A) :
  length (mapiFrom f k xs) = length xs.
Proof.
  revert k. induction xs as [|x rest IH]; intro k; simpl; [|rewrite IH];
    reflexivity.
Qed.

Lemma at_map_Fin (qs : list Q) (i : nat) :
  (i < length qs)%nat -> exists q, at_ (map Fin qs) i = Fin q.
Proof.
  intro H. unfold at_. rewrite nth_error_map.
  destruct (nth_error qs i) as [q|] eqn:E.
  - exists q. reflexivity.
  - apply nth_error_None in E. lia.
Qed.

(** Finite prices have finite changes. *)
Lemma priceChanges_finite (qs : list Q) (i : nat) :
  (i < length qs)%nat ->
  exists c, at_ (priceChanges (map Fin qs)) i = Fin c.
Proof.
  intro H. unfold at_ at 1, priceChanges, mapi.
  rewrite nth_error_mapiFrom. simpl.
  destruct (at_map_Fin qs i H) as (q & Eq). unfold at_ in Eq.
  destruct (nth_error (map Fin qs) i) as [v|]; simpl in *; [|discriminate].
  subst v. destruct i as [|j]; simpl.
  - exists 0. reflexivity.
  - rewrite Nat.sub_0_r.
    destruct (at_map_Fin qs j) as (q' & Eq'); [lia|].
    rewrite Eq'. eexists. reflexivity.
Qed.

Lemma gain_finite (c : Q) :
  exists g, (if Fin c .> Fin 0 then Fin c else Fin 0) = Fin g /\ 0 <= g.
Proof.
  unfold Js.gt. simpl. destruct (Qltb 0 c) eqn:E.
  - apply Qltb_lt in E. exists c. split; [reflexivity|lra].
  - exists 0. split; [reflexivity|lra].
Qed.

Lemma loss_finite (c : Q) :
  exists l,
    (if Fin c .< Fin 0 then Js.abs (Fin c) else Fin 0) = Fin l /\ 0 <= l.
Proof.
  simpl. destruct (Qltb c 0).
  - exists (Qabs c). split; [reflexivity|apply Qabs_nonneg].
  - exists 0. split; [reflexivity|lra].
Qed.

Lemma ofNat_div (x : Q) (p : nat) :
  (1 <= p)%nat -> 0 <= x ->
  exists r, Fin x ./ ofNat p = Fin r /\ 0 <= r.
Proof.
  intros Hp Hx. unfold ofNat. simpl.
  assert (P : 0 < inject_Z (Z.of_nat p)) by (unfold Qlt; simpl; lia).
  assert (Z : Qeq_bool (inject_Z (Z.of_nat p)) 0 = false)
    by (apply Qeqb_neq; lra).
  rewrite Z. eexists. split; [reflexivity|].
  apply Qle_shift_div_l; lra.
Qed.

(** The seed averages of finite changes are finite and not negative. *)
Lemma rsiSeed_finite (qs : list Q) (period : nat) :
  (1 <= period)%nat -> (period < length qs)%nat ->
  exists g l,
    rsiSeed (priceChanges (map Fin qs)) period = (Fin g, Fin l)
    /\ 0 <= g /\ 0 <= l.
Proof.
  intros Hp Hlen. unfold rsiSeed.
  assert (S : forall js a b,
             Forall (fun j => (j < length qs)%nat) js -> 0 <= a -> 0 <= b ->
             exists a' b',
               fold_left
                 (fun (s : num * num) j =>
                    let chg := at_ (priceChanges (map Fin qs)) j in
                    if chg .> Fin 0 then (fst s .+ chg, snd s)
                    else (fst s, snd s .+ Js.abs chg))
                 js (Fin a, Fin b)
               = (Fin a', Fin b') /\ 0 <= a' /\ 0 <= b').
  { induction js as [|j js IH]; intros a b Hjs Ha Hb.
    - exists a, b. auto.
    - inversion Hjs as [|? ? Hj Hrest]; subst. simpl.
      destruct (priceChanges_finite qs j Hj) as (c & Ec). rewrite Ec.
      unfold Js.gt. simpl. destruct (Qltb 0 c) eqn:E.
      + apply Qltb_lt in E. apply IH; [exact Hrest|lra|exact Hb].
      + apply IH; [exact Hrest|exact Ha|].
        pose proof (Qabs_nonneg c). lra. }
  destruct (S (seq 1 period) 0 0) as (a & b & E & Ha & Hb); try lra.
  { apply Forall_forall. intros j Hj. apply in_seq in Hj. lia. }
  cbv zeta in E. rewrite E. simpl fst. simpl snd.
  destruct (ofNat_div a period Hp Ha) as (g & Eg & Hg).
  destruct (ofNat_div b period Hp Hb) as (l & El & Hl).
  exists g, l. rewrite Eg, El. auto.
Qed.

(** One Wilder smoothing step of a finite average. *)
Lemma wilder_finite (avg x : Q) (period : nat) :
  (1 <= period)%nat -> 0 <= avg -> 0 <= x ->
  exists r,
    (Fin avg .* (ofNat period .- Fin 1) .+ Fin x) ./ ofNat period = Fin r
    /\ 0 <= r.
Proof.
  intros Hp Ha Hx.
  assert (E : Fin avg .* (ofNat period .- Fin 1) .+ Fin x
              = Fin (avg * (inject_Z (Z.of_nat period) + - 1) + x))
    by reflexivity.
  rewrite E. apply ofNat_div; [exact Hp|].
  assert (P : 1 <= inject_Z (Z.of_nat period)).
  { unfold Qle. simpl. lia. }
  assert (0 <= avg * (inject_Z (Z.of_nat period) + - 1)).
  { apply Qmult_le_0_compat; lra. }
  lra.
Qed.

(** The value pushed for finite averages: 100 when the average loss is 0,
    and [100 - 100 / (1 + avgGain / avgLoss)] otherwise, between 0 and 100
    in both cases. *)
Lemma rsiValue_finite (g l : Q) :
  0 <= g -> 0 <= l ->
  rsiValue (Fin g) (Fin l)
  = (if Qeq_bool l 0 then Fin 100 else Fin (100 - 100 / (1 + g / l)))
  /\ exists q, rsiValue (Fin g) (Fin l) = Fin q /\ 0 <= q <= 100.
Proof.
  intros Hg Hl. unfold rsiValue. simpl.
  destruct (Qeq_bool l 0) eqn:E.
  - split; [reflexivity|]. exists 100. split; [reflexivity|lra].
  - apply Qeqb_neq in E. simpl.
    assert (Lpos : 0 < l).
    { destruct (Qlt_le_dec 0 l) as [P|N]; [exact P|].
      exfalso. apply E. lra. }
    assert (R : 0 <= g / l) by (apply Qle_shift_div_l; lra).
    assert (Z : Qeq_bool (1 + g / l) 0 = false) by (apply Qeqb_neq; lra).
    rewrite Z. split; [reflexivity|].
    eexists. split; [reflexivity|].
    assert (P : 0 < 100 / (1 + g / l)) by (apply Qlt_shift_div_l; lra).
    assert (U : 100 / (1 + g / l) <= 100).
    { apply Qle_shift_div_r; [lra|]. nra. }
    split; lra.
Qed.

(** With an average loss that is exactly 0 the value is exactly 100. *)
Lemma rsiValue_no_loss (avgGain avgLoss : num) :
  (avgLoss .== Fin 0) = true -> rsiValue avgGain avgLoss = Fin 100.
Proof. intro H. unfold rsiValue. rewrite H. reflexivity. Qed.

Lemma rsiStateAt_S (prices : list num) (period n : nat) :
  rsiStateAt prices period (S n)
  = rsiStep (priceChanges prices) period (rsiStateAt prices period n) n.
Proof.
  unfold rsiStateAt. rewrite seq_S, fold_left_app. reflexivity.
Qed.

(** Below the period the loop pushes [undefined] and leaves the averages. *)
Lemma rsiStep_undefined (changes : list num) (period : nat) (st : RsiState)
      (i : nat) :
  (i < period)%nat ->
  rsiStep changes period st i
  = mkRsiState (avgGain st) (avgLoss st) (rsiArray st ++ [None]).
Proof.
  intro H. unfold rsiStep. apply Nat.ltb_lt in H. rewrite H. reflexivity.
Qed.

(** From the period on it pushes the value of the new averages, which are
    finite and not negative. *)
Lemma rsiStep_defined (qs : list Q) (period : nat) (st : RsiState) (i : nat) :
  (1 <= period)%nat -> (period < length qs)%nat ->
  (period <= i < length qs)%nat ->
  (i = period
   \/ exists g0 l0,
       avgGain st = Fin g0 /\ avgLoss st = Fin l0 /\ 0 <= g0 /\ 0 <= l0) ->
  exists g l,
    0 <= g /\ 0 <= l
    /\ rsiStep (priceChanges (map Fin qs)) period st i
       = mkRsiState (Fin g) (Fin l)
                    (rsiArray st ++ [Some (rsiValue (Fin g) (Fin l))]).
Proof.
  intros Hp Hlen Hi Hst. unfold rsiStep.
  assert (B : (i <? period)%nat = false) by (apply Nat.ltb_ge; lia).
  rewrite B. cbv zeta.
  destruct (priceChanges_finite qs i) as (c & Ec); [lia|]. rewrite Ec.
  destruct (i =? period)%nat eqn:E.
  - destruct (rsiSeed_finite qs period Hp Hlen) as (g & l & Es & Hg & Hl).
    rewrite Es. exists g, l. auto.
  - apply Nat.eqb_neq in E.
    destruct Hst as [Heq|(g0 & l0 & Eg & El & Hg0 & Hl0)]; [contradiction|].
    rewrite Eg, El.
    destruct (gain_finite c) as (x & Ex & Hx).
    destruct (loss_finite c) as (y & Ey & Hy).
    rewrite Ex, Ey.
    destruct (wilder_finite g0 x period Hp Hg0 Hx) as (g & Eg' & Hg).
    destruct (wilder_finite l0 y period Hp Hl0 Hy) as (l & El' & Hl).
    rewrite Eg', El'. exists g, l. auto.
Qed.

(** The invariant of the loop of [calculateRSIArray] over finite prices. *)
Lemma rsiStateAt_invariant (qs : list Q) (period : nat) :
  (1 <= period)%nat -> (period < length qs)%nat ->
  forall n,
    (n <= length qs)%nat ->
    let st := rsiStateAt (map Fin qs) period n in
    length (rsiArray st) = n
    /\ (forall i, (i < n)%nat -> (i < period)%nat ->
                  nth_error (rsiArray st) i = Some None)
    /\ (forall i, (period <= i < n)%nat ->
                  exists g l,
                    avgGain (rsiStateAt (map Fin qs) period (S i)) = Fin g
                    /\ avgLoss (rsiStateAt (map Fin qs) period (S i)) = Fin l
                    /\ 0 <= g /\ 0 <= l
                    /\ nth_error (rsiArray st) i
                       = Some (Some (rsiValue (Fin g) (Fin l))))
    /\ ((period < n)%nat ->
        exists g l,
          avgGain st = Fin g /\ avgLoss st = Fin l /\ 0 <= g /\ 0 <= l).
Proof.
  intros Hp Hlen. induction n as [|n IH]; intro Hn; cbv zeta.
  - split; [reflexivity|]. split; [intros; lia|]. split; intros; lia.
  - destruct (IH ltac:(lia)) as (Ilen & Iund & Idef & Iavg).
    rewrite rsiStateAt_S.
    set (st := rsiStateAt (map Fin qs) period n) in *.
    destruct (Nat.lt_ge_cases n period) as [Hlt|Hge].
    + rewrite rsiStep_undefined by exact Hlt. simpl.
      split; [rewrite length_app, Ilen; simpl; lia|].
      split; [|split; intros; lia].
      intros i Hi Hip. destruct (Nat.eq_dec i n) as [->|Hne].
      * rewrite nth_error_app2 by lia. rewrite Ilen, Nat.sub_diag.
        reflexivity.
      * rewrite nth_error_app1 by lia. apply Iund; lia.
    + destruct (rsiStep_defined qs period st n Hp Hlen ltac:(lia))
        as (g & l & Hg & Hl & E).
      { destruct (Nat.eq_dec n period) as [Heq|Hne]; [left; exact Heq|].
        right. apply Iavg. lia. }
      rewrite E. simpl.
      split; [rewrite length_app, Ilen; simpl; lia|].
      split; [|split].
      * intros i Hi Hip. rewrite nth_error_app1 by lia. apply Iund; lia.
      * intros i Hi. destruct (Nat.eq_dec i n) as [->|Hne].
        -- exists g, l. rewrite rsiStateAt_S. fold st. rewrite E. simpl.
           repeat (split; [first [reflexivity|assumption]|]).
           rewrite nth_error_app2 by lia. rewrite Ilen, Nat.sub_diag.
           reflexivity.
        -- destruct (Idef i ltac:(lia)) as (g' & l' & A & B & C & D & N).
           exists g', l'. repeat (split; [assumption|]).
           rewrite nth_error_app1 by lia. exact N.
      * intros _. exists g, l. auto.
Qed.


(** ** Support and resistance clusters *)

Lemma insertSorted_Fin (x : Q) (ys : list Q) :
  insertSorted (Fin x) (map Fin ys) = map Fin (insertQ x ys).
Proof.
  induction ys as [|y rest IH]; simpl; [reflexivity|].
  change (x + - y) with (x - y).
  destruct (Qltb (x - y) 0); simpl; [reflexivity|].
  rewrite IH. reflexivity.
Qed.

Lemma sortAsc_Fin (qs : list Q) : sortAsc (map Fin qs) = map Fin (sortQ qs).
Proof.
  unfold sortAsc, sortQ.
  change (@nil num) with (map Fin []).
  generalize (@nil Q) as acc.
  induction qs as [|q rest IH]; intro acc; simpl; [reflexivity|].
  rewrite insertSorted_Fin. apply IH.
Qed.

Lemma insertQ_perm (x : Q) (ys : list Q) : Permutation (x :: ys) (insertQ x ys).
Proof.
  induction ys as [|y rest IH]; simpl; [reflexivity|].
  destruct (Qltb (x - y) 0); [reflexivity|].
  rewrite perm_swap. constructor. exact IH.
Qed.

Lemma insertQ_hd (x a : Q) (ys : list Q) :
  a <= x -> HdRel Qle a ys -> HdRel Qle a (insertQ x ys).
Proof.
  intros Hax Hd. destruct ys as [|y rest]; simpl.
  - constructor. exact Hax.
  - destruct (Qltb (x - y) 0); constructor; [exact Hax|].
    inversion Hd; assumption.
Qed.

Lemma insertQ_sorted (x : Q) (ys : list Q) :
  Sorted Qle ys -> Sorted Qle (insertQ x ys).
Proof.
  induction 1 as [|y rest Hs IH Hd]; simpl.
  - repeat constructor.
  - destruct (Qltb (x - y) 0) eqn:E.
    + apply Qltb_lt in E. constructor; [constructor; assumption|].
      constructor. lra.
    + apply Qltb_ge in E. constructor; [exact IH|].
      apply insertQ_hd; [lra|exact Hd].
Qed.

Lemma sortQ_sorted_perm (qs : list Q) :
  Permutation qs (sortQ qs) /\ Sorted Qle (sortQ qs).
Proof.
  unfold sortQ.
  assert (G : forall acc,
             Sorted Qle acc ->
             Permutation (qs ++ acc)
                         (fold_left (fun acc x => insertQ x acc) qs acc)
             /\ Sorted Qle (fold_left (fun acc x => insertQ x acc) qs acc)).
  { induction qs as [|q rest IH]; intros acc Hacc; simpl.
    - split; [reflexivity|exact Hacc].
    - destruct (IH (insertQ q acc) (insertQ_sorted q acc Hacc)) as (P & S).
      split; [|exact S].
      rewrite <- P. rewrite <- (insertQ_perm q acc).
      apply Permutation_middle. }
  destruct (G [] (Sorted_nil _)) as (P & S).
  rewrite app_nil_r in P. split; assumption.
Qed.

Lemma le_Fin (a b : Q) : (Fin a .<= Fin b) = Qle_bool a b.
Proof.
  unfold Js.le. simpl.
  destruct (Qle_bool a b) eqn:E.
  - apply Qle_bool_iff in E.
    destruct (Qltb a b) eqn:L; [reflexivity|]. apply Qltb_ge in L.
    simpl. apply Qeq_bool_iff. lra.
  - destruct (Qltb a b) eqn:L.
    + apply Qltb_lt in L. assert (a <= b) as H by lra.
      apply Qle_bool_iff in H. congruence.
    + simpl. apply Qeqb_neq. intro H.
      assert (a <= b) as H' by lra. apply Qle_bool_iff in H'. congruence.
Qed.

Lemma sumQ_snoc (c : list Q) (x : Q) : sumQ (c ++ [x]) = sumQ c + x.
Proof. unfold sumQ. rewrite fold_left_app. reflexivity. Qed.

Lemma linked_snoc (tol : Q) (c : list Q) (x : Q) :
  c <> [] -> linked tol c -> x <= last c 0 * (1 + tol) ->
  linked tol (c ++ [x]).
Proof.
  induction c as [|a rest IH]; intros Hne Hl Hx; [contradiction|].
  destruct rest as [|b rest'].
  - simpl in *. auto.
  - destruct Hl as (Hab & Hl). split; [exact Hab|].
    apply IH; [discriminate|exact Hl|exact Hx].
Qed.

(** The running sum and count of [clusterLoop] are the sum and the size of
    the chain in progress, and each cluster it emits is the mean of a
    chain. *)
Lemma clusterLoop_chains (tol : Q) (rest : list Q) :
  forall prev current s,
    current <> [] -> s == sumQ current ->
    Forall2 same
            (clusterLoop (Fin tol) (Fin prev) (Fin s) (length current)
                         (map Fin rest))
            (map (fun c => Fin (meanQ c)) (chainsFrom tol prev current rest)).
Proof.
  assert (Mean : forall current s,
             current <> [] -> s == sumQ current ->
             same (Fin s ./ ofNat (length current)) (Fin (meanQ current))).
  { intros current s Hne Hs. unfold ofNat. simpl.
    assert (Z : Qeq_bool (inject_Z (Z.of_nat (length current))) 0 = false).
    { apply Qeqb_neq. unfold Qeq. simpl.
      destruct current; [contradiction|simpl; lia]. }
    rewrite Z. simpl. unfold meanQ. rewrite Hs. reflexivity. }
  induction rest as [|x rest IH]; intros prev current s Hne Hs; simpl.
  - constructor; [|constructor]. apply Mean; assumption.
  - change (Fin prev .* (Fin 1 .+ Fin tol)) with (Fin (prev * (1 + tol))).
    rewrite le_Fin.
    destruct (Qle_bool x (prev * (1 + tol))).
    + replace (S (length current)) with (length (current ++ [x]))
        by (rewrite length_app; simpl; lia).
      apply IH.
      * destruct current; discriminate.
      * rewrite sumQ_snoc, Hs. reflexivity.
    + simpl. constructor; [apply Mean; assumption|].
      apply (IH x [x] x); [discriminate|].
      unfold sumQ. simpl. ring.
Qed.

(** The chains split the list, each is linked and each starts beyond the
    reach of the one before. *)
Lemma chainsFrom_spec (tol : Q) (rest : list Q) :
  forall prev current,
    current <> [] -> last current 0 = prev -> linked tol current ->
    let cs := chainsFrom tol prev current rest in
    concat cs = current ++ rest
    /\ Forall (fun c => c <> [] /\ linked tol c) cs
    /\ separated tol cs
    /\ exists more tail, cs = (current ++ more) :: tail.
Proof.
  induction rest as [|x rest IH]; intros prev current Hne Hlast Hl; simpl.
  - split; [reflexivity|]. split; [repeat constructor; assumption|].
    split; [exact I|]. exists [], []. rewrite app_nil_r. reflexivity.
  - destruct (Qle_bool x (prev * (1 + tol))) eqn:E.
    + apply Qle_bool_iff in E.
      destruct (IH x (current ++ [x])) as (C & F & S & more & tail & Eq).
      * destruct current; discriminate.
      * apply last_last.
      * apply linked_snoc; [exact Hne|exact Hl|]. rewrite Hlast. exact E.
      * split; [rewrite C, <- app_assoc; reflexivity|].
        split; [exact F|]. split; [exact S|].
        exists (x :: more), tail. rewrite Eq, <- app_assoc. reflexivity.
    + assert (G : prev * (1 + tol) < x).
      { apply Qnot_le_lt. intro L. apply Qle_bool_iff in L. congruence. }
      destruct (IH x [x]) as (C & F & S & more & tail & Eq);
        [discriminate|reflexivity|exact I|].
      split; [simpl; rewrite C; reflexivity|].
      split; [constructor; [split; assumption|exact F]|].
      split; [|exists [], (chainsFrom tol x [x] rest);
               rewrite app_nil_r; reflexivity].
      simpl. rewrite Eq. rewrite <- Eq. split; [|exact S].
      rewrite Hlast. exact G.
Qed.

(** C9 (what the code does): [clusterLevels] sorts the levels ascending, in
    the array it is given, and merges a level into the current cluster
    exactly when it is at most 2% (the tolerance) above the level right
    before it in the sorted order, not above the cluster average: the
    clusters are the arithmetic means of the chains of the sorted levels.
    [analyzeMarketStructure] keeps the last three clusters of the swing highs
    as resistances and the first three of the swing lows as supports. *)
Theorem clusterLevels_chained :
  (forall (tol : Q) (qs : list Q),
      exists sorted,
        snd (clusterLevels (map Fin qs) (Fin tol)) = map Fin sorted
        /\ Permutation qs sorted
        /\ Sorted Qle sorted
        /\ Forall2 same (fst (clusterLevels (map Fin qs) (Fin tol)))
                   (map (fun c => Fin (meanQ c)) (chains tol sorted))
        /\ concat (chains tol sorted) = sorted
        /\ Forall (fun c => c <> [] /\ linked tol c) (chains tol sorted)
        /\ separated tol (chains tol sorted))
  /\ (forall prices,
         resistances (analyzeMarketStructure prices)
         = (if (length prices <? 10)%nat then []
            else lastN 3 (fst (clusterLevels (fst (swings prices))
                                             (Fin 0.02))))
         /\ supports (analyzeMarketStructure prices)
            = (if (length prices <? 10)%nat then []
               else firstn 3 (fst (clusterLevels (snd (swings prices))
                                                 (Fin 0.02))))).
Proof.
  split.
  - intros tol qs. exists (sortQ qs).
    destruct (sortQ_sorted_perm qs) as (P & S).
    unfold clusterLevels. rewrite sortAsc_Fin.
    destruct (sortQ qs) as [|x rest] eqn:E; simpl.
    + repeat split; try assumption; constructor.
    + split; [reflexivity|]. split; [exact P|]. split; [exact S|].
      split.
      * apply (clusterLoop_chains tol rest x [x] x); [discriminate|].
        unfold sumQ. simpl. ring.
      * destruct (chainsFrom_spec tol rest x [x]) as (C & F & Sep & _);
          [discriminate|reflexivity|exact I|].
        repeat split; assumption.
  - intro prices. unfold analyzeMarketStructure.
    destruct (length prices <? 10)%nat; [split; reflexivity|].
    destruct (swings prices) as [highs lows]. simpl fst. simpl snd.
    destruct (clusterLevels highs (Fin 0.02)) as [highClusters highs'].
    destruct (clusterLevels lows (Fin 0.02)) as [lowClusters lows'].
    split; reflexivity.
Qed.

(** C9 as worded fails on the levels 100, 102 and 104.  The running average
    of 100 and 102 is 101, and 104 is more than 2% away from it, so the
    wording gives the clusters 101 and 104; the code compares 104 with 102
    and returns the single cluster 102. *)
Lemma clusterLevels_not_running_average :
  Forall2 same (fst (clusterLevels (map Fin [100; 102; 104]) (Fin 0.02)))
          [Fin 102]
  /\ Forall2 same (clusterLevels_spec (map Fin [100; 102; 104]) (Fin 0.02))
             [Fin 101; Fin 104]
  /\ fst (clusterLevels (map Fin [100; 102; 104]) (Fin 0.02))
     <> clusterLevels_spec (map Fin [100; 102; 104]) (Fin 0.02).
Proof.
  split; [|split].
  - vm_compute. repeat constructor.
  - vm_compute. repeat constructor.
  - vm_compute. discriminate.
Qed.

(** ** Volume profile *)

Lemma lt_add_zero (cur target : num) :
  (cur .+ Fin 0 .< target) = (cur .< target).
Proof.
  destruct cur as [c| | |], target as [t| | |]; simpl; try reflexivity.
  unfold Qltb. f_equal. apply Qleb_comp; [reflexivity|ring].
Qed.

(** The value-area loop never ends once the window has reached the lowest
    bin while the bin above the window is empty: the tie [0 > 0] sends it
    down again, the lower index leaves the array, and the volume in the
    window stays where it is. *)
Lemma valueAreaLoop_stuck (profileBins : list num) (bins : nat)
      (targetVol : num) :
  (1 < Z.of_nat bins - 1)%Z ->
  toNum (atZ profileBins 1) = Fin 0 ->
  forall fuel currentVol lowIdx,
    (lowIdx <= 0)%Z ->
    (currentVol .< targetVol) = true ->
    valueAreaLoop fuel profileBins bins targetVol currentVol lowIdx 0 = None.
Proof.
  intros Hb Hup.
  assert (U : (0 <? Z.of_nat bins - 1)%Z = true) by (apply Z.ltb_lt; lia).
  induction fuel as [|fuel IH]; intros cur lowIdx Hl Hc; simpl.
  - rewrite Hc, U, orb_true_r. reflexivity.
  - assert (D : (lowIdx >? 0)%Z = false)
      by (rewrite Z.gtb_ltb; apply Z.ltb_ge; lia).
    rewrite Hc, U, D. simpl. rewrite Hup. simpl.
    apply IH; [lia|]. rewrite lt_add_zero. exact Hc.
Qed.

(** C8 (where the code fails): two candles at the prices 100 and 124 with
    the volumes 6 and 4, in 24 bins.  The point of control is the lowest bin
    with 6 of the 10 units, short of the 70% target, and the next bin is
    empty: the value-area loop never ends, so no profile is returned,
    whatever the number of iterations allowed. *)
Theorem calculateVolumeProfile_diverges :
  forall fuel,
    calculateVolumeProfile fuel (map Fin [100; 124]) (map Fin [6; 4]) 24
    = None.
Proof.
  intro fuel. unfold calculateVolumeProfile. cbv zeta.
  set (B := fillBins _ _ _ _ _ _).
  destruct (pocLoop B 24) as [[maxVol pocIndex] totalVolume] eqn:P.
  vm_compute in P. injection P as <- <- <-.
  simpl (length _ =? 0)%nat. simpl orb. cbv iota.
  rewrite valueAreaLoop_stuck.
  - reflexivity.
  - lia.
  - vm_compute. reflexivity.
  - lia.
  - vm_compute. reflexivity.
Qed.

(** The bins of that input: only the first and the last one are not
    empty. *)
Example calculateVolumeProfile_bins :
  map (fun v => Js.eq v (Fin 0))
      (fillBins (map Fin [100; 124]) (map Fin [6; 4]) (Fin 100) (Fin 1) 24
                (fill 24 (Fin 0)))
  = [false; true; true; true; true; true; true; true; true; true; true; true;
     true; true; true; true; true; true; true; true; true; true; true; false].
Proof. vm_compute. reflexivity. Qed.

(** Where the bin above the point of control is not empty the loop ends:
    the value area of this profile is the first two bins. *)
Example calculateVolumeProfile_returns :
  option_map (fun vp => (poc vp, vacLow vp, vacHigh vp))
             (calculateVolumeProfile 24 (map Fin [100; 101; 124])
                                     (map Fin [6; 3; 1]) 24)
  = Some (Some (Fin (100 + 0 * ((124 - 100) / 24))),
          Some (Fin (100 + 0 * ((124 - 100) / 24))),
          Some (Fin (100 + 1 * ((124 - 100) / 24)))).
Proof. vm_compute. reflexivity. Qed.

(** ** Hybrid opportunity score *)

Module HybridProperties.
Import HybridScannerService.

Lemma fin_if_add (c : bool) (s : num) (a : Q) :
  isFin s -> isFin (if c then s .+ Fin a else s).
Proof. intro. destruct c; auto with fin. Qed.

Lemma fin_if_sub (c : bool) (s : num) (a : Q) :
  isFin s -> isFin (if c then s .- Fin a else s).
Proof. intro. destruct c; auto with fin. Qed.

#[local] Hint Resolve fin_if_add fin_if_sub : fin.

(** The score before the overlay is between 1 and 99 for every signal whose
    raw probability is a finite number. *)
Lemma calculateOpportunityScore_range
      signal regime classification history btcContext (p : Q) :
  probability signal = Fin p ->
  exists s,
    calculateOpportunityScore signal regime classification history btcContext
    = Fin s /\ 1 <= s <= 99.
Proof.
  intro Hp. unfold calculateOpportunityScore. cbv zeta. rewrite Hp.
  apply clamp_min_max; [lra|].
  match goal with
  | |- isFin (if ?c then _ else ?s) => assert (F : isFin s)
  end.
  - match goal with
    | |- isFin (match btcContext with Some _ => _ | None => ?s end) =>
        assert (F : isFin s)
    end.
    + assert (B : isFin (Fin 50 .+ (Fin p .- Fin 50))) by exact I.
      destruct classification; auto 10 with fin.
    + destruct btcContext as [t|]; [|exact F].
      destruct (SignalType_eqb (signalType signal) SIG_DUMP), t;
        cbv iota; auto with fin.
  - destruct (truthyOpt _); auto with fin.
Qed.

(** The overlay keeps a finite score finite, and it does not lower it unless
    the crowded-longs rule fires. *)
Lemma futuresOverlay_score baseSignal (s : Q) :
  exists a,
    snd (fst (futuresOverlay baseSignal (Fin s))) = Fin a
    /\ (crowdedLongs baseSignal = false -> s <= a).
Proof.
  unfold futuresOverlay, crowdedLongs.
  destruct (futuresData baseSignal) as [fd|]; cbv zeta.
  - destruct ((longShortRatio fd .< Fin 0.6)
              && negb (SignalType_eqb (signalType baseSignal) SIG_DUMP))
             eqn:A.
    + destruct (SignalType_eqb (signalType baseSignal) SIG_ACCUMULATION
                && (openInterest fd .> Fin 0)
                && (longShortRatio fd .< Fin 0.8));
        simpl; eexists; (split; [reflexivity|intros _; lra]).
    + destruct ((longShortRatio fd .> Fin 3.0)
                && negb (SignalType_eqb (signalType baseSignal) SIG_DUMP))
               eqn:B.
      * apply andb_true_iff in B. destruct B as (B1 & B2).
        rewrite B1, B2.
        destruct (SignalType_eqb (signalType baseSignal) SIG_ACCUMULATION
                  && (openInterest fd .> Fin 0)
                  && (longShortRatio fd .< Fin 0.8));
          simpl; eexists; (split; [reflexivity|discriminate]).
      * destruct (SignalType_eqb (signalType baseSignal) SIG_ACCUMULATION
                  && (openInterest fd .> Fin 0)
                  && (longShortRatio fd .< Fin 0.8));
          simpl; eexists; (split; [reflexivity|intros _; lra]).
  - exists s. split; [reflexivity|intros _; lra].
Qed.

(** The score in the result is the overlaid score, cut at 99 only. *)
Lemma enrichSignal_score baseSignal history btcContext :
  (50 <= length history)%nat ->
  let prices := map price history in
  let regime := detectMarketRegime history prices in
  let classification := classifyMove baseSignal history regime in
  opportunityScore (enrichSignal baseSignal history btcContext)
  = Js.min (Fin 99)
           (snd (fst (futuresOverlay
                        baseSignal
                        (calculateOpportunityScore
                           baseSignal regime classification history
                           btcContext)))).
Proof.
  intro H. cbv zeta. unfold enrichSignal.
  assert (L : (length history <? 50)%nat = false) by (apply Nat.ltb_ge; lia).
  rewrite L. cbv zeta.
  destruct (futuresOverlay _ _) as [[tag adjusted] risk].
  destruct (assessRisk _ _ _) as [r f]. reflexivity.
Qed.

(** C3 (what the code does by design): for a signal whose raw probability is
    a finite number, the score that [calculateOpportunityScore] computes is
    between 1 and 99 for every regime, classification, history and BTC
    context.  With at least fifty candles the [opportunityScore] of
    [enrichSignal] is that score after the derivatives overlay, cut at 99
    only: it is at most 99, and at least 1 whenever the crowded-longs rule
    of the overlay does not fire.  With fewer than fifty candles it is the
    raw probability itself, not clamped. *)
Theorem enrichSignal_score_bounds baseSignal history btcContext (p : Q) :
  probability baseSignal = Fin p ->
  (forall regime classification,
      exists s,
        calculateOpportunityScore baseSignal regime classification history
                                  btcContext
        = Fin s /\ 1 <= s <= 99)
  /\ ((50 <= length history)%nat ->
      exists q,
        opportunityScore (enrichSignal baseSignal history btcContext) = Fin q
        /\ q <= 99
        /\ (crowdedLongs baseSignal = false -> 1 <= q))
  /\ ((length history < 50)%nat ->
      opportunityScore (enrichSignal baseSignal history btcContext) = Fin p).
Proof.
  intro Hp. split; [|split].
  - intros regime classification.
    apply (calculateOpportunityScore_range _ _ _ _ _ p Hp).
  - intro Hlen. rewrite (enrichSignal_score _ _ _ Hlen).
    destruct (calculateOpportunityScore_range
                baseSignal
                (detectMarketRegime history (map price history))
                (classifyMove baseSignal history
                              (detectMarketRegime history
                                                  (map price history)))
                history btcContext p Hp) as (s & Es & Hs).
    rewrite Es.
    destruct (futuresOverlay_score baseSignal s) as (a & Ea & Ha).
    rewrite Ea. unfold Js.min. simpl.
    destruct (Qltb a 99) eqn:E.
    + apply Qltb_lt in E. exists a. split; [reflexivity|].
      split; [lra|]. intro C. specialize (Ha C). lra.
    + exists 99. split; [reflexivity|]. split; intros; lra.
  - intro Hlen. unfold enrichSignal. apply Nat.ltb_lt in Hlen.
    rewrite Hlen. exact Hp.
Qed.

(** C3 as worded fails twice.  Without history the result carries the raw
    probability, here 110.  And on fifty flat candles a breakout signal of
    probability 20 scores 1 after the clamp, the crowded-longs rule (ratio
    3.5) takes 30 off, and the result carries -29. *)
Lemma enrichSignal_score_out_of_range :
  scoreInRange
    (opportunityScore
       (enrichSignal (mkScannerSignal SIG_UNDERVALUED (Fin 110) None) []
                     None))
  = false
  /\ scoreInRange
       (opportunityScore
          (enrichSignal
             (mkScannerSignal
                SIG_BREAKOUT (Fin 20)
                (Some (mkFuturesData (Fin 0) (Fin 3.5) (Fin 0))))
             (repeat (mkChartPoint "t" (Fin 100) (Some (Fin 1)) None None)
                     50)
             None))
     = false
  /\ enrichSignal
       (mkScannerSignal SIG_BREAKOUT (Fin 20)
                        (Some (mkFuturesData (Fin 0) (Fin 3.5) (Fin 0))))
       (repeat (mkChartPoint "t" (Fin 100) (Some (Fin 1)) None None) 50)
       None
     = mkHybridAnalysisResult RANGING LIQUIDITY_GRAB (Fin (-29)) HIGH
                              BIAS_MEAN_REVERSION (Fin 134)
                              (Some tagCrowdedLongs).
Proof.
  split; [|split]; vm_compute; reflexivity.
Qed.

Lemma enrichSignal_score_bounds_witness :
  probability (mkScannerSignal SIG_BREAKOUT (Fin 85) None) = Fin 85
  /\ exists q,
      opportunityScore
        (enrichSignal
           (mkScannerSignal SIG_BREAKOUT (Fin 85) None)
           (repeat (mkChartPoint "t" (Fin 100) (Some (Fin 1)) None None) 50)
           (Some UP))
      = Fin q
      /\ q <= 99
      /\ (crowdedLongs (mkScannerSignal SIG_BREAKOUT (Fin 85) None) = false
          -> 1 <= q).
Proof.
  split; [reflexivity|].
  apply (enrichSignal_score_bounds
           (mkScannerSignal SIG_BREAKOUT (Fin 85) None)
           (repeat (mkChartPoint "t" (Fin 100) (Some (Fin 1)) None None) 50)
           (Some UP) 85).
  - reflexivity.
  - simpl. lia.
Defined.

End HybridProperties.

(** ** Concrete instances *)

Lemma runWalkForwardAnalysis_500_witness :
  length (repeat flatCandle 500) = 500%nat
  /\ exists r,
      runWalkForwardAnalysis unweightedScore TREND_FOLLOWING
                             (repeat flatCandle 500) 200 50
      = Some r
      /\ map windowIndex (periodResults r) = [0; 50; 100; 150; 200]%nat
      /\ length (periodResults r) = 5%nat.
Proof.
  split; [apply repeat_length|].
  apply (runWalkForwardAnalysis_500 unweightedScore TREND_FOLLOWING
                                    (repeat flatCandle 500)).
  apply repeat_length.
Defined.


(** The series of the witness, entry by entry. *)
Example calculateRSIArray_values :
  Forall2 (fun e v => match e, v with
                      | Some a, Some b => same a b
                      | None, None => True
                      | _, _ => False
                      end)
          (calculateRSIArray (map Fin [1; 2; 3; 2; 5]) 2)
          [None; None; Some (Fin 100); Some (Fin 50); Some (Fin 87.5)].
Proof. vm_compute. repeat constructor. Qed.


(** A run of the simulation: after the first iteration over [dipHistory] the
    position of the dip is open, and the next candle reaches both its stop
    and its target. *)
Lemma stop_loss_before_take_profit_witness :
  nth_error dipHistory (50 + 1) = Some wideCandle
  /\ btPosition (backtestStateAt unweightedScore MEAN_REVERSION None
                                 dipHistory (Fin 1000) 1)
     = Some dipPosition
  /\ touchesBoth dipPosition
                 (intrabarHigh wideCandle (price wideCandle))
                 (intrabarLow wideCandle (price wideCandle))
     = true
  /\ posType dipPosition = LONG
  /\ btPosition (backtestStateAt unweightedScore MEAN_REVERSION None
                                 dipHistory (Fin 1000) 2)
     = None
  /\ btEquity (backtestStateAt unweightedScore MEAN_REVERSION None
                               dipHistory (Fin 1000) 2)
     = btEquity (backtestStateAt unweightedScore MEAN_REVERSION None
                                 dipHistory (Fin 1000) 1)
       .- btEquity (backtestStateAt unweightedScore MEAN_REVERSION None
                                    dipHistory (Fin 1000) 1)
          .* Fin 0.02
  /\ exists t,
      btTrades (backtestStateAt unweightedScore MEAN_REVERSION None
                                dipHistory (Fin 1000) 2)
      = btTrades (backtestStateAt unweightedScore MEAN_REVERSION None
                                  dipHistory (Fin 1000) 1)
        ++ [t]
      /\ reason t = "Stop Loss"%string
      /\ exitPrice t = sl dipPosition
      /\ entryPrice t = entry dipPosition
      /\ side t = LONG
      /\ pnlPercent t = stopPnl dipPosition
      /\ exitTime t = time wideCandle.
Proof.
  split; [reflexivity|].
  split; [vm_compute; reflexivity|].
  split; [vm_compute; reflexivity|].
  apply (proj2 (proj2 (stop_loss_before_take_profit unweightedScore))
               MEAN_REVERSION None dipHistory (Fin 1000) 1%nat wideCandle
               dipPosition).
  - reflexivity.
  - vm_compute. reflexivity.
  - vm_compute. reflexivity.
Defined.

(** The engine on the whole of [dipHistory]: the run ends with one losing
    trade of 20 (2% of 1000, 3% of the price), closed at the stop although
    the candle reaches the target too, a drawdown of 2% and a profit factor
    of 0 over a gross loss of 20. *)
Example runBacktest_dip :
  (let r := runBacktest unweightedScore MEAN_REVERSION dipHistory (Fin 1000)
                        None in
   (totalTrades r, wins r, losses r,
    Js.eq (winRate r) (Fin 0), Js.eq (profitFactor r) (Fin 0),
    Js.eq (maxDrawdown r) (Fin 2), Js.eq (grossLossOf (trades r)) (Fin 20),
    map (fun t => (Js.eq (entryPrice t) (Fin 98.2),
                   Js.eq (exitPrice t) (Fin (98.2 * 0.97)),
                   Js.eq (pnl t) (Fin (-20)),
                   Js.eq (pnlPercent t) (Fin (-3)), reason t))
        (trades r)))
  = (1%nat, 0%nat, 1%nat, true, true, true, true,
     [(true, true, true, true, "Stop Loss"%string)]).
Proof. vm_compute. reflexivity. Qed.

(** * Further properties *)

(** ** Backtest engine: the trade log and the equity *)

Lemma gt_not_le (a : num) : (a .> Fin 0) = true -> (a .<= Fin 0) = false.
Proof.
  destruct a as [q| | |]; simpl; try discriminate; unfold Js.gt, Js.le;
    simpl; intro H; try reflexivity.
  apply Qltb_lt in H.
  assert (A : Qltb q 0 = false) by (apply Qltb_ge; lra).
  assert (B : Qeq_bool q 0 = false) by (apply Qeqb_neq; lra).
  rewrite A, B. reflexivity.
Qed.

Lemma countIf_disjoint {A} (f g : A -> bool) (xs : list A) :
  (forall x, f x = true -> g x = false) ->
  (countIf f xs + countIf g xs <= length xs)%nat.
Proof.
  intro D. unfold countIf. induction xs as [|x rest IH]; simpl; [lia|].
  destruct (f x) eqn:F.
  - rewrite (D x F). simpl. lia.
  - destruct (g x); simpl; lia.
Qed.

Lemma countIf_le {A} (f : A -> bool) (xs : list A) :
  (countIf f xs <= length xs)%nat.
Proof. unfold countIf. apply filter_length_le. Qed.

Section BacktestInvariants.

Variable score :
  list num -> option num -> option num -> option StochRSI -> Trend ->
  DivergenceResult -> option ScoreWeights -> num.

(** A closed check carries one of the two reasons. *)
Lemma checkStops_reason (position : Position) (H L : num) :
  closed (checkStops position H L) = true ->
  checkReason (checkStops position H L) = "Stop Loss"%string
  \/ checkReason (checkStops position H L) = "Take Profit"%string.
Proof.
  unfold checkStops. destruct (posType position).
  - destruct (L .<= sl position); [auto|].
    destruct (H .>= tp position); [auto|discriminate].
  - destruct (H .>= sl position); [auto|].
    destruct (L .<= tp position); [auto|discriminate].
Qed.

Lemma backtestStep_logInvariant strategy weights history prices st i :
  logInvariant st ->
  logInvariant (backtestStep score strategy weights history prices st i).
Proof.
  intros (Htr & Hlen & Hpos). unfold backtestStep.
  destruct (nth_error history i) as [candle|]; [|repeat split; assumption].
  destruct (btPosition st) as [position|] eqn:P.
  - cbv zeta.
    destruct (closed (checkStops position _ _)) eqn:C;
      [|repeat split; try assumption; rewrite P; exact Hpos].
    unfold closePosition_. cbv zeta. unfold logInvariant. simpl.
    split; [|split].
    + apply Forall_app. split; [exact Htr|]. constructor; [|constructor].
      simpl. split; [apply Hpos; reflexivity|].
      apply checkStops_reason. exact C.
    + rewrite !length_app. simpl. lia.
    + discriminate.
  - unfold logInvariant. simpl. split; [exact Htr|]. split; [exact Hlen|].
    intros position E.
    exact (proj1 (entrySignal_long score _ _ _ _ _ _ E)).
Qed.

Lemma backtestStateAt_logInvariant strategy weights history initialCapital n :
  (1 <= length history)%nat ->
  logInvariant (backtestStateAt score strategy weights history
                                initialCapital n).
Proof.
  intro Hne. induction n as [|n IH].
  - unfold backtestStateAt, backtestInit, logInvariant. simpl.
    destruct history as [|h0 rest]; [simpl in Hne; lia|]. simpl.
    split; [constructor|]. split; [reflexivity|discriminate].
  - rewrite backtestStateAt_S. apply backtestStep_logInvariant. exact IH.
Qed.

(** The win rate is a percentage. *)
Lemma runBacktest_winRate_within strategy history initialCapital weights :
  within 0 100
         (winRate (runBacktest score strategy history initialCapital
                               weights)).
Proof.
  unfold runBacktest. destruct (length history <? 50)%nat; [simpl; lra|].
  cbv zeta. simpl winRate.
  set (st := backtestStateAt _ _ _ _ _ _).
  pose proof (countIf_le (fun t => pnl t .> Fin 0) (btTrades st)) as W.
  set (w := countIf _ (btTrades st)) in *.
  destruct (0 <? length (btTrades st))%nat eqn:E; [|simpl; lra].
  apply Nat.ltb_lt in E. unfold ofNat. simpl.
  assert (P : 0 < inject_Z (Z.of_nat (length (btTrades st))))
    by (unfold Qlt; simpl; lia).
  assert (Z : Qeq_bool (inject_Z (Z.of_nat (length (btTrades st)))) 0
              = false) by (apply Qeqb_neq; lra).
  rewrite Z. simpl.
  assert (A : 0 <= inject_Z (Z.of_nat w)) by (unfold Qle; simpl; lia).
  assert (B : inject_Z (Z.of_nat w)
              <= inject_Z (Z.of_nat (length (btTrades st))))
    by (unfold Qle; simpl; lia).
  split.
  - apply Qmult_le_0_compat; [|lra]. apply Qle_shift_div_l; lra.
  - assert (R : inject_Z (Z.of_nat w)
                / inject_Z (Z.of_nat (length (btTrades st))) <= 1)
      by (apply Qle_shift_div_r; lra).
    lra.
Qed.

(** X1: every trade that [runBacktest] logs is a long trade closed for one
    of the two reasons, "Stop Loss" or "Take Profit" (the entry rules never
    open a short position, so the short branch of the exit check is never
    taken).  The equity curve has one point per trade and the initial one
    (none at all on the early return for fewer than fifty candles), wins and
    losses together never exceed the number of trades, and the win rate is a
    percentage between 0 and 100. *)
Theorem runBacktest_log strategy history initialCapital weights :
  let r := runBacktest score strategy history initialCapital weights in
  Forall (fun t => side t = LONG
                   /\ (reason t = "Stop Loss"%string
                       \/ reason t = "Take Profit"%string))
         (trades r)
  /\ length (equityCurve r)
     = (if (length history <? 50)%nat then 0 else S (totalTrades r))%nat
  /\ totalTrades r = length (trades r)
  /\ (wins r + losses r <= totalTrades r)%nat
  /\ within 0 100 (winRate r).
Proof.
  cbv zeta.
  pose proof (runBacktest_winRate_within strategy history initialCapital
                                         weights) as WR.
  revert WR. unfold runBacktest.
  destruct (length history <? 50)%nat eqn:L.
  - simpl. repeat split; try constructor; try lra.
  - apply Nat.ltb_ge in L. cbv zeta.
    destruct (backtestStateAt_logInvariant
                strategy weights history initialCapital
                (length history - 50) ltac:(lia)) as (Htr & Hlen & _).
    set (st := backtestStateAt _ _ _ _ _ _) in *.
    simpl trades. simpl equityCurve. simpl totalTrades. simpl wins.
    simpl losses. simpl winRate. intro WR.
    split; [exact Htr|]. split; [exact Hlen|]. split; [reflexivity|].
    split; [|exact WR].
    apply countIf_disjoint. intros t. apply gt_not_le.
Qed.

Lemma entrySignal_finite strategy weights prices i candle position (p : Q) :
  at_ prices i = Fin p ->
  entrySignal score strategy weights prices i candle = Some position ->
  isFin (entry position) /\ isFin (sl position) /\ isFin (tp position).
Proof.
  intro Hp. unfold entrySignal. cbv zeta. rewrite Hp.
  destruct strategy.
  - destruct (_ && _); [|discriminate].
    intro E. injection E as <-. simpl. auto.
  - destruct (Trend_eqb _ _); [|discriminate].
    destruct (_ && _); [|discriminate].
    intro E. injection E as <-. simpl. auto.
  - destruct (_ .> _); [|discriminate].
    intro E. injection E as <-. simpl. auto.
Qed.

(** The risk-to-reward ratio of finite levels is a finite number that is
    not negative: the divisor is the risk distance, or 1 when that is 0. *)
Lemma riskReward_finite (e s t : Q) :
  exists rr,
    Js.abs (Fin t .- Fin e)
    ./ orElse (Some (Js.abs (Fin e .- Fin s))) (Fin 1)
    = Fin rr /\ 0 <= rr.
Proof.
  unfold orElse.
  cbn [truthyOpt toNum truthy Js.abs Js.sub Js.neg Js.add].
  pose proof (Qabs_nonneg (e + - s)) as A.
  pose proof (Qabs_nonneg (t + - e)) as B.
  destruct (Qeq_bool (Qabs (e + - s)) 0) eqn:E; cbn [negb Js.div].
  - exists (Qabs (t + - e) / 1). split; [reflexivity|].
    apply Qle_shift_div_l; lra.
  - rewrite E. apply Qeqb_neq in E.
    exists (Qabs (t + - e) / Qabs (e + - s)). split; [reflexivity|].
    apply Qle_shift_div_l; [|lra].
    destruct (Qlt_le_dec 0 (Qabs (e + - s))) as [P|N]; [exact P|].
    exfalso. apply E. lra.
Qed.

Lemma closePosition_equityInvariant st position candle chk :
  equityInvariant st ->
  isFin (entry position) -> isFin (sl position) -> isFin (tp position) ->
  equityInvariant (closePosition_ st position candle chk).
Proof.
  intros ((e & m & d & He & Hm & Hd & Epos & Em & D0 & D100) & Hcurve & Hlog
          & _) Fe Fs Ft.
  destruct (entry position) as [pe| | |] eqn:Ee; try contradiction.
  destruct (sl position) as [ps| | |] eqn:Es; try contradiction.
  destruct (tp position) as [pt| | |] eqn:Et; try contradiction.
  destruct (riskReward_finite pe ps pt) as (rr & Hrr & Rpos).
  unfold closePosition_. cbv zeta. rewrite Ee, Es, Et, He, Hm, Hd, Hrr.
  assert (Gain : 0 <= e * 0.02 * rr).
  { apply Qmult_le_0_compat; [|exact Rpos]. lra. }
  set (b := checkPnl chk .> Fin 0).
  assert (Eq : exists e',
             (if b then Fin e .+ Fin e .* Fin 0.02 .* Fin rr
              else Fin e .- Fin e .* Fin 0.02) = Fin e' /\ 0 < e').
  { destruct b; eexists; (split; [reflexivity|]); lra. }
  destruct Eq as (e' & Ee' & Epos'). rewrite Ee'.
  assert (Mx : exists m', (if Fin e' .> Fin m then Fin e' else Fin m) = Fin m'
                          /\ e' <= m' /\ 0 < m').
  { unfold Js.gt. simpl. destruct (Qltb m e') eqn:C.
    - exists e'. split; [reflexivity|]. split; lra.
    - apply Qltb_ge in C. exists m. split; [reflexivity|]. split; lra. }
  destruct Mx as (m' & Em' & Hle & Mpos). rewrite Em'.
  assert (Z : Qeq_bool m' 0 = false) by (apply Qeqb_neq; lra).
  assert (Dd : (Fin m' .- Fin e') ./ Fin m' .* Fin 100
               = Fin ((m' + - e') / m' * 100)).
  { simpl. rewrite Z. reflexivity. }
  rewrite Dd.
  assert (R0 : 0 <= (m' + - e') / m') by (apply Qle_shift_div_l; lra).
  assert (R1 : (m' + - e') / m' < 1) by (apply Qlt_shift_div_r; lra).
  assert (Dr : exists d',
             (if Fin ((m' + - e') / m' * 100) .> Fin d
              then Fin ((m' + - e') / m' * 100) else Fin d) = Fin d'
             /\ 0 <= d' /\ d' <= 100).
  { unfold Js.gt. simpl.
    destruct (Qltb d ((m' + - e') / m' * 100)).
    - eexists. split; [reflexivity|]. split; lra.
    - exists d. split; [reflexivity|]. split; lra. }
  destruct Dr as (d' & Ed' & D0' & D100'). rewrite Ed'.
  unfold equityInvariant. simpl.
  split; [|split; [|split]].
  - exists e', m', d'. repeat split; lra.
  - apply Forall_app. split; [exact Hcurve|].
    constructor; [exact Epos'|constructor].
  - apply Forall_app. split; [exact Hlog|].
    constructor; [|constructor]. simpl.
    destruct b; exact I.
  - discriminate.
Qed.

Lemma backtestStep_equityInvariant strategy weights history prices st i :
  (forall candle, nth_error history i = Some candle ->
                  isFin (at_ prices i)) ->
  equityInvariant st ->
  equityInvariant (backtestStep score strategy weights history prices st i).
Proof.
  intros Hfin Inv. unfold backtestStep.
  destruct (nth_error history i) as [candle|]; [|exact Inv].
  specialize (Hfin candle eq_refl).
  destruct (btPosition st) as [position|] eqn:P.
  - cbv zeta. destruct (closed _); [|exact Inv].
    destruct Inv as (A & B & C & D).
    destruct (D position P) as (Fe & Fs & Ft).
    apply closePosition_equityInvariant; try assumption.
    exact (conj A (conj B (conj C D))).
  - destruct Inv as (A & B & C & _). unfold equityInvariant. simpl.
    split; [exact A|]. split; [exact B|]. split; [exact C|].
    intros position E.
    destruct (at_ prices i) as [p| | |] eqn:Ep; try contradiction.
    exact (entrySignal_finite _ _ _ _ _ _ p Ep E).
Qed.

Lemma backtestStateAt_equityInvariant strategy weights history (c : Q) n :
  0 < c -> finitePrices history -> (1 <= length history)%nat ->
  equityInvariant (backtestStateAt score strategy weights history (Fin c) n).
Proof.
  intros Hc Hfin Hne. induction n as [|n IH].
  - unfold backtestStateAt, backtestInit, equityInvariant. simpl.
    destruct history as [|h0 rest]; [simpl in Hne; lia|]. simpl.
    split; [|split; [|split]].
    + exists c, c, 0. repeat split; lra.
    + constructor; [exact Hc|constructor].
    + constructor.
    + discriminate.
  - rewrite backtestStateAt_S. apply backtestStep_equityInvariant; [|exact IH].
    intros candle Hc'. rewrite (at_map_price _ _ _ Hc').
    unfold finitePrices in Hfin.
    apply (proj1 (Forall_forall _ _) Hfin candle).
    apply nth_error_In with (n := (50 + n)%nat). exact Hc'.
Qed.

Lemma pnlSum_some (f : TradeLog -> bool) (ts : list TradeLog) (a : Q) :
  Forall (fun t => isFin (pnl t)) ts ->
  exists s, fold_left (fun a b => a .+ pnl b) (filter f ts) (Fin a) = Fin s.
Proof.
  intro Hfin. revert a. induction ts as [|t rest IH]; intro a.
  - exists a. reflexivity.
  - inversion Hfin as [|? ? Ht Hrest]; subst. simpl.
    destruct (f t); [|apply IH; exact Hrest].
    simpl. destruct (pnl t) as [q| | |]; try contradiction.
    simpl. apply IH. exact Hrest.
Qed.

(** The sum of finite results on one side of zero is finite. *)
Lemma pnlSum_finite (f : TradeLog -> bool) (ts : list TradeLog) (a : Q) :
  Forall (fun t => isFin (pnl t)) ts ->
  (forall t q, f t = true -> pnl t = Fin q -> 0 <= q) ->
  0 <= a ->
  exists s,
    fold_left (fun a b => a .+ pnl b) (filter f ts) (Fin a) = Fin s
    /\ 0 <= s.
Proof.
  intros Hfin Hpos. revert a. induction ts as [|t rest IH]; intros a Ha.
  - exists a. split; [reflexivity|exact Ha].
  - inversion Hfin as [|? ? Ht Hrest]; subst. simpl.
    destruct (f t) eqn:F; [|apply IH; assumption].
    simpl. destruct (pnl t) as [q| | |] eqn:Eq; try contradiction.
    simpl. apply IH; [exact Hrest|].
    pose proof (Hpos t q F Eq). lra.
Qed.


(** X3: the score-based entry rule never feeds an ADX or a divergence into
    the score.  It calls [calculateADX] with empty highs and
    [detectRSIDivergence] with an empty RSI series, so whatever the prices
    are the score function receives no ADX and the divergence NONE/WEAK;
    the entry is decided by the score of the RSI, the StochRSI and the
    trend alone, against the threshold 75. *)
Theorem entrySignal_score_inputs weights prices i candle :
  let lookbackPrices := slice prices 0 (i + 1) in
  let currentPrice := at_ prices i in
  entrySignal score SCORE_BASED weights prices i candle
  = if score lookbackPrices (calculateRSI lookbackPrices 14) None
             (calculateStochRSI lookbackPrices 14)
             (trend (analyzeMarketStructure lookbackPrices))
             (mkDivergence NONE WEAK) weights
       .> Fin 75
    then Some (mkPosition LONG currentPrice (time candle)
                          (currentPrice .* Fin 0.98)
                          (currentPrice .* Fin 1.04))
    else None.
Proof.
  cbv zeta. unfold entrySignal. cbv zeta.
  assert (A : forall closes, calculateADX [] [] closes 14 = None)
    by reflexivity.
  assert (D : forall ps, detectRSIDivergence ps [] = mkDivergence NONE WEAK).
  { intro ps. unfold detectRSIDivergence.
    change (length (@nil (option num)) <? 20)%nat with true.
    rewrite orb_true_r. reflexivity. }
  rewrite A, D. reflexivity.
Qed.

(** *** Sensitivity analysis *)

Lemma lt_irrefl (a : num) : (a .< a) = false.
Proof.
  destruct a as [q| | |]; simpl; try reflexivity. apply Qltb_ge. lra.
Qed.

Lemma impactOf_same (a : num) : impactOf a a = NEUTRAL.
Proof. unfold impactOf, Js.gt. rewrite lt_irrefl. reflexivity. Qed.

Section WeightIndependent.

Hypothesis score_ignores_weights :
  forall prices rsi adx stochRsi trend divergence w1 w2,
    score prices rsi adx stochRsi trend divergence w1
    = score prices rsi adx stochRsi trend divergence w2.

Lemma entrySignal_weights strategy w1 w2 prices i candle :
  entrySignal score strategy w1 prices i candle
  = entrySignal score strategy w2 prices i candle.
Proof.
  unfold entrySignal. destruct strategy; try reflexivity.
  cbv zeta.
  rewrite (score_ignores_weights _ _ _ _ _ _ w1 w2). reflexivity.
Qed.

Lemma backtestStateAt_weights strategy w1 w2 history initialCapital n :
  backtestStateAt score strategy w1 history initialCapital n
  = backtestStateAt score strategy w2 history initialCapital n.
Proof.
  induction n as [|n IH]; [reflexivity|].
  rewrite !backtestStateAt_S, IH. unfold backtestStep.
  destruct (nth_error history (50 + n)) as [candle|]; [|reflexivity].
  destruct (btPosition _); [reflexivity|].
  rewrite (entrySignal_weights strategy w1 w2). reflexivity.
Qed.

Lemma runBacktest_weights strategy history initialCapital w1 w2 :
  runBacktest score strategy history initialCapital w1
  = runBacktest score strategy history initialCapital w2.
Proof.
  unfold runBacktest.
  rewrite (backtestStateAt_weights strategy w1 w2). reflexivity.
Qed.

Lemma mostSensitiveStep_same (vs : list Variation) (q : Q)
      (key : WeightKey) :
  Forall (fun v => varWinRate v = Fin q) vs ->
  mostSensitiveStep vs (Fin 0, "None"%string) key = (Fin 0, "None"%string).
Proof.
  intro H. unfold mostSensitiveStep.
  destruct (find _ vs) as [vHigh|] eqn:Eh; [|reflexivity].
  destruct (find (fun v => _ && Change_eqb (varChange v) MINUS_20) vs)
    as [vLow|] eqn:El; [|reflexivity].
  apply find_some in Eh, El. destruct Eh as (Ih & _), El as (Il & _).
  rewrite (proj1 (Forall_forall _ _) H vHigh Ih).
  rewrite (proj1 (Forall_forall _ _) H vLow Il).
  cbv zeta. cbn [Js.sub Js.neg Js.add Js.abs fst Js.gt Js.lt].
  assert (Z : Qltb 0 (Qabs (q + - q)) = false).
  { apply Qltb_ge. assert (E : q + - q == 0) by ring.
    rewrite E. simpl. lra. }
  rewrite Z. reflexivity.
Qed.

(** X4: when the score does not depend on the weight table (as the
    six-argument [calculateTechnicalScore] of [cryptoApi.ts] does not),
    [runSensitivityAnalysis] has nothing to measure: each of its fourteen
    variations repeats the win rate and the profit factor of the base run
    with the impact NEUTRAL, and the most sensitive factor is reported as
    "None". *)
Theorem runSensitivityAnalysis_insensitive (history : list ChartPoint) :
  let report := runSensitivityAnalysis score history in
  let baseResult := runBacktest score SCORE_BASED history (Fin 1000) None in
  length (variations report) = 14%nat
  /\ baseWinRate report = winRate baseResult
  /\ Forall (fun v => varWinRate v = winRate baseResult
                      /\ varProfitFactor v = profitFactor baseResult
                      /\ varImpact v = NEUTRAL)
            (variations report)
  /\ mostSensitiveFactor report = "None"%string.
Proof.
  cbv zeta. unfold runSensitivityAnalysis. cbv zeta.
  set (base := runBacktest score SCORE_BASED history (Fin 1000) None).
  assert (V : forall key,
             factorVariations score history base key
             = [mkVariation key PLUS_20 (winRate base) (profitFactor base)
                            NEUTRAL;
                mkVariation key MINUS_20 (winRate base) (profitFactor base)
                            NEUTRAL]).
  { intro key. unfold factorVariations. cbv zeta.
    rewrite !(runBacktest_weights SCORE_BASED history (Fin 1000) (Some _)
                                  None).
    fold base. rewrite impactOf_same. reflexivity. }
  set (vs := flat_map (factorVariations score history base)
                      sensitivityFactors).
  assert (Evs : vs = flat_map
                       (fun key =>
                          [mkVariation key PLUS_20 (winRate base)
                                       (profitFactor base) NEUTRAL;
                           mkVariation key MINUS_20 (winRate base)
                                       (profitFactor base) NEUTRAL])
                       sensitivityFactors).
  { subst vs. apply flat_map_ext. exact V. }
  clearbody vs.
  assert (All : Forall (fun v => varWinRate v = winRate base
                                 /\ varProfitFactor v = profitFactor base
                                 /\ varImpact v = NEUTRAL) vs).
  { rewrite Evs. simpl. repeat constructor. }
  destruct (runBacktest_winRate score SCORE_BASED history (Fin 1000) None)
    as (q & Hq & _). fold base in Hq.
  assert (Same : Forall (fun v => varWinRate v = Fin q) vs).
  { eapply Forall_impl; [|exact All]. simpl. intros v (E & _).
    rewrite E. exact Hq. }
  assert (F : fold_left (mostSensitiveStep vs) sensitivityFactors
                        (Fin 0, "None"%string)
              = (Fin 0, "None"%string)).
  { unfold sensitivityFactors. simpl.
    rewrite !(mostSensitiveStep_same vs q _ Same). reflexivity. }
  rewrite F. simpl.
  split; [rewrite Evs; reflexivity|]. split; [reflexivity|].
  split; [exact All|reflexivity].
Qed.

End WeightIndependent.

(** *** Walk-forward windows and aggregates *)

(** X5: with a positive test size the walk-forward analysis returns, and
    its windows start at the multiples of the test size, [windowCount] of
    them: none unless the history is longer than a train and a test window
    together, and then [(length - (trainSize + testSize) - 1) / testSize + 1].
    Every window ends before the last candle of the history, so the most
    recent candle is never part of a test window. *)
Theorem walkForward_windows strategy history trainSize testSize :
  (0 < testSize)%nat ->
  exists r,
    runWalkForwardAnalysis score strategy history trainSize testSize = Some r
    /\ map windowIndex (periodResults r)
       = map (fun k => k * testSize)%nat
             (seq 0 (windowCount (length history) trainSize testSize 0))
    /\ (1 <= length (periodResults r)
        <-> trainSize + testSize < length history)%nat
    /\ Forall (fun w => windowIndex w + trainSize + testSize
                        < length history)%nat
              (periodResults r).
Proof.
  intro Hpos. unfold runWalkForwardAnalysis.
  destruct (walkForwardLoop_windows score strategy history trainSize testSize
                                    Hpos (S (length history)) 0%nat [])
    as (rs & E & M); [lia|].
  rewrite E. eexists. split; [reflexivity|]. simpl periodResults.
  simpl in M.
  assert (Len : length rs = windowCount (length history) trainSize testSize 0).
  { rewrite <- (length_map windowIndex), M, length_map, length_seq.
    reflexivity. }
  split; [exact M|]. split.
  - rewrite Len. unfold windowCount. simpl.
    destruct (trainSize + testSize <? length history)%nat eqn:C.
    + apply Nat.ltb_lt in C. split; intro; lia.
    + apply Nat.ltb_ge in C. split; intro; lia.
  - apply Forall_forall. intros w Hw.
    assert (Hi : In (windowIndex w) (map windowIndex rs))
      by (apply in_map; exact Hw).
    rewrite M in Hi. apply in_map_iff in Hi.
    destruct Hi as (k & Ek & Hk). apply in_seq in Hk.
    unfold windowCount in Hk. simpl in Hk.
    destruct (trainSize + testSize <? length history)%nat eqn:C; [|lia].
    apply Nat.ltb_lt in C.
    assert (D : (testSize
                 * ((length history - (trainSize + testSize) - 1 - 0)
                    / testSize)
                 <= length history - (trainSize + testSize) - 1 - 0)%nat)
      by (apply Nat.Div0.mul_div_le).
    assert (K : (k * testSize
                 <= testSize
                    * ((length history - (trainSize + testSize) - 1 - 0)
                       / testSize))%nat).
    { rewrite (Nat.mul_comm k). apply Nat.mul_le_mono_l. lia. }
    rewrite <- Ek. lia.
Qed.

Lemma walkForwardLoop_zero_step strategy history trainSize :
  (trainSize < length history)%nat ->
  forall fuel results,
    walkForwardLoop score fuel strategy history trainSize 0 0 results = None.
Proof.
  intro H.
  assert (C : (Z.of_nat 0 <? Z.of_nat (length history)
                             - Z.of_nat (trainSize + 0))%Z = true)
    by (apply Z.ltb_lt; lia).
  induction fuel as [|fuel IH]; intro results.
  - simpl. simpl in C. rewrite C. reflexivity.
  - cbn [walkForwardLoop]. rewrite C.
    assert (L : (length (slice history (0 + trainSize) (0 + trainSize + 0))
                 <? 0)%nat = false) by (apply Nat.ltb_ge; lia).
    rewrite L. cbv zeta. change (0 + 0)%nat with 0%nat. apply IH.
Qed.

(** X6: a test size of 0 makes the window counter stand still.  On a
    history longer than the train window the loop then never ends (each
    round appends one more result for the start index 0), so the analysis
    returns nothing. *)
Theorem runWalkForwardAnalysis_zero_test strategy history trainSize :
  (trainSize < length history)%nat ->
  runWalkForwardAnalysis score strategy history trainSize 0 = None.
Proof.
  intro H. unfold runWalkForwardAnalysis.
  rewrite (walkForwardLoop_zero_step strategy history trainSize H).
  reflexivity.
Qed.

Lemma periodStability_within (r : PeriodResult) :
  within 0 100 (winRate (train r)) -> within 0 100 (winRate (test r)) ->
  within 0 100 (periodStability r).
Proof.
  unfold periodStability. cbv zeta.
  destruct (winRate (train r)) as [a| | |]; try contradiction.
  destruct (winRate (test r)) as [b| | |]; try contradiction.
  intros Ha Hb. cbn [Js.sub Js.neg Js.add Js.abs].
  pose proof (Qabs_nonneg (a + - b)) as N.
  unfold Js.max. cbn [isNaN orb Js.lt].
  destruct (Qltb 0 (100 + - Qabs (a + - b))) eqn:E; cbn [within].
  - apply Qltb_lt in E. lra.
  - lra.
Qed.

Lemma sum_within {A} (f : A -> num) (xs : list A) (a : Q) :
  Forall (fun x => within 0 100 (f x)) xs ->
  exists s,
    fold_left (fun s x => s .+ f x) xs (Fin a) = Fin s
    /\ a <= s
    /\ s <= a + 100 * inject_Z (Z.of_nat (length xs)).
Proof.
  intro H. revert a. induction xs as [|x rest IH]; intro a.
  - exists a. split; [reflexivity|]. split; [lra|].
    change (inject_Z (Z.of_nat (length (@nil A)))) with 0. lra.
  - inversion H as [|? ? Hx Hrest]; subst.
    cbn [fold_left]. destruct (f x) as [q| | |]; try contradiction.
    simpl in Hx. cbn [Js.add].
    destruct (IH Hrest (a + q)) as (s & E & L & U).
    exists s. split; [exact E|]. split; [lra|].
    assert (N : inject_Z (Z.of_nat (length (x :: rest)))
                == inject_Z (Z.of_nat (length rest)) + 1).
    { simpl length. rewrite Nat2Z.inj_succ. unfold Z.succ.
      rewrite inject_Z_plus. reflexivity. }
    rewrite N. lra.
Qed.

Lemma mean_within (s : Q) (n : nat) :
  (0 < n)%nat -> 0 <= s -> s <= 0 + 100 * inject_Z (Z.of_nat n) ->
  within 0 100 (Fin s ./ ofNat n).
Proof.
  intros Hn L U. unfold ofNat. cbn [Js.div].
  assert (P : 0 < inject_Z (Z.of_nat n)) by (unfold Qlt; simpl; lia).
  assert (Z : Qeq_bool (inject_Z (Z.of_nat n)) 0 = false)
    by (apply Qeqb_neq; lra).
  rewrite Z. cbn [within]. split.
  - apply Qle_shift_div_l; lra.
  - apply Qle_shift_div_r; lra.
Qed.

(** X7: with a positive test size the two aggregates of the walk-forward
    analysis are percentages: the overall stability and the average test
    win rate both lie between 0 and 100, as does the stability of every
    window. *)
Theorem runWalkForwardAnalysis_aggregates strategy history trainSize testSize :
  (0 < testSize)%nat ->
  exists r,
    runWalkForwardAnalysis score strategy history trainSize testSize = Some r
    /\ within 0 100 (overallStability r)
    /\ within 0 100 (averageWinRate r)
    /\ Forall (fun w => within 0 100 (periodStability w)) (periodResults r).
Proof.
  intro Hpos. unfold runWalkForwardAnalysis.
  destruct (walkForwardLoop_total
              score
              (fun w => within 0 100 (winRate (train w))
                        /\ within 0 100 (winRate (test w)))
              strategy history trainSize testSize Hpos)
    with (fuel := S (length history)) (i := 0%nat)
         (results := @nil PeriodResult) as (rs & E & HP).
  - intros i cap. left. simpl. split; apply runBacktest_winRate_within.
  - lia.
  - constructor.
  - rewrite E. eexists. split; [reflexivity|].
    assert (St : Forall (fun w => within 0 100 (periodStability w)) rs).
    { eapply Forall_impl; [|exact HP]. simpl. intros w (A & B).
      apply periodStability_within; assumption. }
    assert (Te : Forall (fun w => within 0 100 (winRate (test w))) rs).
    { eapply Forall_impl; [|exact HP]. simpl. intros w (_ & B). exact B. }
    simpl overallStability. simpl averageWinRate. simpl periodResults.
    destruct (0 <? length rs)%nat eqn:N.
    + apply Nat.ltb_lt in N.
      destruct (sum_within periodStability rs 0 St) as (s1 & E1 & L1 & U1).
      destruct (sum_within (fun w => winRate (test w)) rs 0 Te)
        as (s2 & E2 & L2 & U2).
      rewrite E1, E2.
      split; [apply mean_within; assumption|].
      split; [apply mean_within; assumption|exact St].
    + split; [simpl; lra|]. split; [simpl; lra|exact St].
Qed.

End BacktestInvariants.

(** ** Concrete instances of the simulation properties *)


Lemma runSensitivityAnalysis_insensitive_witness :
  (forall prices rsi adx stochRsi trend divergence
          (w1 w2 : option ScoreWeights),
      unweightedScore prices rsi adx stochRsi trend divergence w1
      = unweightedScore prices rsi adx stochRsi trend divergence w2)
  /\ (let report := runSensitivityAnalysis unweightedScore dipHistory in
      let baseResult :=
        runBacktest unweightedScore SCORE_BASED dipHistory (Fin 1000) None in
      length (variations report) = 14%nat
      /\ baseWinRate report = winRate baseResult
      /\ Forall (fun v => varWinRate v = winRate baseResult
                          /\ varProfitFactor v = profitFactor baseResult
                          /\ varImpact v = NEUTRAL)
                (variations report)
      /\ mostSensitiveFactor report = "None"%string).
Proof.
  assert (I : forall prices rsi adx stochRsi trend divergence
                     (w1 w2 : option ScoreWeights),
             unweightedScore prices rsi adx stochRsi trend divergence w1
             = unweightedScore prices rsi adx stochRsi trend divergence w2)
    by (intros; reflexivity).
  split; [exact I|].
  exact (runSensitivityAnalysis_insensitive unweightedScore I dipHistory).
Defined.

Lemma walkForward_windows_witness :
  (0 < 4)%nat
  /\ exists r,
      runWalkForwardAnalysis unweightedScore TREND_FOLLOWING
                             (repeat flatCandle 12) 3 4
      = Some r
      /\ map windowIndex (periodResults r)
         = map (fun k => k * 4)%nat
               (seq 0 (windowCount (length (repeat flatCandle 12)) 3 4 0))
      /\ (1 <= length (periodResults r)
          <-> 3 + 4 < length (repeat flatCandle 12))%nat
      /\ Forall (fun w => windowIndex w + 3 + 4
                          < length (repeat flatCandle 12))%nat
                (periodResults r).
Proof.
  assert (P : (0 < 4)%nat) by lia.
  split; [exact P|].
  exact (walkForward_windows unweightedScore TREND_FOLLOWING
                             (repeat flatCandle 12) 3 4 P).
Defined.

Lemma runWalkForwardAnalysis_zero_test_witness :
  (3 < length (repeat flatCandle 12))%nat
  /\ runWalkForwardAnalysis unweightedScore TREND_FOLLOWING
                            (repeat flatCandle 12) 3 0
     = None.
Proof.
  assert (L : (3 < length (repeat flatCandle 12))%nat) by (simpl; lia).
  split; [exact L|].
  exact (runWalkForwardAnalysis_zero_test unweightedScore TREND_FOLLOWING
                                          (repeat flatCandle 12) 3 L).
Defined.

Lemma runWalkForwardAnalysis_aggregates_witness :
  (0 < 4)%nat
  /\ exists r,
      runWalkForwardAnalysis unweightedScore TREND_FOLLOWING
                             (repeat flatCandle 12) 3 4
      = Some r
      /\ within 0 100 (overallStability r)
      /\ within 0 100 (averageWinRate r)
      /\ Forall (fun w => within 0 100 (periodStability w))
                (periodResults r).
Proof.
  assert (P : (0 < 4)%nat) by lia.
  split; [exact P|].
  exact (runWalkForwardAnalysis_aggregates unweightedScore TREND_FOLLOWING
                                           (repeat flatCandle 12) 3 4 P).
Defined.

(** * Indicators, structure and classifiers

    The arithmetic of the model is exact, where the program rounds to
    binary64.  Bounds that hold only in exact arithmetic are kept in
    lemmas, marked as such; the theorems state what does not depend on
    rounding: which entries are defined, signs and zeros, counts, order
    and clamps. *)

(** ** Finite arrays *)

Lemma ofNat_S (n : nat) :
  inject_Z (Z.of_nat (S n)) == inject_Z (Z.of_nat n) + 1.
Proof.
  rewrite Nat2Z.inj_succ. unfold Z.succ. rewrite inject_Z_plus. reflexivity.
Qed.

Lemma ofNat_pos (n : nat) : (1 <= n)%nat -> 0 < inject_Z (Z.of_nat n).
Proof. intro H. unfold Qlt. simpl. lia. Qed.

Lemma ofNat_nonneg (n : nat) : 0 <= inject_Z (Z.of_nat n).
Proof. unfold Qle. simpl. lia. Qed.

Lemma nth_error_in_range {A} (xs : list A) (i : nat) :
  (i < length xs)%nat -> exists x, nth_error xs i = Some x.
Proof.
  intro H. destruct (nth_error xs i) as [x|] eqn:E.
  - exists x. reflexivity.
  - apply nth_error_None in E. lia.
Qed.

Lemma nth_error_map_Fin (qs : list Q) (i : nat) (lo hi : Q) :
  allWithin lo hi qs -> (i < length qs)%nat ->
  exists q, nth_error (map Fin qs) i = Some (Fin q) /\ lo <= q <= hi.
Proof.
  intros H L. rewrite nth_error_map.
  destruct (nth_error qs i) as [q|] eqn:E.
  - exists q. split; [reflexivity|].
    exact (proj1 (Forall_forall _ _) H _ (nth_error_In _ _ E)).
  - apply nth_error_None in E. lia.
Qed.

Lemma lastN_map {A B} (f : A -> B) (n : nat) (xs : list A) :
  lastN n (map f xs) = map f (lastN n xs).
Proof.
  unfold lastN. rewrite length_map. destruct (n =? 0)%nat; [reflexivity|].
  apply skipn_map.
Qed.

Lemma lastN_Forall {A} (P : A -> Prop) (n : nat) (xs : list A) :
  Forall P xs -> Forall P (lastN n xs).
Proof.
  intro H. unfold lastN. destruct (n =? 0)%nat; [exact H|].
  apply Forall_forall. intros x Hx.
  apply (proj1 (Forall_forall _ _) H).
  rewrite <- (firstn_skipn (length xs - n) xs). apply in_or_app. right.
  exact Hx.
Qed.

Lemma lastN_length {A} (n : nat) (xs : list A) :
  (1 <= n <= length xs)%nat -> length (lastN n xs) = n.
Proof.
  intro H. unfold lastN.
  destruct (n =? 0)%nat eqn:E; [apply Nat.eqb_eq in E; lia|].
  rewrite length_skipn. lia.
Qed.

(** The sum of finite numbers between two bounds. *)
Lemma sum_bounds (xs : list Q) (lo hi a : Q) :
  allWithin lo hi xs ->
  exists s,
    fold_left Js.add (map Fin xs) (Fin a) = Fin s
    /\ a + inject_Z (Z.of_nat (length xs)) * lo <= s
    /\ s <= a + inject_Z (Z.of_nat (length xs)) * hi.
Proof.
  intro H. revert a. induction xs as [|x rest IH]; intro a.
  - exists a. split; [reflexivity|].
    change (inject_Z (Z.of_nat (length (@nil Q)))) with 0. split; lra.
  - inversion H as [|? ? Hx Hrest]; subst.
    destruct (IH Hrest (a + x)) as (s & E & L & U).
    exists s. split; [exact E|].
    pose proof (ofNat_S (length rest)) as N. simpl length.
    rewrite N. split; lra.
Qed.

(** The mean of [n] finite numbers between two bounds lies between them. *)
Lemma mean_bounds (xs : list Q) (lo hi : Q) (n : nat) :
  allWithin lo hi xs -> length xs = n -> (1 <= n)%nat ->
  exists m, Js.sum (map Fin xs) ./ ofNat n = Fin m /\ lo <= m <= hi.
Proof.
  intros H L Hn. unfold Js.sum.
  destruct (sum_bounds xs lo hi 0 H) as (s & E & Lo & Hi). rewrite E.
  rewrite L in Lo, Hi. unfold ofNat. cbn [Js.div].
  pose proof (ofNat_pos n Hn) as P.
  assert (Z : Qeq_bool (inject_Z (Z.of_nat n)) 0 = false)
    by (apply Qeqb_neq; lra).
  rewrite Z. eexists. split; [reflexivity|]. split.
  - apply Qle_shift_div_l; lra.
  - apply Qle_shift_div_r; lra.
Qed.

(** Every finite array lies between two bounds, and one that has a lower
    bound keeps it. *)
Lemma allWithin_above (lo : Q) (qs : list Q) :
  Forall (fun q => lo <= q) qs -> exists hi, allWithin lo hi qs.
Proof.
  induction 1 as [|x rest Hx Hrest (hi & IH)].
  - exists lo. constructor.
  - destruct (Qlt_le_dec hi x) as [L|G].
    + exists x. constructor; [split; lra|].
      apply Forall_forall. intros y Hy.
      assert (lo <= y <= hi) by exact (proj1 (Forall_forall _ _) IH y Hy).
      split; lra.
    + exists hi. constructor; [split; lra|exact IH].
Qed.

Lemma allWithin_cover (qs : list Q) : exists lo hi, allWithin lo hi qs.
Proof.
  assert (L : exists lo, Forall (fun q => lo <= q) qs).
  { induction qs as [|x rest (lo & IH)].
    - exists 0. constructor.
    - destruct (Qlt_le_dec x lo) as [L|G].
      + exists x. constructor; [lra|].
        apply Forall_forall. intros y Hy.
        assert (lo <= y) by exact (proj1 (Forall_forall _ _) IH y Hy).
        lra.
      + exists lo. constructor; assumption. }
  destruct L as (lo & L). destruct (allWithin_above lo qs L) as (hi & H).
  exists lo, hi. exact H.
Qed.

(** ** Exponential moving average *)

Lemma emaSeed_bounds (qs : list Q) (lo hi : Q) (n : nat) :
  allWithin lo hi qs -> (n <= length qs)%nat ->
  exists s,
    fold_left (fun s i => s .+ orElse (nth_error (map Fin qs) i) (Fin 0))
              (seq 0 n) (Fin 0)
    = Fin s
    /\ inject_Z (Z.of_nat n) * lo <= s
    /\ s <= inject_Z (Z.of_nat n) * hi.
Proof.
  intros H. induction n as [|n IH]; intro L.
  - exists 0. split; [reflexivity|].
    change (inject_Z (Z.of_nat 0)) with 0. split; lra.
  - destruct IH as (s & E & Lo & Hi); [lia|].
    rewrite seq_S, fold_left_app, E. cbn [fold_left Nat.add].
    destruct (nth_error_map_Fin qs n lo hi H) as (q & Eq & Hq); [lia|].
    rewrite Eq. unfold orElse. cbn [truthyOpt truthy toNum].
    pose proof (ofNat_S n) as N.
    destruct (Qeq_bool q 0) eqn:Z; cbn [negb Js.add].
    + apply Qeq_bool_iff in Z. eexists. split; [reflexivity|].
      rewrite N. split; lra.
    + eexists. split; [reflexivity|]. rewrite N. split; lra.
Qed.

(** The smoothing factor [2 / (period + 1)]. *)
Lemma emaFactor (period : nat) :
  (1 <= period)%nat ->
  exists k, Fin 2 ./ (ofNat period .+ Fin 1) = Fin k /\ 0 < k /\ k <= 1.
Proof.
  intro Hp. unfold ofNat. cbn [Js.add Js.div].
  pose proof (ofNat_pos period Hp) as P.
  assert (One : 1 <= inject_Z (Z.of_nat period))
    by (unfold Qle; simpl; lia).
  assert (Z : Qeq_bool (inject_Z (Z.of_nat period) + 1) 0 = false)
    by (apply Qeqb_neq; lra).
  rewrite Z. eexists. split; [reflexivity|]. split.
  - apply Qlt_shift_div_l; lra.
  - apply Qle_shift_div_r; lra.
Qed.

Lemma emaLoop_bounds (k lo hi : Q) (ps : list Q) :
  0 < k -> k <= 1 -> allWithin lo hi ps ->
  forall (e : Q) (arr : list num),
    lo <= e <= hi ->
    exists e' es,
      fold_left
        (fun (st : num * list num) (p : num) =>
           let ema := p .* Fin k .+ fst st .* (Fin 1 .- Fin k) in
           (ema, snd st ++ [ema]))
        (map Fin ps) (Fin e, arr)
      = (Fin e', arr ++ map Fin es)
      /\ length es = length ps /\ allWithin lo hi es.
Proof.
  intros K0 K1 H.
  set (step := fun (st : num * list num) (p : num) =>
                 let ema := p .* Fin k .+ fst st .* (Fin 1 .- Fin k) in
                 (ema, snd st ++ [ema])).
  induction ps as [|p rest IH]; intros e arr He.
  - exists e, []. rewrite app_nil_r. repeat split. constructor.
  - inversion H as [|? ? Hp Hrest]; subst.
    change (fold_left step (map Fin (p :: rest)) (Fin e, arr))
      with (fold_left step (map Fin rest) (step (Fin e, arr) (Fin p))).
    assert (S : step (Fin e, arr) (Fin p)
                = (Fin (p * k + e * (1 + - k)),
                   arr ++ [Fin (p * k + e * (1 + - k))])) by reflexivity.
    rewrite S.
    assert (B : lo <= p * k + e * (1 + - k) <= hi) by (split; nra).
    destruct (IH Hrest _ (arr ++ [Fin (p * k + e * (1 + - k))]) B)
      as (e' & es & E & Len & All).
    exists e', ((p * k + e * (1 + - k)) :: es).
    rewrite E, <- app_assoc. split; [reflexivity|].
    split; [simpl; lia|]. constructor; assumption.
Qed.

(** The shape of the series: [period - 1] times [NaN], then one average per
    remaining index, each between the bounds of the prices in the exact
    arithmetic of the model. *)
Lemma calculateEMA_shape (qs : list Q) (period : nat) (lo hi : Q) :
  (1 <= period <= length qs)%nat -> allWithin lo hi qs ->
  exists es,
    calculateEMA (map Fin qs) period = fill (period - 1) NaN ++ map Fin es
    /\ length es = (length qs - period + 1)%nat
    /\ allWithin lo hi es.
Proof.
  intros Hp H. unfold calculateEMA. rewrite length_map.
  assert (L : (length qs <? period)%nat = false) by (apply Nat.ltb_ge; lia).
  rewrite L. cbv zeta.
  destruct (emaFactor period) as (k & Ek & K0 & K1); [lia|]. rewrite Ek.
  destruct (emaSeed_bounds qs lo hi period H) as (s & Es & Lo & Hi); [lia|].
  rewrite Es.
  pose proof (ofNat_pos period (proj1 Hp)) as P.
  assert (Z : Qeq_bool (inject_Z (Z.of_nat period)) 0 = false)
    by (apply Qeqb_neq; lra).
  unfold ofNat. cbn [Js.div]. rewrite Z.
  assert (B : lo <= s / inject_Z (Z.of_nat period) <= hi).
  { split; [apply Qle_shift_div_l|apply Qle_shift_div_r]; lra. }
  rewrite skipn_map.
  assert (Hs : allWithin lo hi (skipn period qs)).
  { apply Forall_forall. intros x Hx.
    apply (proj1 (Forall_forall _ _) H).
    rewrite <- (firstn_skipn period qs). apply in_or_app. right. exact Hx. }
  destruct (emaLoop_bounds k lo hi (skipn period qs) K0 K1 Hs _
                           (fill (period - 1) NaN
                            ++ [Fin (s / inject_Z (Z.of_nat period))]) B)
    as (e' & es & E & Len & All).
  cbv zeta in E. rewrite E. cbn [snd].
  exists ((s / inject_Z (Z.of_nat period)) :: es).
  rewrite <- app_assoc. split; [reflexivity|].
  split; [simpl; rewrite Len, length_skipn; lia|].
  constructor; assumption.
Qed.

(** An entry from index [period - 1] on, in the exact arithmetic of the
    model. *)
Lemma calculateEMA_entry (qs : list Q) (period : nat) (lo hi : Q) (i : nat) :
  (1 <= period <= length qs)%nat -> allWithin lo hi qs ->
  (period - 1 <= i < length qs)%nat ->
  exists e,
    nth_error (calculateEMA (map Fin qs) period) i = Some (Fin e)
    /\ lo <= e <= hi.
Proof.
  intros Hp H Hi.
  destruct (calculateEMA_shape qs period lo hi Hp H) as (es & E & Len & All).
  rewrite E. unfold fill.
  rewrite nth_error_app2 by (rewrite repeat_length; lia).
  rewrite repeat_length.
  apply (nth_error_map_Fin es (i - (period - 1)) lo hi All). lia.
Qed.


(** ** Average true range *)

Lemma trueRange_bounds (h l c lo hi : Q) :
  lo <= h <= hi -> lo <= l <= hi -> lo <= c <= hi ->
  exists t,
    maxList [Fin h .- Fin l; Js.abs (Fin h .- Fin c);
             Js.abs (Fin l .- Fin c)]
    = Fin t
    /\ 0 <= t <= hi - lo.
Proof.
  intros Hh Hl Hc. unfold maxList.
  cbn [fold_left Js.sub Js.neg Js.add Js.abs].
  pose proof (Qabs_nonneg (h + - c)) as N1.
  pose proof (Qabs_nonneg (l + - c)) as N2.
  assert (U1 : Qabs (h + - c) <= hi - lo)
    by (apply Qabs_Qle_condition; split; lra).
  assert (U2 : Qabs (l + - c) <= hi - lo)
    by (apply Qabs_Qle_condition; split; lra).
  revert N1 N2 U1 U2.
  generalize (Qabs (h + - c)) as a. generalize (Qabs (l + - c)) as b.
  intros b a N1 N2 U1 U2.
  unfold Js.max. cbn [isNaN orb Js.lt].
  destruct (Qltb (h + - l) a) eqn:E1; cbn [isNaN orb Js.lt].
  - destruct (Qltb a b) eqn:E2; eexists; (split; [reflexivity|]); lra.
  - apply Qltb_ge in E1.
    destruct (Qltb (h + - l) b) eqn:E2; eexists; (split; [reflexivity|]);
      lra.
Qed.

Lemma trueRanges (hs ls cs : list Q) (lo hi : Q) (n : nat) :
  allWithin lo hi hs -> allWithin lo hi ls -> allWithin lo hi cs ->
  length ls = length hs -> length cs = length hs ->
  forall a, (1 <= a)%nat -> (a + n <= length hs)%nat ->
  exists ts,
    map (fun i =>
           let hl := at_ (map Fin hs) i .- at_ (map Fin ls) i in
           let hc := Js.abs (at_ (map Fin hs) i
                             .- at_ (map Fin cs) (i - 1)) in
           let lc := Js.abs (at_ (map Fin ls) i
                             .- at_ (map Fin cs) (i - 1)) in
           maxList [hl; hc; lc])
        (seq a n)
    = map Fin ts
    /\ length ts = n /\ allWithin 0 (hi - lo) ts.
Proof.
  intros Hh Hl Hc Ll Lc. induction n as [|n IH]; intros a Ha Hn.
  - exists []. repeat split. constructor.
  - destruct (IH (S a)) as (ts & E & Len & All); [lia|lia|].
    destruct (nth_error_map_Fin hs a lo hi Hh) as (h & Eh & Bh); [lia|].
    destruct (nth_error_map_Fin ls a lo hi Hl) as (l & El & Bl); [lia|].
    destruct (nth_error_map_Fin cs (a - 1) lo hi Hc) as (c & Ec & Bc);
      [lia|].
    destruct (trueRange_bounds h l c lo hi Bh Bl Bc) as (t & Et & Bt).
    exists (t :: ts). cbv zeta in E. cbn [seq map]. rewrite E.
    unfold at_ at 1 2 3 4 5 6.
    rewrite Eh, El, Ec. cbn [toNum]. rewrite Et.
    split; [reflexivity|]. split; [simpl; lia|].
    constructor; assumption.
Qed.

(** The average of the last [period] true ranges of finite candles, in the
    exact arithmetic of the model. *)
Lemma calculateATR_bounds (hs ls cs : list Q) (period : nat) (lo hi : Q) :
  (1 <= period)%nat -> length ls = length hs -> length cs = length hs ->
  allWithin lo hi hs -> allWithin lo hi ls -> allWithin lo hi cs ->
  (period < length hs)%nat ->
  exists a,
    calculateATR (map Fin hs) (map Fin ls) (map Fin cs) period
    = Some (Fin a)
    /\ 0 <= a <= hi - lo.
Proof.
  intros Hp Ll Lc Hh Hl Hc L. unfold calculateATR. rewrite length_map.
  assert (S : (length hs <? period + 1)%nat = false)
    by (apply Nat.ltb_ge; lia).
  rewrite S. cbv zeta.
  destruct (trueRanges hs ls cs lo hi (length hs - 1) Hh Hl Hc Ll Lc 1%nat)
    as (ts & E & Len & All); [lia|lia|].
  cbv zeta in E. rewrite E. rewrite length_map, Len.
  assert (T : (length hs - 1 <? period)%nat = false)
    by (apply Nat.ltb_ge; lia).
  rewrite T. rewrite lastN_map.
  destruct (mean_bounds (lastN period ts) 0 (hi - lo) period)
    as (m & Em & Bm).
  - apply lastN_Forall. exact All.
  - apply lastN_length. lia.
  - exact Hp.
  - rewrite Em. exists m. split; [reflexivity|exact Bm].
Qed.


(** ** Trend strength *)

Lemma clamp_right (lo hi : Q) (s : num) :
  lo <= hi -> isFin s ->
  within lo hi (Js.min (Js.max s (Fin lo)) (Fin hi)).
Proof.
  intros Hlh Hs. destruct s as [x| | |]; try contradiction.
  unfold Js.max. cbn [isNaN orb Js.lt].
  destruct (Qltb x lo) eqn:E1; unfold Js.min; cbn [isNaN orb Js.lt].
  - destruct (Qltb hi lo) eqn:E2; cbn [within].
    + apply Qltb_lt in E2. lra.
    + lra.
  - apply Qltb_ge in E1.
    destruct (Qltb hi x) eqn:E2; cbn [within].
    + lra.
    + apply Qltb_ge in E2. lra.
Qed.

Lemma sum_finite (xs : list num) (a : Q) :
  Forall isFin xs -> isFin (fold_left Js.add xs (Fin a)).
Proof.
  intro H. revert a. induction xs as [|x rest IH]; intro a; [exact I|].
  inversion H as [|? ? Hx Hrest]; subst.
  destruct x as [q| | |]; try contradiction. apply IH. exact Hrest.
Qed.

Lemma closeChanges_finite (qs : list Q) :
  Forall isFin
         (mapi (fun i c => if (i =? 0)%nat then Fin 0
                           else Js.abs (c .- at_ (map Fin qs) (i - 1)))
               (map Fin qs)).
Proof.
  apply Forall_forall. intros x Hx.
  apply In_nth_error in Hx. destruct Hx as (i & Hi).
  unfold mapi in Hi. rewrite nth_error_mapiFrom in Hi.
  rewrite nth_error_map in Hi.
  destruct (nth_error qs i) as [q|] eqn:E; [|discriminate].
  simpl in Hi. injection Hi as <-.
  destruct i as [|j]; [exact I|]. cbn [Nat.eqb].
  destruct (at_map_Fin qs (S j - 1)) as (c & Ec).
  - assert (N : nth_error qs (S j) <> None) by congruence.
    apply nth_error_Some in N. lia.
  - rewrite Ec. exact I.
Qed.

(** X10: for finite closes and a period of at least 1, [calculateADX]
    returns nothing exactly when there are fewer than twice the period
    highs, or no close, or a last close of 0 (both directions); and any
    value it returns is a finite number between 10 and 60, whatever the
    highs and the lows are. *)
Theorem calculateADX_range (highs lows : list num) (cs : list Q)
        (period : nat) :
  (1 <= period)%nat ->
  (calculateADX highs lows (map Fin cs) period = None
   <-> ((length highs < period * 2)%nat \/ cs = []
        \/ exists c, fromEnd cs 0 = Some c /\ c == 0))
  /\ (forall v, calculateADX highs lows (map Fin cs) period = Some v ->
                within 10 60 v).
Proof.
  intro Hp. unfold calculateADX.
  destruct (Nat.ltb_spec (length highs) (period * 2)) as [S|S].
  { split; [|discriminate]. split; [intros _; left; exact S|reflexivity]. }
  cbv zeta. rewrite length_map.
  destruct cs as [|c0 rest] eqn:Ecs.
  { split; [|discriminate].
    split; [intros _; right; left; reflexivity|reflexivity]. }
  rewrite <- Ecs.
  assert (Len : (length cs =? 0)%nat = false)
    by (rewrite Ecs; reflexivity).
  rewrite Len. cbn [orb].
  assert (Last : exists c, fromEnd cs 0 = Some c
                           /\ fromEnd (map Fin cs) 0 = Some (Fin c)).
  { unfold fromEnd. rewrite length_map, nth_error_map.
    assert (P : (0 <? length cs)%nat = true)
      by (apply Nat.ltb_lt; rewrite Ecs; simpl; lia).
    rewrite P.
    destruct (nth_error cs (length cs - 1 - 0)) as [c|] eqn:N.
    - exists c. split; reflexivity.
    - apply nth_error_None in N. rewrite Ecs in N. simpl in N. lia. }
  destruct Last as (c & Lc & Lf). rewrite Lf. cbn [toNum Js.eq].
  destruct (Qeq_bool c 0) eqn:Z.
  - split; [|discriminate]. split; [|reflexivity].
    intros _. right. right. exists c. split; [exact Lc|].
    apply Qeq_bool_iff. exact Z.
  - split.
    + split; [discriminate|].
      intros [Short|[Empty|(c' & Lc' & Hc')]].
      * lia.
      * rewrite Ecs in Empty. discriminate Empty.
      * rewrite Lc in Lc'. injection Lc' as <-.
        apply Qeq_bool_iff in Hc'. congruence.
    + intros v Hv. injection Hv as <-. apply clamp_right; [lra|].
      rewrite lastN_map.
      pose proof (sum_finite _ 0 (closeChanges_finite (lastN period cs)))
        as F.
      unfold Js.sum.
      destruct (fold_left Js.add _ (Fin 0)) as [s| | |]; try contradiction.
      unfold ofNat. cbn [Js.div].
      pose proof (ofNat_pos period Hp) as P.
      assert (Zp : Qeq_bool (inject_Z (Z.of_nat period)) 0 = false)
        by (apply Qeqb_neq; lra).
      rewrite Zp. cbn [Js.div]. rewrite Z. exact I.
Qed.

(** ** Fibonacci levels *)

Lemma fibRange_bounds (qs : list Q) :
  forall lo hi : Q,
    lo <= hi ->
    exists lo' hi',
      fold_left
        (fun (mm : num * num) p =>
           let min := if p .< fst mm then p else fst mm in
           let max := if p .> snd mm then p else snd mm in
           (min, max))
        (map Fin qs) (Fin lo, Fin hi)
      = (Fin lo', Fin hi')
      /\ lo' <= lo /\ hi <= hi'
      /\ allWithin lo' hi' qs
      /\ (lo' = lo \/ In lo' qs) /\ (hi' = hi \/ In hi' qs).
Proof.
  induction qs as [|q rest IH]; intros lo hi Hlh.
  - exists lo, hi. split; [reflexivity|]. split; [lra|]. split; [lra|].
    split; [constructor|]. split; left; reflexivity.
  - cbn [map fold_left fst snd]. cbv zeta. unfold Js.gt. cbn [Js.lt].
    destruct (Qltb q lo) eqn:E1; destruct (Qltb hi q) eqn:E2;
      try apply Qltb_lt in E1; try apply Qltb_lt in E2;
      try apply Qltb_ge in E1; try apply Qltb_ge in E2.
    + lra.
    + destruct (IH q hi) as (lo' & hi' & E & L & U & All & Il & Ih); [lra|].
      exists lo', hi'. split; [exact E|]. split; [lra|]. split; [lra|].
      split; [constructor; [lra|exact All]|].
      split; [right; destruct Il as [->|Il]; [left; reflexivity
                                             |right; exact Il]|].
      destruct Ih as [->|Ih]; [left; reflexivity|right; right; exact Ih].
    + destruct (IH lo q) as (lo' & hi' & E & L & U & All & Il & Ih); [lra|].
      exists lo', hi'. split; [exact E|]. split; [lra|]. split; [lra|].
      split; [constructor; [lra|exact All]|].
      split; [destruct Il as [->|Il]; [left; reflexivity
                                      |right; right; exact Il]|].
      right. destruct Ih as [->|Ih]; [left; reflexivity|right; exact Ih].
    + destruct (IH lo hi) as (lo' & hi' & E & L & U & All & Il & Ih); [lra|].
      exists lo', hi'. split; [exact E|]. split; [lra|]. split; [lra|].
      split; [constructor; [lra|exact All]|].
      split; [destruct Il as [->|Il]; [left; reflexivity
                                      |right; right; exact Il]|].
      destruct Ih as [->|Ih]; [left; reflexivity|right; right; exact Ih].
Qed.

Lemma fibRange_nonempty (q : Q) (qs : list Q) :
  exists lo hi,
    fibRange (map Fin (q :: qs)) = (Fin lo, Fin hi)
    /\ In lo (q :: qs) /\ In hi (q :: qs) /\ allWithin lo hi (q :: qs).
Proof.
  unfold fibRange. cbn [map fold_left fst snd]. cbv zeta.
  change (Fin q .< PInf) with true. change (Fin q .> NInf) with true.
  cbv iota.
  destruct (fibRange_bounds qs q q) as (lo & hi & E & L & U & All & Il & Ih);
    [lra|].
  cbv zeta in E. rewrite E. exists lo, hi. split; [reflexivity|].
  split; [destruct Il as [->|Il]; [left; reflexivity|right; exact Il]|].
  split; [destruct Ih as [->|Ih]; [left; reflexivity|right; exact Ih]|].
  constructor; [lra|exact All].
Qed.

Lemma lastN_min {A} (n : nat) (xs : list A) :
  (1 <= n)%nat -> lastN (Nat.min (length xs) n) xs = lastN n xs.
Proof.
  intro Hn. unfold lastN.
  destruct (n =? 0)%nat eqn:E; [apply Nat.eqb_eq in E; lia|].
  destruct (Nat.min (length xs) n =? 0)%nat eqn:E'.
  - apply Nat.eqb_eq in E'.
    assert (L : length xs = 0%nat) by lia.
    rewrite L. reflexivity.
  - f_equal. lia.
Qed.

Lemma lastN_cons {A} (n : nat) (x : A) (xs : list A) :
  exists y ys, lastN n (x :: xs) = y :: ys.
Proof.
  unfold lastN. destruct (n =? 0)%nat eqn:E; [exists x, xs; reflexivity|].
  destruct (skipn (length (x :: xs) - n) (x :: xs)) as [|y ys] eqn:S.
  - apply (f_equal (@length A)) in S. rewrite length_skipn in S.
    apply Nat.eqb_neq in E. cbn [length] in S. lia.
  - exists y, ys. reflexivity.
Qed.


(** With no prices at all the range is the empty one and the levels are
    not numbers. *)
Example calculateFibonacciLevels_empty :
  calculateFibonacciLevels []
  = mkFibonacciLevels PInf NInf NaN NaN NaN NaN NaN.
Proof. reflexivity. Qed.

(** ** Anchored VWAP *)

Lemma vwapLoop_bounds (lo hi : Q) (points : list ChartPoint) :
  tradedWithin lo hi points ->
  forall (V P : Q) (line : list num),
    0 <= V -> lo * V <= P -> P <= hi * V ->
    exists ws,
      snd (fold_left vwapStep points (Fin V, Fin P, line))
      = line ++ map Fin ws
      /\ length ws = length points /\ allWithin lo hi ws.
Proof.
  intro H. induction points as [|p rest IH]; intros V P line HV HL HU.
  - exists []. rewrite app_nil_r. repeat split. constructor.
  - inversion H as [|? ? Hp Hrest]; subst.
    destruct Hp as (q & v & Eq & Ev & Bq & Bv).
    cbn [fold_left]. unfold vwapStep at 2. rewrite Eq, Ev.
    cbn [toNum Js.mul Js.add]. unfold Js.gt. cbn [Js.lt].
    assert (HL' : lo * (V + v) <= P + q * v) by nra.
    assert (HU' : P + q * v <= hi * (V + v)) by nra.
    assert (HV' : 0 <= V + v) by lra.
    destruct (Qltb 0 (V + v)) eqn:E.
    + apply Qltb_lt in E.
      assert (Z : Qeq_bool (V + v) 0 = false) by (apply Qeqb_neq; lra).
      cbn [Js.div]. rewrite Z.
      destruct (IH Hrest (V + v) (P + q * v)
                   (line ++ [Fin ((P + q * v) / (V + v))]) HV' HL' HU')
        as (ws & Ew & Len & All).
      exists (((P + q * v) / (V + v)) :: ws).
      rewrite Ew, <- app_assoc. split; [reflexivity|].
      split; [simpl; lia|]. constructor; [|exact All]. split.
      * apply Qle_shift_div_l; lra.
      * apply Qle_shift_div_r; lra.
    + destruct (IH Hrest (V + v) (P + q * v) (line ++ [Fin q]) HV' HL' HU')
        as (ws & Ew & Len & All).
      exists (q :: ws).
      rewrite Ew, <- app_assoc. split; [reflexivity|].
      split; [simpl; lia|]. constructor; assumption.
Qed.

(** The line over candles with finite prices, in the exact arithmetic of
    the model. *)
Lemma calculateAnchoredVWAP_line (points : list ChartPoint)
        (anchorIndex : Z) (lo hi : Q) :
  tradedWithin lo hi points ->
  let line := calculateAnchoredVWAP points anchorIndex in
  ((anchorIndex < 0 \/ Z.of_nat (length points) <= anchorIndex)%Z ->
   line = [])
  /\ ((0 <= anchorIndex < Z.of_nat (length points))%Z ->
      length line = length points
      /\ (forall i, (i < Z.to_nat anchorIndex)%nat ->
                    nth_error line i = Some NaN)
      /\ (forall i, (Z.to_nat anchorIndex <= i < length points)%nat ->
                    exists w, nth_error line i = Some (Fin w)
                              /\ lo <= w <= hi)).
Proof.
  intros H line. split.
  - intro Out. unfold line, calculateAnchoredVWAP.
    destruct (length points =? 0)%nat; [reflexivity|]. cbn [orb].
    destruct Out as [Neg|Big].
    + assert (E : (anchorIndex <? 0)%Z = true) by (apply Z.ltb_lt; lia).
      rewrite E. reflexivity.
    + assert (E : (anchorIndex >=? Z.of_nat (length points))%Z = true)
        by (apply Z.geb_le; lia).
      rewrite E. rewrite orb_true_r. reflexivity.
  - intro In. set (a := Z.to_nat anchorIndex).
    assert (Ha : (a < length points)%nat) by (unfold a; lia).
    assert (E : line
                = snd (fold_left vwapStep (skipn a points)
                                 (Fin 0, Fin 0, fill a NaN))).
    { unfold line, calculateAnchoredVWAP.
      assert (E0 : (length points =? 0)%nat = false)
        by (apply Nat.eqb_neq; lia).
      assert (E1 : (anchorIndex <? 0)%Z = false) by (apply Z.ltb_ge; lia).
      assert (E2 : (anchorIndex >=? Z.of_nat (length points))%Z = false).
      { rewrite Z.geb_leb. apply Z.leb_gt. lia. }
      rewrite E0, E1, E2. reflexivity. }
    assert (Hs : tradedWithin lo hi (skipn a points)).
    { apply Forall_forall. intros x Hx.
      apply (proj1 (Forall_forall _ _) H).
      rewrite <- (firstn_skipn a points). apply in_or_app. right. exact Hx. }
    destruct (vwapLoop_bounds lo hi (skipn a points) Hs 0 0 (fill a NaN))
      as (ws & Ew & Len & All); [lra|lra|lra|].
    rewrite E, Ew. unfold fill. rewrite length_skipn in Len. split.
    + rewrite length_app, repeat_length, length_map. lia.
    + split.
      * intros i Hi.
        rewrite nth_error_app1 by (rewrite repeat_length; exact Hi).
        apply nth_error_repeat. exact Hi.
      * intros i Hi.
        rewrite nth_error_app2 by (rewrite repeat_length; lia).
        rewrite repeat_length.
        destruct (nth_error_map_Fin ws (i - a) lo hi All) as (w & Ee & He);
          [lia|].
        exists w. split; assumption.
Qed.


(** ** RSI of a monotone series *)

Lemma priceChanges_at (qs : list Q) (i : nat) :
  (i < length qs)%nat ->
  exists c,
    at_ (priceChanges (map Fin qs)) i = Fin c
    /\ ((i = 0%nat /\ c = 0)
        \/ exists j a b,
            i = S j /\ nth_error qs j = Some a /\ nth_error qs (S j) = Some b
            /\ c = b + - a).
Proof.
  intro H. unfold at_ at 1, priceChanges, mapi.
  rewrite nth_error_mapiFrom, nth_error_map.
  destruct (nth_error qs i) as [b|] eqn:Eb;
    [|apply nth_error_None in Eb; lia].
  cbn [option_map toNum Nat.add]. destruct i as [|j]; cbn [Nat.eqb].
  - exists 0. split; [reflexivity|]. left. split; reflexivity.
  - unfold at_. rewrite nth_error_map.
    replace (S j - 1)%nat with j by lia.
    destruct (nth_error qs j) as [a|] eqn:Ea;
      [|apply nth_error_None in Ea; lia].
    exists (b + - a). split; [reflexivity|]. right.
    exists j, a, b. repeat split; assumption.
Qed.

Lemma nondecreasing_changes (qs : list Q) :
  nondecreasing qs -> changesAll (fun c => 0 <= c) qs.
Proof.
  intros H i Hi. destruct (priceChanges_at qs i Hi) as (c & E & C).
  exists c. split; [exact E|].
  destruct C as [(_ & ->)|(j & a & b & _ & Ea & Eb & ->)]; [lra|].
  pose proof (H j a b Ea Eb). lra.
Qed.

Lemma nonincreasing_changes (qs : list Q) :
  nonincreasing qs -> changesAll (fun c => c <= 0) qs.
Proof.
  intros H i Hi. destruct (priceChanges_at qs i Hi) as (c & E & C).
  exists c. split; [exact E|].
  destruct C as [(_ & ->)|(j & a & b & _ & Ea & Eb & ->)]; [lra|].
  pose proof (H j a b Ea Eb). lra.
Qed.

Lemma Qabs_zero (c : Q) : 0 <= c -> c <= 0 -> Qabs c == 0.
Proof.
  intros A B. apply Qle_antisym; [|apply Qabs_nonneg].
  apply Qabs_Qle_condition. split; lra.
Qed.

Lemma div_zero (x : Q) (p : nat) :
  (1 <= p)%nat -> x == 0 -> x / inject_Z (Z.of_nat p) == 0.
Proof.
  intros Hp Hx. pose proof (ofNat_pos p Hp) as P.
  apply Qle_antisym; [apply Qle_shift_div_r|apply Qle_shift_div_l]; lra.
Qed.

Lemma ofNat_nonzero (p : nat) :
  (1 <= p)%nat -> Qeq_bool (inject_Z (Z.of_nat p)) 0 = false.
Proof.
  intro Hp. pose proof (ofNat_pos p Hp). apply Qeqb_neq. lra.
Qed.

(** The seed averages when no change is a loss, or none is a gain. *)
Lemma rsiSeed_one_sided (qs : list Q) (period : nat) :
  (1 <= period)%nat -> (period < length qs)%nat ->
  exists g l,
    rsiSeed (priceChanges (map Fin qs)) period = (Fin g, Fin l)
    /\ (changesAll (fun c => 0 <= c) qs -> l == 0)
    /\ (changesAll (fun c => c <= 0) qs -> g == 0).
Proof.
  intros Hp Hlen. unfold rsiSeed.
  assert (S : forall js a b,
             Forall (fun j => (j < length qs)%nat) js ->
             exists a' b',
               fold_left
                 (fun (s : num * num) j =>
                    let chg := at_ (priceChanges (map Fin qs)) j in
                    if chg .> Fin 0 then (fst s .+ chg, snd s)
                    else (fst s, snd s .+ Js.abs chg))
                 js (Fin a, Fin b)
               = (Fin a', Fin b')
               /\ (changesAll (fun c => 0 <= c) qs -> b' == b)
               /\ (changesAll (fun c => c <= 0) qs -> a' == a)).
  { induction js as [|j js IH]; intros a b Hjs.
    - exists a, b. split; [reflexivity|]. split; intros _; reflexivity.
    - inversion Hjs as [|? ? Hj Hrest]; subst. cbn [fold_left]. cbv zeta.
      destruct (priceChanges_finite qs j Hj) as (c & Ec). rewrite Ec.
      unfold Js.gt. cbn [Js.lt fst snd Js.add Js.abs].
      destruct (Qltb 0 c) eqn:E.
      + apply Qltb_lt in E.
        destruct (IH (a + c) b Hrest) as (a' & b' & Ef & Up & Down).
        exists a', b'. split; [exact Ef|]. split; [exact Up|].
        intro D. destruct (D j Hj) as (c' & Ec' & Hc').
        rewrite Ec in Ec'. injection Ec' as <-. lra.
      + apply Qltb_ge in E.
        destruct (IH a (b + Qabs c) Hrest) as (a' & b' & Ef & Up & Down).
        exists a', b'. split; [exact Ef|]. split; [|exact Down].
        intro U. destruct (U j Hj) as (c' & Ec' & Hc').
        rewrite Ec in Ec'. injection Ec' as <-.
        rewrite (Up U), (Qabs_zero c Hc' E). lra. }
  destruct (S (seq 1 period) 0 0) as (a & b & E & Up & Down).
  { apply Forall_forall. intros j Hj. apply in_seq in Hj. lia. }
  cbv zeta in E. rewrite E. cbn [fst snd]. unfold ofNat. cbn [Js.div].
  rewrite (ofNat_nonzero period Hp).
  eexists. eexists. split; [reflexivity|].
  split; intro H; apply div_zero; auto.
Qed.

(** The averages that one iteration from the period on leaves behind. *)
Lemma rsiStep_averages (changes : list num) (period : nat) (st : RsiState)
      (i : nat) :
  (period <= i)%nat ->
  let change := at_ changes i in
  let gain := if change .> Fin 0 then change else Fin 0 in
  let loss := if change .< Fin 0 then Js.abs change else Fin 0 in
  let averages :=
    if (i =? period)%nat then rsiSeed changes period
    else
      ((avgGain st .* (ofNat period .- Fin 1) .+ gain) ./ ofNat period,
       (avgLoss st .* (ofNat period .- Fin 1) .+ loss) ./ ofNat period) in
  avgGain (rsiStep changes period st i) = fst averages
  /\ avgLoss (rsiStep changes period st i) = snd averages.
Proof.
  intro H. cbv zeta. unfold rsiStep.
  assert (B : (i <? period)%nat = false) by (apply Nat.ltb_ge; lia).
  rewrite B. cbv zeta.
  destruct (if (i =? period)%nat then _ else _) as [g l].
  split; reflexivity.
Qed.

(** The averages of a one-sided series stay one-sided. *)
Lemma rsiStateAt_one_sided (qs : list Q) (period : nat) :
  (1 <= period)%nat -> (period < length qs)%nat ->
  forall n,
    (period < n <= length qs)%nat ->
    exists g l,
      avgGain (rsiStateAt (map Fin qs) period n) = Fin g
      /\ avgLoss (rsiStateAt (map Fin qs) period n) = Fin l
      /\ (changesAll (fun c => 0 <= c) qs -> l == 0)
      /\ (changesAll (fun c => c <= 0) qs -> g == 0).
Proof.
  intros Hp Hlen. induction n as [|n IH]; intro Hn; [lia|].
  rewrite rsiStateAt_S.
  set (st := rsiStateAt (map Fin qs) period n) in *.
  destruct (rsiStep_averages (priceChanges (map Fin qs)) period st n)
    as (Eg & El); [lia|].
  rewrite Eg, El. clear Eg El.
  destruct (Nat.eqb_spec n period) as [->|Hne].
  - destruct (rsiSeed_one_sided qs period Hp Hlen) as (g & l & E & Up & Dn).
    rewrite E. exists g, l. repeat split; assumption.
  - destruct IH as (g0 & l0 & Eg0 & El0 & Up & Dn); [lia|].
    rewrite Eg0, El0.
    destruct (priceChanges_finite qs n) as (c & Ec); [lia|]. rewrite Ec.
    unfold Js.gt, ofNat.
    cbn [Js.lt fst snd Js.abs].
    destruct (Qltb 0 c) eqn:E1; destruct (Qltb c 0) eqn:E2;
      cbn [Js.sub Js.neg Js.add Js.mul Js.div];
      rewrite (ofNat_nonzero period Hp);
      (eexists; eexists; split; [reflexivity|]; split; [reflexivity|]);
      try apply Qltb_lt in E1; try apply Qltb_lt in E2;
      try apply Qltb_ge in E1; try apply Qltb_ge in E2.
    + lra.
    + split; intro H.
      * apply div_zero; [exact Hp|]. rewrite (Up H). lra.
      * destruct (H n) as (c' & Ec' & Hc'); [lia|].
        rewrite Ec in Ec'. injection Ec' as <-. lra.
    + split; intro H.
      * destruct (H n) as (c' & Ec' & Hc'); [lia|].
        rewrite Ec in Ec'. injection Ec' as <-. lra.
      * apply div_zero; [exact Hp|]. rewrite (Dn H). lra.
    + split; intro H; apply div_zero; try exact Hp.
      * rewrite (Up H). lra.
      * rewrite (Dn H). lra.
Qed.

Lemma calculateRSIArray_loop (qs : list Q) (period : nat) :
  (period < length qs)%nat ->
  calculateRSIArray (map Fin qs) period
  = rsiArray (rsiStateAt (map Fin qs) period (length qs)).
Proof.
  intro H. unfold calculateRSIArray. rewrite length_map.
  assert (E : (length qs <? period + 1)%nat = false)
    by (apply Nat.ltb_ge; lia).
  rewrite E. reflexivity.
Qed.

(** The defined entries of the series over a one-sided series of prices. *)
Lemma calculateRSIArray_one_sided (qs : list Q) (period i : nat) :
  (1 <= period)%nat -> (period <= i < length qs)%nat ->
  exists v,
    nth_error (calculateRSIArray (map Fin qs) period) i = Some (Some v)
    /\ (changesAll (fun c => 0 <= c) qs -> v = Fin 100)
    /\ (changesAll (fun c => c <= 0) qs ->
        v = Fin 100 \/ exists z, v = Fin z /\ z == 0).
Proof.
  intros Hp Hi. rewrite calculateRSIArray_loop by lia.
  destruct (rsiStateAt_invariant qs period Hp ltac:(lia) (length qs)
                                 (Nat.le_refl _))
    as (_ & _ & Idef & _).
  destruct (Idef i Hi) as (g & l & Eg & El & Hg & Hl & N).
  exists (rsiValue (Fin g) (Fin l)). split; [exact N|].
  destruct (rsiStateAt_one_sided qs period Hp ltac:(lia) (S i) ltac:(lia))
    as (g' & l' & Eg' & El' & Up & Dn).
  rewrite Eg in Eg'. rewrite El in El'.
  injection Eg' as <-. injection El' as <-.
  rewrite (proj1 (rsiValue_finite g l Hg Hl)).
  split; intro H.
  - assert (Z : Qeq_bool l 0 = true) by (apply Qeq_bool_iff, Up, H).
    rewrite Z. reflexivity.
  - destruct (Qeq_bool l 0) eqn:Z; [left; reflexivity|right].
    eexists. split; [reflexivity|].
    apply Qeqb_neq in Z. pose proof (Dn H) as G.
    assert (R : g / l == 0).
    { unfold Qdiv. rewrite G. lra. }
    rewrite R. field.
Qed.

(** Adjacent entries of a chain are related. *)
Lemma sorted_adjacent (R : Q -> Q -> Prop) (qs : list Q) :
  Sorted R qs ->
  forall i a b,
    nth_error qs i = Some a -> nth_error qs (S i) = Some b -> R a b.
Proof.
  induction 1 as [|x rest Hs IH Hd]; intros i a b Ea Eb.
  - destruct i; discriminate.
  - destruct i as [|i].
    + cbn [nth_error] in Ea, Eb. injection Ea as <-.
      destruct rest as [|y rest']; [discriminate|].
      cbn [nth_error] in Eb. injection Eb as <-.
      inversion Hd; assumption.
    + cbn [nth_error] in Ea. exact (IH i a b Ea Eb).
Qed.

Lemma nondecreasing_sorted (qs : list Q) : Sorted Qle qs -> nondecreasing qs.
Proof. intros H i a b. apply (sorted_adjacent Qle qs H). Qed.

Lemma nonincreasing_sorted (qs : list Q) :
  Sorted (fun a b => b <= a) qs -> nonincreasing qs.
Proof.
  intros H i a b. apply (sorted_adjacent (fun a b => b <= a) qs H).
Qed.

(** X13: on finite prices that never fall (a flat series included) every
    defined entry of the RSI series is exactly 100, and so is the value of
    [calculateRSI] once there are more prices than the period: the average
    loss stays 0. *)
Theorem calculateRSI_rising (qs : list Q) (period : nat) :
  (1 <= period)%nat -> nondecreasing qs ->
  (forall i, (period <= i < length qs)%nat ->
             nth_error (calculateRSIArray (map Fin qs) period) i
             = Some (Some (Fin 100)))
  /\ ((period < length qs)%nat ->
      calculateRSI (map Fin qs) period = Some (Fin 100)).
Proof.
  intros Hp Hup.
  assert (A : forall i, (period <= i < length qs)%nat ->
                        nth_error (calculateRSIArray (map Fin qs) period) i
                        = Some (Some (Fin 100))).
  { intros i Hi.
    destruct (calculateRSIArray_one_sided qs period i Hp Hi)
      as (v & N & Up & _).
    rewrite N, (Up (nondecreasing_changes qs Hup)). reflexivity. }
  split; [exact A|]. intro Hlen. unfold calculateRSI. rewrite length_map.
  assert (E : (length qs <=? period)%nat = false)
    by (apply Nat.leb_gt; exact Hlen).
  rewrite E. cbv zeta. unfold fromEnd.
  assert (L : length (calculateRSIArray (map Fin qs) period) = length qs).
  { rewrite calculateRSIArray_loop by exact Hlen.
    exact (proj1 (rsiStateAt_invariant qs period Hp Hlen (length qs)
                                       (Nat.le_refl _))). }
  rewrite L.
  assert (P : (0 <? length qs)%nat = true) by (apply Nat.ltb_lt; lia).
  rewrite P, A by lia. reflexivity.
Qed.

(** The last value over a series that never rises: nothing, 100 (no change
    at all in the averages) or zero. *)
Lemma calculateRSI_nonincreasing (qs : list Q) (period : nat) :
  (1 <= period)%nat -> nonincreasing qs ->
  calculateRSI (map Fin qs) period = None
  \/ calculateRSI (map Fin qs) period = Some (Fin 100)
  \/ exists z, calculateRSI (map Fin qs) period = Some (Fin z) /\ z == 0.
Proof.
  intros Hp Hdown. unfold calculateRSI. rewrite length_map.
  destruct (Nat.leb_spec (length qs) period) as [Short|Hlen];
    [left; reflexivity|].
  cbv zeta. unfold fromEnd.
  assert (L : length (calculateRSIArray (map Fin qs) period) = length qs).
  { rewrite calculateRSIArray_loop by exact Hlen.
    exact (proj1 (rsiStateAt_invariant qs period Hp Hlen (length qs)
                                       (Nat.le_refl _))). }
  rewrite L.
  assert (P : (0 <? length qs)%nat = true) by (apply Nat.ltb_lt; lia).
  rewrite P.
  destruct (calculateRSIArray_one_sided qs period (length qs - 1 - 0) Hp)
    as (v & N & _ & Dn); [lia|].
  rewrite N. right.
  destruct (Dn (nonincreasing_changes qs Hdown)) as [->|(z & -> & Hz)].
  - left. reflexivity.
  - right. exists z. split; [reflexivity|exact Hz].
Qed.

Lemma nonincreasing_firstn (qs : list Q) (n : nat) :
  nonincreasing qs -> nonincreasing (firstn n qs).
Proof.
  intros H i a b Ea Eb. rewrite nth_error_firstn in Ea, Eb.
  destruct (i <? n)%nat; [|discriminate].
  destruct (S i <? n)%nat; [|discriminate].
  exact (H i a b Ea Eb).
Qed.

Section Monotone.

Variable score :
  list num -> option num -> option num -> option StochRSI -> Trend ->
  DivergenceResult -> option ScoreWeights -> num.

(** Neither of the two RSI rules enters on a series that never rises: the
    RSI is missing, 100, or a zero, which the test [rsi && rsi < 40] takes
    for a missing value. *)
Lemma entrySignal_nonincreasing strategy weights (qs : list Q) i candle :
  nonincreasing qs -> strategy <> SCORE_BASED ->
  entrySignal score strategy weights (map Fin qs) i candle = None.
Proof.
  intros Hdown Hs. unfold entrySignal. cbv zeta.
  unfold slice. cbn [skipn]. rewrite Nat.sub_0_r, firstn_map.
  pose proof (calculateRSI_nonincreasing
                (firstn (i + 1) qs) 14 ltac:(lia)
                (nonincreasing_firstn qs (i + 1) Hdown)) as R.
  assert (T40 : (truthyOpt (calculateRSI (map Fin (firstn (i + 1) qs)) 14)
                 && (toNum (calculateRSI (map Fin (firstn (i + 1) qs)) 14)
                     .< Fin 40))
                = false).
  { destruct R as [->|[->|(z & -> & Hz)]]; [reflexivity|reflexivity|].
    cbn [truthyOpt truthy].
    apply Qeq_bool_iff in Hz. rewrite Hz. reflexivity. }
  assert (T30 : (truthyOpt (calculateRSI (map Fin (firstn (i + 1) qs)) 14)
                 && (toNum (calculateRSI (map Fin (firstn (i + 1) qs)) 14)
                     .< Fin 30))
                = false).
  { destruct R as [->|[->|(z & -> & Hz)]]; [reflexivity|reflexivity|].
    cbn [truthyOpt truthy].
    apply Qeq_bool_iff in Hz. rewrite Hz. reflexivity. }
  destruct strategy; [| |contradiction].
  - rewrite <- andb_assoc, T40, andb_false_r. reflexivity.
  - rewrite T30. destruct (Trend_eqb _ _); reflexivity.
Qed.

Lemma backtestStep_idle strategy weights history (qs : list Q)
      initialCapital i :
  nonincreasing qs -> strategy <> SCORE_BASED ->
  backtestStep score strategy weights history (map Fin qs)
               (backtestInit history initialCapital) i
  = backtestInit history initialCapital.
Proof.
  intros Hdown Hs. unfold backtestStep.
  destruct (nth_error history i) as [candle|]; [|reflexivity].
  cbv zeta. unfold backtestInit at 1. cbv zeta. cbn [btPosition].
  rewrite (entrySignal_nonincreasing strategy weights qs i candle Hdown Hs).
  reflexivity.
Qed.

(** X14: on a history whose prices never rise, neither TREND_FOLLOWING
    nor MEAN_REVERSION ever opens a trade.  The RSI of such a series is
    missing, 100, or a zero, and the entry tests [rsi && rsi < 40] and
    [rsi && rsi < 30] take the zero for a missing value.  The result has no
    trades, win rate, profit factor and drawdown 0, and at most the initial
    point on the equity curve. *)
Theorem runBacktest_never_rising strategy history (qs : list Q)
        initialCapital weights :
  map price history = map Fin qs -> nonincreasing qs ->
  strategy <> SCORE_BASED ->
  let r := runBacktest score strategy history initialCapital weights in
  trades r = [] /\ totalTrades r = 0%nat
  /\ winRate r = Fin 0 /\ profitFactor r = Fin 0
  /\ maxDrawdown r = Fin 0
  /\ Forall (fun pt => curveEquity pt = initialCapital) (equityCurve r)
  /\ (length (equityCurve r) <= 1)%nat.
Proof.
  intros Hp Hdown Hs r. unfold r, runBacktest.
  destruct (length history <? 50)%nat.
  - cbn [trades totalTrades winRate profitFactor maxDrawdown equityCurve
          length].
    repeat (split; [reflexivity|]). split; [constructor|lia].
  - cbv zeta.
    assert (E : backtestStateAt score strategy weights history
                                initialCapital (length history - 50)
                = backtestInit history initialCapital).
    { unfold backtestStateAt. cbv zeta. rewrite Hp.
      generalize (seq 50 (length history - 50)) as js.
      induction js as [|j js IH]; [reflexivity|].
      cbn [fold_left].
      rewrite (backtestStep_idle strategy weights history qs initialCapital
                                 j Hdown Hs).
      exact IH. }
    rewrite E. unfold backtestInit. cbv zeta.
    cbn [btTrades btMaxDrawdown btEquityCurve trades totalTrades winRate
         profitFactor maxDrawdown equityCurve length].
    repeat (split; [reflexivity|]).
    destruct (nth_error history 0); cbn [length]; split;
      [repeat constructor|lia|constructor|lia].
Qed.

End Monotone.

(** ** Divergence *)

Lemma flat_map_nil {A B} (f : A -> list B) (xs : list A) :
  (forall x, In x xs -> f x = []) -> flat_map f xs = [].
Proof.
  induction xs as [|x rest IH]; intro H; [reflexivity|].
  cbn [flat_map]. rewrite (H x (or_introl eq_refl)).
  apply IH. intros y Hy. apply H. right. exact Hy.
Qed.

(** A monotone series has no strict local maximum. *)
Lemma findPeaks_monotone (qs : list Q) :
  nondecreasing qs \/ nonincreasing qs ->
  findPeaks (map Some (map Fin qs)) HIGH = [].
Proof.
  intro H. unfold findPeaks. apply flat_map_nil. intros i Hi.
  apply in_seq in Hi. rewrite !length_map in Hi.
  rewrite !nth_error_map.
  destruct (nth_error_in_range qs i) as (v & Ev); [lia|].
  destruct (nth_error_in_range qs (i - 1)) as (l & El); [lia|].
  destruct (nth_error_in_range qs (i + 1)) as (r & Er); [lia|].
  rewrite Ev, El, Er. cbn [option_map toNum]. cbv zeta.
  unfold Js.gt. cbn [Js.lt].
  destruct H as [Up|Down].
  - assert (C : Qltb r v = false).
    { apply Qltb_ge. apply (Up i v r Ev).
      replace (S i) with (i + 1)%nat by lia. exact Er. }
    rewrite C. rewrite andb_false_r. reflexivity.
  - assert (C : Qltb l v = false).
    { apply Qltb_ge. apply (Down (i - 1)%nat l v El).
      replace (S (i - 1)) with i by lia. exact Ev. }
    rewrite C. reflexivity.
Qed.

(** X15: on finite prices that never fall, or never rise,
    [detectRSIDivergence] answers NONE/WEAK whatever the RSI series is: a
    monotone series has no strict local maximum, and the function needs two
    highs and two lows. *)
Theorem detectRSIDivergence_monotone (qs : list Q)
        (rsiValues : list (option num)) :
  nondecreasing qs \/ nonincreasing qs ->
  detectRSIDivergence (map Fin qs) rsiValues = mkDivergence NONE WEAK.
Proof.
  intro H. unfold detectRSIDivergence.
  destruct ((length (map Fin qs) <? 20)%nat || (length rsiValues <? 20)%nat);
    [reflexivity|].
  cbv zeta. rewrite (findPeaks_monotone qs H). reflexivity.
Qed.

(** ** Market structure *)

Lemma clusterLevels_sorts (levels : list num) (tolerance : num) :
  snd (clusterLevels levels tolerance) = sortAsc levels.
Proof.
  unfold clusterLevels. cbv zeta. destruct (sortAsc levels); reflexivity.
Qed.

Lemma sorted_nth (s : list Q) :
  Sorted Qle s ->
  forall i j a b,
    (i <= j)%nat -> nth_error s i = Some a -> nth_error s j = Some b ->
    a <= b.
Proof.
  intro H. apply Sorted_StronglySorted in H;
    [|intros x y z; apply Qle_trans].
  induction H as [|x rest Hs IH Hall]; intros i j a b Hij Ea Eb.
  - destruct i; discriminate.
  - destruct i as [|i]; destruct j as [|j]; cbn [nth_error] in Ea, Eb.
    + injection Ea as <-. injection Eb as <-. lra.
    + injection Ea as <-.
      exact (proj1 (Forall_forall _ _) Hall _ (nth_error_In _ _ Eb)).
    + lia.
    + apply (IH i j a b); [lia|assumption|assumption].
Qed.

(** The last two entries of a sorted array and what they are of the
    array before the sort. *)
Lemma sorted_top (xs : list Q) :
  (2 <= length xs)%nat ->
  exists x1 x0,
    fromEnd (sortQ xs) 1 = Some x1 /\ fromEnd (sortQ xs) 0 = Some x0
    /\ x1 <= x0 /\ In x0 xs /\ In x1 xs
    /\ (forall x, In x xs -> x <= x0).
Proof.
  intro H. destruct (sortQ_sorted_perm xs) as (P & S).
  pose proof (Permutation_length P) as L.
  unfold fromEnd. rewrite <- L.
  assert (B1 : (1 <? length xs)%nat = true) by (apply Nat.ltb_lt; lia).
  assert (B0 : (0 <? length xs)%nat = true) by (apply Nat.ltb_lt; lia).
  rewrite B1, B0.
  destruct (nth_error_in_range (sortQ xs) (length xs - 1 - 1)) as (x1 & E1);
    [lia|].
  destruct (nth_error_in_range (sortQ xs) (length xs - 1 - 0)) as (x0 & E0);
    [lia|].
  exists x1, x0. rewrite E1, E0. split; [reflexivity|].
  split; [reflexivity|].
  split; [apply (sorted_nth _ S (length xs - 1 - 1) (length xs - 1 - 0)
                            x1 x0); [lia|exact E1|exact E0]|].
  split; [apply (Permutation_in _ (Permutation_sym P)),
                (nth_error_In _ _ E0)|].
  split; [apply (Permutation_in _ (Permutation_sym P)),
                (nth_error_In _ _ E1)|].
  intros x Hx. apply (Permutation_in _ P) in Hx.
  apply In_nth_error in Hx. destruct Hx as (i & Ei).
  apply (sorted_nth _ S i (length xs - 1 - 0) x x0); [|exact Ei|exact E0].
  assert (N : nth_error (sortQ xs) i <> None) by congruence.
  apply nth_error_Some in N. lia.
Qed.

Lemma fromEnd_map {A B} (f : A -> B) (xs : list A) (k : nat) :
  fromEnd (map f xs) k = option_map f (fromEnd xs k).
Proof.
  unfold fromEnd. rewrite length_map, nth_error_map.
  destruct (k <? length xs)%nat; reflexivity.
Qed.

(** X16: with at least two swing highs and two swing lows the trend of
    [analyzeMarketStructure] is read from the swing arrays after
    [clusterLevels] has sorted them in place.  [lastHigh] and [lastLow] are
    therefore the greatest swing high and the greatest swing low, the
    lower-high/lower-low test never holds, and the trend is RANGING unless
    the two greatest highs differ and the two greatest lows differ; then it
    is DOWNTREND if the last price is below the greatest swing low and
    UPTREND otherwise.  The order of the swings in time plays no part. *)
Theorem analyzeMarketStructure_sorted_swings (qs hs ls : list Q) :
  (10 <= length qs)%nat ->
  swings (map Fin qs) = (map Fin hs, map Fin ls) ->
  (2 <= length hs)%nat -> (2 <= length ls)%nat ->
  exists h1 h0 l1 l0 last,
    fromEnd (sortQ hs) 1 = Some h1 /\ fromEnd (sortQ hs) 0 = Some h0
    /\ fromEnd (sortQ ls) 1 = Some l1 /\ fromEnd (sortQ ls) 0 = Some l0
    /\ fromEnd qs 0 = Some last
    /\ In h0 hs /\ (forall h, In h hs -> h <= h0)
    /\ In l0 ls /\ (forall l, In l ls -> l <= l0)
    /\ trend (analyzeMarketStructure (map Fin qs))
       = if Qltb h1 h0 && Qltb l1 l0
         then if Qltb last l0 then DOWNTREND else UPTREND
         else RANGING.
Proof.
  intros Hlen Hsw Hh Hl.
  destruct (sorted_top hs Hh) as (h1 & h0 & Eh1 & Eh0 & Hle & Ih0 & _ & Mh).
  destruct (sorted_top ls Hl) as (l1 & l0 & El1 & El0 & Lle & Il0 & _ & Ml).
  destruct (nth_error_in_range qs (length qs - 1 - 0)) as (last & Elast);
    [lia|].
  assert (Flast : fromEnd qs 0 = Some last).
  { unfold fromEnd.
    assert (B : (0 <? length qs)%nat = true) by (apply Nat.ltb_lt; lia).
    rewrite B. exact Elast. }
  exists h1, h0, l1, l0, last.
  repeat (split; [assumption|]).
  unfold analyzeMarketStructure. rewrite length_map.
  assert (B : (length qs <? 10)%nat = false) by (apply Nat.ltb_ge; lia).
  rewrite B, Hsw.
  pose proof (clusterLevels_sorts (map Fin hs) (Fin 0.02)) as Sh.
  pose proof (clusterLevels_sorts (map Fin ls) (Fin 0.02)) as Sl.
  destruct (clusterLevels (map Fin hs) (Fin 0.02)) as [highClusters highs].
  destruct (clusterLevels (map Fin ls) (Fin 0.02)) as [lowClusters lows].
  cbn [snd] in Sh, Sl. subst highs lows.
  rewrite !sortAsc_Fin. cbv zeta. cbn [trend].
  rewrite !length_map.
  rewrite <- (Permutation_length (proj1 (sortQ_sorted_perm hs))).
  rewrite <- (Permutation_length (proj1 (sortQ_sorted_perm ls))).
  assert (Bh : (2 <=? length hs)%nat = true) by (apply Nat.leb_le; lia).
  assert (Bl : (2 <=? length ls)%nat = true) by (apply Nat.leb_le; lia).
  rewrite Bh, Bl. cbn [andb].
  rewrite !fromEnd_map, Eh1, Eh0, El1, El0, Flast.
  cbn [option_map toNum]. unfold Js.gt. cbn [Js.lt].
  assert (Nh : Qltb h0 h1 = false) by (apply Qltb_ge; exact Hle).
  rewrite Nh. cbn [andb].
  destruct (Qltb h1 h0 && Qltb l1 l0); cbn [Trend_eqb andb].
  - destruct (Qltb last l0); reflexivity.
  - reflexivity.
Qed.

(** ** Whale classifier: verdicts *)

Lemma sum_zeros (xs : list ChartPoint) (a : Q) :
  noVolume xs ->
  exists s,
    fold_left Js.add (map (fun h => orElse (volume h) (Fin 0)) xs) (Fin a)
    = Fin s /\ s == a.
Proof.
  intro H. revert a. induction xs as [|x rest IH]; intro a.
  - exists a. split; reflexivity.
  - inversion H as [|? ? Hx Hrest]; subst. cbn [map fold_left].
    unfold orElse at 2. rewrite Hx. cbn [Js.add].
    destruct (IH Hrest (a + 0)) as (s & E & Hs).
    exists s. split; [exact E|]. lra.
Qed.

(** X17: when none of the last 24 candles carries a volume (missing or
    0), [detectWhaleMovements] reports NEUTRAL with the anomaly factor 1
    and the no-activity alert, whatever the current volume, the price
    change and the last candle are. *)
Theorem detectWhaleMovements_no_volume
        (currentPrice priceChange24h volume24h marketCap : num)
        (history : list ChartPoint) :
  (24 <= length history)%nat -> noVolume (lastN 24 history) ->
  let m := detectWhaleMovements currentPrice priceChange24h volume24h
                                marketCap history in
  netFlowStatus m = NF_NEUTRAL /\ volumeAnomalyFactor m = Fin 1
  /\ whaleAlert m = alertNone.
Proof.
  intros Hlen Hvol m. unfold m, detectWhaleMovements.
  assert (B : (length history <? 24)%nat = false)
    by (apply Nat.ltb_ge; exact Hlen).
  rewrite B. cbv zeta. rewrite length_map.
  rewrite (lastN_length 24 history) by lia.
  cbn [Nat.eqb]. unfold Js.sum.
  destruct (sum_zeros (lastN 24 history) 0 Hvol) as (s & E & Hs).
  rewrite E.
  assert (A : (Fin s ./ ofNat 24 .> Fin 0) = false).
  { unfold ofNat, Js.gt. cbn [Js.div].
    change (Qeq_bool (inject_Z (Z.of_nat 24)) 0) with false.
    cbn [Js.lt]. apply Qltb_ge.
    apply Qle_shift_div_r; [reflexivity|]. lra. }
  rewrite A.
  change (Fin 1 .> Fin 1.5) with false.
  change (Fin 1 .> Fin 2.0) with false.
  change (Fin 1 .< Fin 0.8) with false.
  cbn [andb]. rewrite andb_false_r. repeat split.
Qed.

(** X18: what the verdicts of [detectWhaleMovements] imply.
    ACCUMULATION is reported only with an anomaly factor above 1.5;
    DISTRIBUTION only with a 24h change below -5 or above 5; the
    no-activity alert exactly with NEUTRAL on at least 24 candles; and an
    anomaly factor that is not a number always gives NEUTRAL. *)
Theorem detectWhaleMovements_verdicts
        (currentPrice priceChange24h volume24h marketCap : num)
        (history : list ChartPoint) :
  let m := detectWhaleMovements currentPrice priceChange24h volume24h
                                marketCap history in
  (netFlowStatus m = NF_ACCUMULATION ->
   (volumeAnomalyFactor m .> Fin 1.5) = true)
  /\ (netFlowStatus m = NF_DISTRIBUTION ->
      (priceChange24h .< Fin (-5)) = true
      \/ (priceChange24h .> Fin 5) = true)
  /\ (whaleAlert m = alertNone <-> netFlowStatus m = NF_NEUTRAL
                                   /\ (24 <= length history)%nat)
  /\ (isNaN (volumeAnomalyFactor m) = true -> netFlowStatus m = NF_NEUTRAL).
Proof.
  intro m. unfold m, detectWhaleMovements.
  destruct (Nat.ltb_spec (length history) 24) as [Short|Long].
  - cbn [netFlowStatus volumeAnomalyFactor whaleAlert].
    split; [discriminate|]. split; [discriminate|].
    split; [|reflexivity].
    split; [discriminate|]. intros (_ & H). lia.
  - cbv zeta.
    set (factor := if _ .> Fin 0 then _ else Fin 1).
    set (isHighClose := match fromEnd history 0 with
                        | Some _ => _ | None => false end).
    clearbody factor isHighClose.
    assert (G : (factor .> Fin 2.0) = true -> (factor .> Fin 1.5) = true).
    { destruct factor as [q| | |]; unfold Js.gt; cbn [Js.lt];
        try discriminate; [|reflexivity].
      intro H. apply Qltb_lt in H. apply Qltb_lt. lra. }
    assert (N : isNaN factor = true ->
                (factor .> Fin 1.5) = false /\ (factor .> Fin 2.0) = false
                /\ (factor .< Fin 0.8) = false).
    { destruct factor; try discriminate. intros _. repeat split. }
    destruct (factor .> Fin 1.5) eqn:F15;
      destruct (Js.abs priceChange24h .< Fin 3) eqn:P3;
      destruct (factor .> Fin 2.0) eqn:F20;
      destruct (priceChange24h .< Fin (-5)) eqn:P5;
      destruct (priceChange24h .> Fin 5) eqn:Q5;
      destruct (factor .< Fin 0.8) eqn:F08;
      destruct isHighClose;
      cbn [andb netFlowStatus volumeAnomalyFactor whaleAlert];
      (split; [intro H; first [discriminate H | exact F15
                              | discriminate (G eq_refl)]|]);
      (split; [intro H; first [discriminate H
                              | left; first [reflexivity|assumption]
                              | right; first [reflexivity|assumption]]|]);
      (split; [split; [intro H; first [discriminate H
                                      | split; [reflexivity|exact Long]]
                      |intros (H & _); first [discriminate H | reflexivity]]
              |]);
      (intro H; first [reflexivity
                      | destruct (N H) as (N1 & N2 & N3); congruence]).
Qed.

(** ** Technical score: the divergence factor *)

Lemma clamp_value (x : Q) :
  exists c,
    Js.max (Fin 0) (Js.min (Fin 100) (Fin x)) = Fin c
    /\ ((x <= 0 /\ c = 0) \/ (0 <= x <= 100 /\ c = x)
        \/ (100 <= x /\ c = 100)).
Proof.
  unfold Js.min, Js.max. cbn [isNaN orb Js.lt].
  destruct (Qltb x 100) eqn:E1; cbn [isNaN orb Js.lt].
  - apply Qltb_lt in E1. destruct (Qltb 0 x) eqn:E2.
    + apply Qltb_lt in E2. exists x. split; [reflexivity|].
      right. left. split; [lra|reflexivity].
    + apply Qltb_ge in E2. exists 0. split; [reflexivity|].
      left. split; [lra|reflexivity].
  - apply Qltb_ge in E1. change (Qltb 0 100) with true. cbv iota.
    exists 100. split; [reflexivity|].
    right. right. split; [lra|reflexivity].
Qed.

Lemma divergence_step (s : num) :
  isFin s ->
  exists b n r,
    Js.max (Fin 0) (Js.min (Fin 100) (s .+ Fin 15)) = Fin b
    /\ Js.max (Fin 0) (Js.min (Fin 100) s) = Fin n
    /\ Js.max (Fin 0) (Js.min (Fin 100) (s .- Fin 15)) = Fin r
    /\ r <= n /\ n <= b /\ b - n <= 15 /\ n - r <= 15.
Proof.
  intro H. destruct s as [x| | |]; try contradiction.
  cbn [Js.add Js.sub Js.neg].
  destruct (clamp_value (x + 15)) as (b & Eb & Hb).
  destruct (clamp_value x) as (n & En & Hn).
  destruct (clamp_value (x + Qopp 15)) as (r & Er & Hr).
  exists b, n, r. rewrite Eb, En, Er.
  repeat (split; [reflexivity|]).
  destruct Hb as [(B & ->)|[(B & ->)|(B & ->)]];
    destruct Hn as [(N & ->)|[(N & ->)|(N & ->)]];
    destruct Hr as [(R & ->)|[(R & ->)|(R & ->)]];
    repeat split; lra.
Qed.

(** X19: with every other input fixed, the technical score with a
    bullish divergence is at least the score with none, which is at least
    the score with a bearish one, and neither step is more than 15 points,
    whatever the strengths of the three divergences are. *)
Theorem calculateTechnicalScore_divergence
        prices rsi adx stochRsi trend (s1 s2 s3 : DivergenceStrength) :
  exists b n r,
    calculateTechnicalScore prices rsi adx stochRsi trend
                            (mkDivergence BULLISH s1) = Fin b
    /\ calculateTechnicalScore prices rsi adx stochRsi trend
                               (mkDivergence NONE s2) = Fin n
    /\ calculateTechnicalScore prices rsi adx stochRsi trend
                               (mkDivergence BEARISH s3) = Fin r
    /\ r <= n /\ n <= b /\ b - n <= 15 /\ n - r <= 15.
Proof.
  unfold calculateTechnicalScore. cbv zeta. cbn [dtype].
  apply divergence_step.
  apply fin_stoch, fin_adx, fin_rsi, fin_trend, fin_momentum.
  exact I.
Qed.

(** ** Hybrid scanner: classification and risk *)

Module HybridRules.
Import HybridScannerService.

Lemma classifyMove_cases signal history regime :
  let c := classifyMove signal history regime in
  c <> STOP_HUNT
  /\ (c = LIQUIDITY_GRAB ->
      signalType signal = SIG_BREAKOUT
      \/ signalType signal = SIG_SCALPING_PUMP)
  /\ (c = NEWS_EVENT -> regime = VOLATILE)
  /\ (c = UNKNOWN -> regime = RANGING \/ history = []).
Proof.
  cbv zeta. unfold classifyMove.
  destruct (fromEnd history 0) as [lastCandle|] eqn:L.
  - cbv zeta.
    set (supported := toNum (volume lastCandle) .> _).
    set (movePct := Js.abs _ .* Fin 100).
    clearbody supported movePct.
    destruct (signalType signal), regime, supported,
      (movePct .> Fin 2.0);
      cbn [SignalType_eqb MarketRegime_eqb orb andb negb];
      repeat split; intros; try discriminate; auto.
  - repeat split; intros; try discriminate. right.
    unfold fromEnd in L. destruct history as [|h rest]; [reflexivity|].
    cbn [length] in L. change (0 <? S (length rest))%nat with true in L.
    cbv iota in L. apply nth_error_None in L. cbn [length] in L. lia.
Qed.

Lemma futuresOverlay_none baseSignal (score : num) :
  futuresData baseSignal = None ->
  futuresOverlay baseSignal score = (None, score, None).
Proof. intro H. unfold futuresOverlay. rewrite H. reflexivity. Qed.

Lemma assessRisk_high (score : num) regime classification :
  classification = LIQUIDITY_GRAB \/ regime = VOLATILE ->
  fst (assessRisk score regime classification) = HIGH.
Proof.
  intros [->| ->]; unfold assessRisk; cbv zeta; cbn [fst MarketRegime_eqb].
  - reflexivity.
  - destruct classification; reflexivity.
Qed.

(** X20: [enrichSignal] never classifies a move as STOP_HUNT.  It
    reports LIQUIDITY_GRAB only for BREAKOUT and SCALPING_PUMP signals,
    NEWS_EVENT only in the VOLATILE regime and UNKNOWN only in the RANGING
    one; and without derivatives data the risk is HIGH whenever the move is
    a liquidity grab or the regime is volatile. *)
Theorem enrichSignal_classification baseSignal history btcContext :
  let r := enrichSignal baseSignal history btcContext in
  moveClassification r <> STOP_HUNT
  /\ (moveClassification r = LIQUIDITY_GRAB ->
      signalType baseSignal = SIG_BREAKOUT
      \/ signalType baseSignal = SIG_SCALPING_PUMP)
  /\ (moveClassification r = NEWS_EVENT -> marketRegime r = VOLATILE)
  /\ (moveClassification r = UNKNOWN -> marketRegime r = RANGING)
  /\ (futuresData baseSignal = None ->
      moveClassification r = LIQUIDITY_GRAB \/ marketRegime r = VOLATILE ->
      riskLevel r = HIGH).
Proof.
  intro r. unfold r, enrichSignal.
  destruct (Nat.ltb_spec (length history) 50) as [Short|Long].
  - cbn [moveClassification marketRegime riskLevel].
    repeat split; intros; try discriminate; auto.
    destruct H0; discriminate.
  - cbv zeta.
    set (regime := detectMarketRegime history (map price history)).
    pose proof (classifyMove_cases baseSignal history regime) as C.
    cbv zeta in C.
    set (classification := classifyMove baseSignal history regime) in *.
    set (score := calculateOpportunityScore baseSignal regime classification
                                            history btcContext).
    pose proof (futuresOverlay_none baseSignal score) as O.
    destruct (futuresOverlay baseSignal score) as [[tag adj] risk'].
    pose proof (assessRisk_high adj regime classification) as A.
    destruct (assessRisk adj regime classification) as [risk fp].
    cbn [moveClassification marketRegime riskLevel]. cbn [fst] in A.
    destruct C as (C1 & C2 & C3 & C4).
    split; [exact C1|]. split; [exact C2|]. split; [exact C3|].
    split.
    + intro U. destruct (C4 U) as [R|E]; [exact R|].
      rewrite E in Long. cbn [length] in Long. lia.
    + intros N H. specialize (O N). injection O as _ _ ->.
      apply A. exact H.
Qed.

Lemma ratio_high (a : num) :
  (a .> Fin 3.0) = true -> (a .< Fin 0.6) = false /\ (a .< Fin 0.8) = false.
Proof.
  destruct a as [q| | |]; unfold Js.gt; cbn [Js.lt]; try discriminate.
  - intro H. apply Qltb_lt in H. split; apply Qltb_ge; lra.
  - intros _. split; reflexivity.
Qed.

(** X21: with at least fifty candles and derivatives data, the
    overlay decides the risk of a signal that is not a DUMP: a long/short
    ratio below 0.6 gives risk LOW with the short-squeeze tag (or the
    smart-money tag that overwrites it), whatever the regime and the move
    are; a ratio above 3 gives risk HIGH with the crowded-longs tag.  A
    DUMP signal never gets a tag. *)
Theorem enrichSignal_overlay baseSignal history btcContext fd :
  (50 <= length history)%nat -> futuresData baseSignal = Some fd ->
  let r := enrichSignal baseSignal history btcContext in
  (signalType baseSignal <> SIG_DUMP ->
   (longShortRatio fd .< Fin 0.6) = true ->
   riskLevel r = LOW
   /\ (institutionalTag r = Some tagShortSqueeze
       \/ institutionalTag r = Some tagSmartMoney))
  /\ (signalType baseSignal <> SIG_DUMP ->
      (longShortRatio fd .> Fin 3.0) = true ->
      riskLevel r = HIGH /\ institutionalTag r = Some tagCrowdedLongs)
  /\ (signalType baseSignal = SIG_DUMP -> institutionalTag r = None).
Proof.
  intros Long F r. unfold r, enrichSignal.
  assert (B : (length history <? 50)%nat = false)
    by (apply Nat.ltb_ge; exact Long).
  rewrite B. cbv zeta.
  set (regime := detectMarketRegime history (map price history)).
  set (classification := classifyMove baseSignal history regime).
  set (score := calculateOpportunityScore baseSignal regime classification
                                          history btcContext).
  clearbody score classification regime.
  unfold futuresOverlay. rewrite F. cbv zeta.
  split; [|split].
  - intros D S.
    assert (N : negb (SignalType_eqb (signalType baseSignal) SIG_DUMP) = true)
      by (destruct (signalType baseSignal); try reflexivity; contradiction).
    rewrite S, N. cbn [andb].
    destruct (SignalType_eqb (signalType baseSignal) SIG_ACCUMULATION
              && (openInterest fd .> Fin 0)
              && (longShortRatio fd .< Fin 0.8));
      destruct (assessRisk _ regime classification) as [risk fp];
      cbn [riskLevel institutionalTag]; split; auto.
  - intros D S. destruct (ratio_high _ S) as (S6 & S8).
    assert (N : negb (SignalType_eqb (signalType baseSignal) SIG_DUMP) = true)
      by (destruct (signalType baseSignal); try reflexivity; contradiction).
    rewrite S, S6, S8, N. cbn [andb]. rewrite andb_false_r.
    destruct (assessRisk _ regime classification) as [risk fp].
    cbn [riskLevel institutionalTag]. split; reflexivity.
  - intro D. rewrite D. cbn [SignalType_eqb negb andb].
    rewrite !andb_false_r.
    destruct (assessRisk _ regime classification) as [risk fp].
    reflexivity.
Qed.

End HybridRules.

(** ** Minimum and maximum of a finite array *)

Lemma minLoop_Fin (qs : list Q) :
  forall m : Q,
    exists m',
      fold_left Js.min (map Fin qs) (Fin m) = Fin m'
      /\ m' <= m /\ Forall (fun x => m' <= x) qs /\ (m' = m \/ In m' qs).
Proof.
  induction qs as [|q rest IH]; intro m.
  - exists m. split; [reflexivity|]. split; [lra|].
    split; [constructor|left; reflexivity].
  - cbn [map fold_left]. unfold Js.min at 2. cbn [isNaN orb Js.lt].
    destruct (Qltb q m) eqn:E.
    + apply Qltb_lt in E.
      destruct (IH q) as (m' & Em & L & All & I).
      exists m'. split; [exact Em|]. split; [lra|].
      split; [constructor; assumption|].
      right. destruct I as [->|I]; [left; reflexivity|right; exact I].
    + apply Qltb_ge in E.
      destruct (IH m) as (m' & Em & L & All & I).
      exists m'. split; [exact Em|]. split; [exact L|].
      split; [constructor; [lra|exact All]|].
      destruct I as [->|I]; [left; reflexivity|right; right; exact I].
Qed.

Lemma maxLoop_Fin (qs : list Q) :
  forall m : Q,
    exists m',
      fold_left Js.max (map Fin qs) (Fin m) = Fin m'
      /\ m <= m' /\ Forall (fun x => x <= m') qs /\ (m' = m \/ In m' qs).
Proof.
  induction qs as [|q rest IH]; intro m.
  - exists m. split; [reflexivity|]. split; [lra|].
    split; [constructor|left; reflexivity].
  - cbn [map fold_left]. unfold Js.max at 2. cbn [isNaN orb Js.lt].
    destruct (Qltb m q) eqn:E.
    + apply Qltb_lt in E.
      destruct (IH q) as (m' & Em & L & All & I).
      exists m'. split; [exact Em|]. split; [lra|].
      split; [constructor; assumption|].
      right. destruct I as [->|I]; [left; reflexivity|right; exact I].
    + apply Qltb_ge in E.
      destruct (IH m) as (m' & Em & L & All & I).
      exists m'. split; [exact Em|]. split; [exact L|].
      split; [constructor; [lra|exact All]|].
      destruct I as [->|I]; [left; reflexivity|right; right; exact I].
Qed.

Lemma minList_Fin (q : Q) (qs : list Q) :
  exists m,
    minList (map Fin (q :: qs)) = Fin m
    /\ In m (q :: qs) /\ Forall (fun x => m <= x) (q :: qs).
Proof.
  unfold minList. cbn [map fold_left].
  change (Js.min PInf (Fin q)) with (Fin q).
  destruct (minLoop_Fin qs q) as (m & E & L & All & I).
  exists m. split; [exact E|].
  split; [destruct I as [->|I]; [left; reflexivity|right; exact I]|].
  constructor; assumption.
Qed.

Lemma maxList_Fin (q : Q) (qs : list Q) :
  exists m,
    maxList (map Fin (q :: qs)) = Fin m
    /\ In m (q :: qs) /\ Forall (fun x => x <= m) (q :: qs).
Proof.
  unfold maxList. cbn [map fold_left].
  change (Js.max NInf (Fin q)) with (Fin q).
  destruct (maxLoop_Fin qs q) as (m & E & L & All & I).
  exists m. split; [exact E|].
  split; [destruct I as [->|I]; [left; reflexivity|right; exact I]|].
  constructor; assumption.
Qed.

(** ** Volume profile *)

(** *** A window of equal prices *)

Lemma extremes_repeat (p : Q) (n : nat) :
  (1 <= n)%nat ->
  minList (repeat (Fin p) n) = Fin p /\ maxList (repeat (Fin p) n) = Fin p.
Proof.
  intro H. destruct n as [|n]; [lia|]. unfold minList, maxList.
  cbn [repeat fold_left].
  change (Js.min PInf (Fin p)) with (Fin p).
  change (Js.max NInf (Fin p)) with (Fin p).
  assert (Irr : Qltb p p = false) by (apply Qltb_ge; lra).
  clear H. induction n as [|n IH]; [split; reflexivity|].
  cbn [repeat fold_left]. unfold Js.min at 2, Js.max at 2.
  cbn [isNaN orb Js.lt]. rewrite Irr. exact IH.
Qed.

Lemma fillBins_unchanged (prices volumes : list num) (min step : num)
      (bins : nat) (profileBins : list num) :
  (forall i, (i < length prices)%nat ->
             (at_ prices i .- min) ./ step = NaN) ->
  fillBins prices volumes min step bins profileBins = profileBins.
Proof.
  intro H. unfold fillBins.
  assert (G : forall js,
             Forall (fun i => (i < length prices)%nat) js ->
             fold_left
               (fun profileBins i =>
                  let price := at_ prices i in
                  let vol := at_ volumes i in
                  let binIndex := Js.floor ((price .- min) ./ step) in
                  let binIndex :=
                    if binIndex .>= ofNat bins then ofNat bins .- Fin 1
                    else binIndex in
                  addAtKey profileBins binIndex vol)
               js profileBins
             = profileBins).
  { induction js as [|j js IH]; intro Hjs; [reflexivity|].
    inversion Hjs as [|? ? Hj Hrest]; subst. cbn [fold_left]. cbv zeta.
    rewrite (H j Hj). cbn [Js.floor]. 
    change (NaN .>= ofNat bins) with false. cbv iota.
    cbn [addAtKey]. apply IH. exact Hrest. }
  apply G. apply Forall_forall. intros i Hi. apply in_seq in Hi. lia.
Qed.

Lemma at_fill (n i : nat) (x : num) :
  (i < n)%nat -> at_ (fill n x) i = x.
Proof.
  intro H. unfold at_, fill. rewrite nth_error_repeat by exact H.
  reflexivity.
Qed.

(** The POC loop over empty bins. *)
Lemma pocLoop_empty (bins : nat) :
  exists t, pocLoop (fill bins (Fin 0)) bins = (Fin 0, 0%nat, Fin t)
            /\ t == 0.
Proof.
  unfold pocLoop.
  assert (G : forall js (t : Q),
             Forall (fun i => (i < bins)%nat) js ->
             exists t',
               fold_left
                 (fun (st : num * nat * num) i =>
                    let '(maxVol, pocIndex, totalVolume) := st in
                    let vol := at_ (fill bins (Fin 0)) i in
                    let '(maxVol, pocIndex) :=
                      if vol .> maxVol then (vol, i)
                      else (maxVol, pocIndex) in
                    (maxVol, pocIndex, totalVolume .+ vol))
                 js (Fin 0, 0%nat, Fin t)
               = (Fin 0, 0%nat, Fin t') /\ t' == t).
  { induction js as [|j js IH]; intros t Hjs.
    - exists t. split; reflexivity.
    - inversion Hjs as [|? ? Hj Hrest]; subst. cbn [fold_left]. cbv zeta.
      rewrite (at_fill bins j (Fin 0) Hj).
      change (Fin 0 .> Fin 0) with false. cbv iota. cbn [Js.add].
      destruct (IH (t + 0) Hrest) as (t' & E & Ht).
      exists t'. split; [exact E|]. lra. }
  apply G. apply Forall_forall. intros i Hi. apply in_seq in Hi. lia.
Qed.

(** X22: on a window whose prices are all equal the bin width is 0,
    the bin index of every candle is NaN, and no volume reaches the bins:
    [calculateVolumeProfile] returns at once, with every bin empty and the
    point of control and both ends of the value area at the one price. *)
Theorem calculateVolumeProfile_equal_prices
        (fuel : nat) (p : Q) (n : nat) (volumes : list num) (bins : nat) :
  (1 <= n)%nat -> (1 <= length volumes)%nat -> (1 <= bins)%nat ->
  exists vp q,
    calculateVolumeProfile fuel (repeat (Fin p) n) volumes bins = Some vp
    /\ length (profile vp) = bins
    /\ Forall (fun b => binVolume b = Fin 0) (profile vp)
    /\ poc vp = Some (Fin q) /\ q == p
    /\ vacLow vp = poc vp /\ vacHigh vp = poc vp.
Proof.
  intros Hn Hv Hb. unfold calculateVolumeProfile.
  rewrite repeat_length.
  assert (E1 : (n =? 0)%nat = false) by (apply Nat.eqb_neq; lia).
  assert (E2 : (length volumes =? 0)%nat = false)
    by (apply Nat.eqb_neq; lia).
  rewrite E1, E2. cbn [orb]. cbv zeta.
  destruct (extremes_repeat p n Hn) as (-> & ->).
  assert (St : exists step,
             (Fin p .- Fin p) ./ ofNat bins = Fin step /\ step == 0).
  { unfold ofNat. cbn [Js.sub Js.neg Js.add Js.div].
    rewrite (ofNat_nonzero bins Hb). eexists. split; [reflexivity|].
    apply div_zero; [exact Hb|]. lra. }
  destruct St as (step & -> & Sz).
  rewrite fillBins_unchanged.
  2:{ intros i Hi. rewrite repeat_length in Hi.
      unfold at_. rewrite nth_error_repeat by exact Hi.
      cbn [toNum Js.sub Js.neg Js.add Js.div].
      assert (Z : Qeq_bool step 0 = true) by (apply Qeq_bool_iff; exact Sz).
      rewrite Z. unfold signed_inf.
      assert (Z' : Qeq_bool (p + - p) 0 = true)
        by (apply Qeq_bool_iff; lra).
      rewrite Z'. reflexivity. }
  destruct (pocLoop_empty bins) as (t & -> & Ht).
  cbv beta iota. cbn [Js.mul].
  change (Fin t .* Fin 0.7) with (Fin (t * 0.7)).
  assert (C : (Fin 0 .< Fin (t * 0.7)) = false).
  { cbn [Js.lt]. apply Qltb_ge. rewrite Ht. lra. }
  assert (V : valueAreaLoop fuel (fill bins (Fin 0)) bins (Fin (t * 0.7))
                            (Fin 0) (Z.of_nat 0) (Z.of_nat 0)
              = Some (Z.of_nat 0, Z.of_nat 0)).
  { destruct fuel; cbn [valueAreaLoop]; rewrite C; reflexivity. }
  rewrite V.
  destruct bins as [|b]; [lia|].
  eexists. eexists. split; [reflexivity|].
  cbn [profile poc vacLow vacHigh].
  split; [rewrite length_map, length_seq; reflexivity|].
  split.
  - apply Forall_forall. intros x Hx. apply in_map_iff in Hx.
    destruct Hx as (i & <- & Hi). apply in_seq in Hi.
    cbn [binVolume]. apply at_fill. lia.
  - cbn [seq map nth_error atZ Z.of_nat Z.ltb Z.compare Z.to_nat].
    unfold ofNat. cbn [Js.mul Js.add].
    split; [reflexivity|]. split; [|split; reflexivity].
    change (inject_Z (Z.of_nat 0)) with 0. lra.
Qed.

(** *** A profile without empty bins *)

Lemma addAtKey_length (profileBins : list num) (binIndex vol : num) :
  length (addAtKey profileBins binIndex vol) = length profileBins.
Proof.
  unfold addAtKey. destruct binIndex as [q| | |]; try reflexivity.
  cbv zeta. destruct (_ && _); [|reflexivity].
  unfold mapi. apply length_mapiFrom.
Qed.

Lemma fillBins_length (prices volumes : list num) (min step : num)
      (bins : nat) (profileBins : list num) :
  length (fillBins prices volumes min step bins profileBins)
  = length profileBins.
Proof.
  unfold fillBins. generalize (seq 0 (length prices)) as js.
  intro js. revert profileBins.
  induction js as [|j js IH]; intro profileBins; [reflexivity|].
  cbn [fold_left]. rewrite IH. cbv zeta. apply addAtKey_length.
Qed.

Lemma pocLoop_index (profileBins : list num) (bins : nat) :
  (1 <= bins)%nat -> (snd (fst (pocLoop profileBins bins)) < bins)%nat.
Proof.
  intro Hb. unfold pocLoop.
  assert (G : forall js (st : num * nat * num),
             Forall (fun i => (i < bins)%nat) js ->
             (snd (fst st) < bins)%nat ->
             (snd (fst
                     (fold_left
                        (fun (st : num * nat * num) i =>
                           let '(maxVol, pocIndex, totalVolume) := st in
                           let vol := at_ profileBins i in
                           let '(maxVol, pocIndex) :=
                             if vol .> maxVol then (vol, i)
                             else (maxVol, pocIndex) in
                           (maxVol, pocIndex, totalVolume .+ vol))
                        js st))
              < bins)%nat).
  { induction js as [|j js IH]; intros st Hjs Hst; [exact Hst|].
    inversion Hjs as [|? ? Hj Hrest]; subst. cbn [fold_left].
    apply IH; [exact Hrest|].
    destruct st as [[maxVol pocIndex] totalVolume]. cbv zeta.
    destruct (at_ profileBins j .> maxVol); cbn [fst snd]; assumption. }
  apply G; [|cbn [fst snd]; lia].
  apply Forall_forall. intros i Hi. apply in_seq in Hi. lia.
Qed.

Lemma atZ_positive (xs : list Q) (z : Z) :
  Forall (fun x => 0 < x) xs -> (0 <= z < Z.of_nat (length xs))%Z ->
  exists x, toNum (atZ (map Fin xs) z) = Fin x /\ 0 < x.
Proof.
  intros H Hz. unfold atZ.
  assert (E : (z <? 0)%Z = false) by (apply Z.ltb_ge; lia).
  rewrite E, nth_error_map.
  destruct (nth_error xs (Z.to_nat z)) as [x|] eqn:N.
  - exists x. split; [reflexivity|].
    exact (proj1 (Forall_forall _ _) H _ (nth_error_In _ _ N)).
  - apply nth_error_None in N. lia.
Qed.

(** Over bins that all hold volume the window grows by one bin per round
    and stays inside the array, so the loop ends. *)
Lemma valueAreaLoop_ends (xs : list Q) (targetVol : num) :
  Forall (fun x => 0 < x) xs ->
  forall fuel currentVol lowIdx highIdx,
    (0 <= lowIdx)%Z -> (lowIdx <= highIdx)%Z ->
    (highIdx < Z.of_nat (length xs))%Z ->
    (lowIdx + (Z.of_nat (length xs) - 1 - highIdx) <= Z.of_nat fuel)%Z ->
    exists lowIdx' highIdx',
      valueAreaLoop fuel (map Fin xs) (length xs) targetVol currentVol
                    lowIdx highIdx
      = Some (lowIdx', highIdx')
      /\ (0 <= lowIdx')%Z /\ (lowIdx' <= lowIdx)%Z
      /\ (highIdx <= highIdx')%Z /\ (highIdx' < Z.of_nat (length xs))%Z.
Proof.
  intro H. induction fuel as [|fuel IH];
    intros cur lo hi Hlo Hlh Hhi Hfuel.
  - cbn [valueAreaLoop].
    assert (A : (lo >? 0)%Z = false)
      by (rewrite Z.gtb_ltb; apply Z.ltb_ge; lia).
    assert (B : (hi <? Z.of_nat (length xs) - 1)%Z = false)
      by (apply Z.ltb_ge; lia).
    rewrite A, B, andb_false_r. exists lo, hi. repeat split; lia.
  - cbn [valueAreaLoop].
    destruct ((cur .< targetVol)
              && ((lo >? 0)%Z || (hi <? Z.of_nat (length xs) - 1)%Z))
      eqn:C; [|exists lo, hi; repeat split; lia].
    apply andb_prop in C. destruct C as (_ & C). cbv zeta.
    destruct (lo >? 0)%Z eqn:A;
      destruct (hi <? Z.of_nat (length xs) - 1)%Z eqn:B;
      try (rewrite Z.gtb_ltb in A);
      try apply Z.ltb_lt in A; try apply Z.ltb_lt in B;
      try apply Z.ltb_ge in A; try apply Z.ltb_ge in B.
    + destruct (_ .> _).
      * destruct (IH (cur .+ toNum (atZ (map Fin xs) (hi + 1))) lo
                     (hi + 1)%Z)
          as (lo' & hi' & E & P1 & P2 & P3 & P4); try lia.
        exists lo', hi'. split; [exact E|]. repeat split; lia.
      * destruct (IH (cur .+ toNum (atZ (map Fin xs) (lo - 1)))
                     (lo - 1)%Z hi)
          as (lo' & hi' & E & P1 & P2 & P3 & P4); try lia.
        exists lo', hi'. split; [exact E|]. repeat split; lia.
    + destruct (atZ_positive xs (lo - 1) H) as (x & Ex & Px); [lia|].
      rewrite Ex. unfold Js.gt. cbn [Js.lt].
      assert (L : Qltb x 0 = false) by (apply Qltb_ge; lra).
      rewrite L.
      destruct (IH (cur .+ Fin x) (lo - 1)%Z hi)
        as (lo' & hi' & E & P1 & P2 & P3 & P4); try lia.
      exists lo', hi'. split; [exact E|]. repeat split; lia.
    + destruct (atZ_positive xs (hi + 1) H) as (x & Ex & Px); [lia|].
      rewrite Ex. unfold Js.gt. cbn [Js.lt].
      assert (L : Qltb 0 x = true) by (apply Qltb_lt; exact Px).
      rewrite L.
      destruct (IH (cur .+ Fin x) lo (hi + 1)%Z)
        as (lo' & hi' & E & P1 & P2 & P3 & P4); try lia.
      exists lo', hi'. split; [exact E|]. repeat split; lia.
    + discriminate C.
Qed.

Lemma at_seq (l : list num) : map (at_ l) (seq 0 (length l)) = l.
Proof.
  induction l as [|x rest IH]; [reflexivity|].
  cbn [length seq map]. f_equal.
  rewrite <- seq_shift, map_map. exact IH.
Qed.

(** The keys of the bins of a finite window of prices. *)
Lemma binKeys_at (lo s : Q) (bins : nat) (z : Z) :
  (0 <= z < Z.of_nat bins)%Z ->
  atZ (map (fun i => Fin lo .+ ofNat i .* Fin s) (seq 0 bins)) z
  = Some (Fin (lo + inject_Z z * s)).
Proof.
  intro Hz. unfold atZ.
  assert (E : (z <? 0)%Z = false) by (apply Z.ltb_ge; lia).
  rewrite E, nth_error_map.
  rewrite (nth_error_nth' (seq 0 bins) 0%nat)
    by (rewrite length_seq; lia).
  rewrite seq_nth by lia. cbn [option_map Nat.add].
  unfold ofNat. cbn [Js.mul Js.add]. rewrite Z2Nat.id by lia.
  reflexivity.
Qed.


(** *** The volume in the bins *)


Lemma sumQ_cons (x : Q) (xs : list Q) : sumQ (x :: xs) == x + sumQ xs.
Proof.
  unfold sumQ. cbn [fold_left].
  assert (G : forall l a b, fold_left Qplus l (a + b)
                            == a + fold_left Qplus l b).
  { induction l as [|y l IH]; intros a b; cbn [fold_left]; [reflexivity|].
    rewrite <- IH. 
    assert (E : forall u v, u == v -> fold_left Qplus l u
                                      == fold_left Qplus l v).
    { clear. induction l as [|z l IH]; intros u v H; cbn [fold_left];
        [exact H|]. apply IH. rewrite H. reflexivity. }
    apply E. ring. }
  rewrite <- G.
  assert (E : forall l u v, u == v -> fold_left Qplus l u
                                      == fold_left Qplus l v).
  { clear. induction l as [|z l IH]; intros u v H; cbn [fold_left];
      [exact H|]. apply IH. rewrite H. reflexivity. }
  apply E. ring.
Qed.

Lemma firstn_snoc {A} (l : list A) (n : nat) (x : A) :
  nth_error l n = Some x -> firstn (S n) l = firstn n l ++ [x].
Proof.
  revert n. induction l as [|y l IH]; intros n H.
  - destruct n; discriminate.
  - destruct n as [|n].
    + injection H as ->. reflexivity.
    + cbn [nth_error] in H.
      change (firstn (S (S n)) (y :: l)) with (y :: firstn (S n) l).
      rewrite (IH n H). reflexivity.
Qed.

(** [profileBins[k] += vol] on bins that hold finite volumes. *)
Lemma addAt_total (xs : list Q) (k : nat) (v : Q) :
  (k < length xs)%nat ->
  exists xs',
    mapi (fun i x => if (i =? k)%nat then x .+ Fin v else x) (map Fin xs)
    = map Fin xs'
    /\ length xs' = length xs /\ sumQ xs' == sumQ xs + v
    /\ (0 <= v -> Forall (fun x => 0 <= x) xs ->
        Forall (fun x => 0 <= x) xs').
Proof.
  unfold mapi.
  assert (G : forall a, (a <= k)%nat -> (k < a + length xs)%nat ->
                        exists xs',
                          mapiFrom (fun i x => if (i =? k)%nat
                                               then x .+ Fin v else x)
                                   a (map Fin xs)
                          = map Fin xs'
                          /\ length xs' = length xs
                          /\ sumQ xs' == sumQ xs + v
                          /\ (0 <= v -> Forall (fun x => 0 <= x) xs ->
                              Forall (fun x => 0 <= x) xs')).
  { induction xs as [|x rest IH]; intros a Ha Hk; [cbn [length] in Hk; lia|].
    cbn [map mapiFrom]. destruct (Nat.eqb_spec a k) as [->|Hne].
    - exists ((x + v) :: rest). split.
      + cbn [map Js.add]. f_equal.
        assert (Same : forall (l : list Q) b,
                   (k < b)%nat ->
                   mapiFrom (fun i x => if (i =? k)%nat
                                        then x .+ Fin v else x)
                            b (map Fin l)
                   = map Fin l).
        { induction l as [|y l IHl]; intros b Hb; [reflexivity|].
          cbn [map mapiFrom].
          assert (N : (b =? k)%nat = false) by (apply Nat.eqb_neq; lia).
          rewrite N, IHl by lia. reflexivity. }
        apply Same. lia.
      + split; [reflexivity|]. split; [rewrite !sumQ_cons; ring|].
        intros Hv Hx. inversion Hx as [|? ? Hx0 Hxr]; subst.
        constructor; [lra|exact Hxr].
    - destruct (IH (S a)) as (xs' & E & L & S & N);
        [lia|cbn [length] in Hk; lia|].
      exists (x :: xs'). cbn [map]. rewrite E.
      split; [reflexivity|]. split; [cbn [length]; lia|].
      split; [rewrite !sumQ_cons, S; ring|].
      intros Hv Hx. inversion Hx as [|? ? Hx0 Hxr]; subst.
      constructor; [exact Hx0|apply N; assumption]. }
  intro H. apply G; lia.
Qed.

(** The bin of a price between the lowest key and the top of the range. *)
Lemma binIndex_key (p lo s : Q) (bins : nat) :
  (1 <= bins)%nat -> 0 < s -> lo <= p ->
  exists k,
    (k < bins)%nat
    /\ forall profileBins vol,
        addAtKey profileBins
                 (if Js.floor ((Fin p .- Fin lo) ./ Fin s) .>= ofNat bins
                  then ofNat bins .- Fin 1
                  else Js.floor ((Fin p .- Fin lo) ./ Fin s))
                 vol
        = mapi (fun i x => if (i =? k)%nat then x .+ vol else x)
               profileBins.
Proof.
  intros Hb Hs Hp. cbn [Js.sub Js.neg Js.add Js.div].
  assert (Z : Qeq_bool s 0 = false) by (apply Qeqb_neq; lra).
  rewrite Z. cbn [Js.floor].
  set (z := Qfloor ((p + - lo) / s)).
  assert (Hz : (0 <= z)%Z).
  { change 0%Z with (Qfloor 0). apply Qfloor_resp_le.
    apply Qle_shift_div_l; lra. }
  unfold Js.ge, ofNat. rewrite le_Fin.
  destruct (Qle_bool (inject_Z (Z.of_nat bins)) (inject_Z z)) eqn:C.
  - exists (bins - 1)%nat. split; [lia|]. intros profileBins vol.
    cbn [Js.sub Js.neg Js.add addAtKey].
    assert (E : inject_Z (Z.of_nat bins) + - (1)
                == inject_Z (Z.of_nat bins - 1)).
    { unfold Z.sub. rewrite inject_Z_plus, inject_Z_opp. reflexivity. }
    assert (F : Qfloor (inject_Z (Z.of_nat bins) + - (1))
                = (Z.of_nat bins - 1)%Z).
    { rewrite E. apply Qfloor_Z. }
    cbv zeta. rewrite F.
    assert (Q1 : Qeq_bool (inject_Z (Z.of_nat bins) + - (1))
                          (inject_Z (Z.of_nat bins - 1)) = true)
      by (apply Qeq_bool_iff; exact E).
    assert (Q2 : (0 <=? Z.of_nat bins - 1)%Z = true)
      by (apply Z.leb_le; lia).
    rewrite Q1, Q2. cbn [andb].
    replace (Z.to_nat (Z.of_nat bins - 1)) with (bins - 1)%nat by lia.
    reflexivity.
  - assert (Lt : (z < Z.of_nat bins)%Z).
    { destruct (Z.lt_ge_cases z (Z.of_nat bins)) as [L|G]; [exact L|].
      exfalso. apply Z.ge_le_iff in G.
      assert (Q : inject_Z (Z.of_nat bins) <= inject_Z z)
        by (rewrite <- Zle_Qle; lia).
      apply Qle_bool_iff in Q. congruence. }
    exists (Z.to_nat z). split; [lia|]. intros profileBins vol.
    cbn [addAtKey]. cbv zeta. rewrite Qfloor_Z.
    assert (Q1 : Qeq_bool (inject_Z z) (inject_Z z) = true)
      by (apply Qeq_bool_iff; reflexivity).
    assert (Q2 : (0 <=? z)%Z = true) by (apply Z.leb_le; exact Hz).
    rewrite Q1, Q2. reflexivity.
Qed.

(** The accumulation loop adds every volume to one of the bins. *)
Lemma fillBins_total (ps vs : list Q) (lo s : Q) (bins : nat) :
  length vs = length ps -> (1 <= bins)%nat -> 0 < s ->
  Forall (fun p => lo <= p) ps ->
  forall xs,
    length xs = bins ->
    exists xs',
      fillBins (map Fin ps) (map Fin vs) (Fin lo) (Fin s) bins (map Fin xs)
      = map Fin xs'
      /\ length xs' = bins /\ sumQ xs' == sumQ xs + sumQ vs
      /\ (Forall (fun v => 0 <= v) vs -> Forall (fun x => 0 <= x) xs ->
          Forall (fun x => 0 <= x) xs').
Proof.
  intros Hlen Hb Hs Hlo xs Hxs. unfold fillBins. rewrite length_map.
  assert (G : forall n,
             (n <= length ps)%nat ->
             exists xs',
               fold_left
                 (fun profileBins i =>
                    let price := at_ (map Fin ps) i in
                    let vol := at_ (map Fin vs) i in
                    let binIndex := Js.floor ((price .- Fin lo) ./ Fin s) in
                    let binIndex :=
                      if binIndex .>= ofNat bins then ofNat bins .- Fin 1
                      else binIndex in
                    addAtKey profileBins binIndex vol)
                 (seq 0 n) (map Fin xs)
               = map Fin xs'
               /\ length xs' = bins
               /\ sumQ xs' == sumQ xs + sumQ (firstn n vs)
               /\ (Forall (fun v => 0 <= v) vs ->
                   Forall (fun x => 0 <= x) xs ->
                   Forall (fun x => 0 <= x) xs')).
  { induction n as [|n IH]; intro Hn.
    - exists xs. split; [reflexivity|]. split; [exact Hxs|].
      split; [|intros _ Hx; exact Hx].
      cbn [firstn]. unfold sumQ at 3. cbn [fold_left]. ring.
    - destruct IH as (xs1 & E & L & S & N); [lia|].
      rewrite seq_S, fold_left_app, E. cbn [fold_left Nat.add]. cbv zeta.
      destruct (nth_error_in_range ps n) as (p & Ep); [lia|].
      destruct (nth_error_in_range vs n) as (v & Ev); [lia|].
      unfold at_. rewrite !nth_error_map, Ep, Ev. cbn [option_map toNum].
      destruct (binIndex_key p lo s bins Hb Hs) as (k & Hk & K).
      { exact (proj1 (Forall_forall _ _) Hlo _ (nth_error_In _ _ Ep)). }
      rewrite K.
      destruct (addAt_total xs1 k v) as (xs2 & E2 & L2 & S2 & N2); [lia|].
      exists xs2. split; [exact E2|]. split; [lia|].
      split; [rewrite (firstn_snoc vs n v Ev), sumQ_snoc, S2, S; ring|].
      intros Hv Hx. apply N2; [|apply N; assumption].
      exact (proj1 (Forall_forall _ _) Hv _ (nth_error_In _ _ Ev)). }
  destruct (G (length ps) (Nat.le_refl _)) as (xs' & E & L & S & N).
  exists xs'. split; [exact E|]. split; [exact L|]. split; [|exact N].
  rewrite S. rewrite <- Hlen, firstn_all. reflexivity.
Qed.

Lemma sumQ_zeros (n : nat) : sumQ (repeat 0 n) == 0.
Proof.
  induction n as [|n IH]; [reflexivity|].
  cbn [repeat]. rewrite sumQ_cons, IH. ring.
Qed.

(** The bins of a returned profile, in the exact arithmetic of the model:
    every volume is added to one of them. *)
Lemma calculateVolumeProfile_total
        (q : Q) (ps vs : list Q) (bins fuel : nat) (vp : VolumeProfile) :
  length vs = length (q :: ps) -> (1 <= bins)%nat ->
  (exists a b, In a (q :: ps) /\ In b (q :: ps) /\ a < b) ->
  calculateVolumeProfile fuel (map Fin (q :: ps)) (map Fin vs) bins
  = Some vp ->
  exists xs,
    map binVolume (profile vp) = map Fin xs
    /\ length xs = bins /\ sumQ xs == sumQ vs
    /\ (Forall (fun v => 0 <= v) vs -> Forall (fun x => 0 <= x) xs).
Proof.
  intros Hlen Hb (a & b & Ia & Ib & Hab) H.
  unfold calculateVolumeProfile in H. cbv zeta in H.
  rewrite !length_map, Hlen in H. cbn [length Nat.eqb orb] in H.
  destruct (minList_Fin q ps) as (lo & Emin & Ilo & Alo).
  destruct (maxList_Fin q ps) as (hi & Emax & Ihi & Ahi).
  rewrite Emin, Emax in H.
  assert (Hlh : lo < hi).
  { assert (lo <= a) by exact (proj1 (Forall_forall _ _) Alo _ Ia).
    assert (b <= hi) by exact (proj1 (Forall_forall _ _) Ahi _ Ib).
    lra. }
  assert (St : exists s, (Fin hi .- Fin lo) ./ ofNat bins = Fin s /\ 0 < s).
  { unfold ofNat. cbn [Js.sub Js.neg Js.add Js.div].
    rewrite (ofNat_nonzero bins Hb). eexists. split; [reflexivity|].
    pose proof (ofNat_pos bins Hb). apply Qlt_shift_div_l; lra. }
  destruct St as (s & Es & Hs). rewrite Es in H.
  assert (F : fill bins (Fin 0) = map Fin (repeat 0 bins))
    by (unfold fill; rewrite map_repeat; reflexivity).
  rewrite F in H.
  destruct (fillBins_total (q :: ps) vs lo s bins Hlen Hb Hs Alo
                           (repeat 0 bins) (repeat_length _ _))
    as (xs & E & L & S & N).
  rewrite E in H.
  destruct (pocLoop (map Fin xs) bins) as [[maxVol pocIndex] totalVolume].
  destruct (valueAreaLoop _ _ _ _ _ _ _) as [[lowIdx highIdx]|];
    [|discriminate].
  injection H as <-. cbn [profile].
  exists xs. split; [|split; [exact L|split]].
  - rewrite map_map. cbn [binVolume]. rewrite <- L.
    change (fun x => at_ (map Fin xs) x) with (at_ (map Fin xs)).
    rewrite <- (length_map Fin xs). apply at_seq.
  - rewrite S, sumQ_zeros. ring.
  - intro Hv. apply N; [exact Hv|].
    apply Forall_forall. intros x Hx. apply repeat_spec in Hx. subst x. lra.
Qed.

Lemma sumQ_ones (n : nat) : sumQ (repeat 1 n) == inject_Z (Z.of_nat n).
Proof.
  induction n as [|n IH]; [reflexivity|].
  cbn [repeat]. rewrite sumQ_cons, IH, ofNat_S. ring.
Qed.


(** ** Support and resistance levels *)

(** The swings of a finite series are prices of the series. *)
Lemma swings_prices (qs : list Q) (lo hi : Q) :
  allWithin lo hi qs ->
  exists hs ls,
    swings (map Fin qs) = (map Fin hs, map Fin ls)
    /\ allWithin lo hi hs /\ allWithin lo hi ls.
Proof.
  intro All. unfold swings. rewrite length_map.
  assert (G : forall js hs ls,
             Forall (fun i => (2 <= i < length qs)%nat) js ->
             allWithin lo hi hs -> allWithin lo hi ls ->
             exists hs' ls',
               fold_left
                 (fun (hl : list num * list num) i =>
                    let highs :=
                      if (at_ (map Fin qs) (i - 1) .> at_ (map Fin qs) (i - 2))
                         && (at_ (map Fin qs) (i - 1) .> at_ (map Fin qs) i)
                      then fst hl ++ [at_ (map Fin qs) (i - 1)]
                      else fst hl in
                    let lows :=
                      if (at_ (map Fin qs) (i - 1) .< at_ (map Fin qs) (i - 2))
                         && (at_ (map Fin qs) (i - 1) .< at_ (map Fin qs) i)
                      then snd hl ++ [at_ (map Fin qs) (i - 1)]
                      else snd hl in
                    (highs, lows))
                 js (map Fin hs, map Fin ls)
               = (map Fin hs', map Fin ls')
               /\ allWithin lo hi hs' /\ allWithin lo hi ls').
  { induction js as [|j js IH]; intros hs ls Hjs Hh Hl.
    - exists hs, ls. repeat split; assumption.
    - inversion Hjs as [|? ? Hj Hrest]; subst. cbn [fold_left]. cbv zeta.
      destruct (nth_error_map_Fin qs (j - 1) lo hi All) as (p & Ep & Hp);
        [lia|].
      assert (Ea : at_ (map Fin qs) (j - 1) = Fin p)
        by (unfold at_; rewrite Ep; reflexivity).
      rewrite Ea. cbn [fst snd].
      change [Fin p] with (map Fin [p]). rewrite <- !map_app.
      assert (Hh' : allWithin lo hi (hs ++ [p])).
      { apply Forall_app. split; [exact Hh|]. constructor; [exact Hp|].
        constructor. }
      assert (Hl' : allWithin lo hi (ls ++ [p])).
      { apply Forall_app. split; [exact Hl|]. constructor; [exact Hp|].
        constructor. }
      destruct (_ && _); destruct (_ && _); apply IH; assumption. }
  apply (G _ [] []); [|constructor|constructor].
  apply Forall_forall. intros i Hi. apply in_seq in Hi. lia.
Qed.

Lemma firstn_Forall {A} (P : A -> Prop) (n : nat) (xs : list A) :
  Forall P xs -> Forall P (firstn n xs).
Proof.
  intro H. apply Forall_forall. intros x Hx.
  apply (proj1 (Forall_forall _ _) H).
  rewrite <- (firstn_skipn n xs). apply in_or_app. left. exact Hx.
Qed.

Lemma lastN_le {A} (n : nat) (xs : list A) :
  (1 <= n)%nat -> (length (lastN n xs) <= n)%nat.
Proof.
  intro H. unfold lastN.
  destruct (n =? 0)%nat eqn:E; [apply Nat.eqb_eq in E; lia|].
  rewrite length_skipn. lia.
Qed.

Lemma firstn_sorted {A} (R : A -> A -> Prop) (n : nat) (xs : list A) :
  StronglySorted R xs -> StronglySorted R (firstn n xs).
Proof.
  intro H. revert n.
  induction H as [|x rest Hrest IH Hx]; intro n.
  - rewrite firstn_nil. constructor.
  - destruct n as [|n]; cbn [firstn]; constructor; [apply IH|].
    apply firstn_Forall. exact Hx.
Qed.

Lemma skipn_sorted {A} (R : A -> A -> Prop) (n : nat) (xs : list A) :
  StronglySorted R xs -> StronglySorted R (skipn n xs).
Proof.
  intro H. revert n.
  induction H as [|x rest Hrest IH Hx]; intro n.
  - rewrite skipn_nil. constructor.
  - destruct n as [|n]; cbn [skipn]; [constructor; assumption|apply IH].
Qed.

Lemma lastN_sorted {A} (R : A -> A -> Prop) (n : nat) (xs : list A) :
  StronglySorted R xs -> StronglySorted R (lastN n xs).
Proof.
  intro H. unfold lastN. destruct (n =? 0)%nat; [exact H|].
  apply skipn_sorted. exact H.
Qed.

Lemma meanQ_upper (c : list Q) (hi : Q) :
  c <> [] -> Forall (fun q => q <= hi) c -> meanQ c <= hi.
Proof.
  intros Hne H.
  assert (S : sumQ c <= inject_Z (Z.of_nat (length c)) * hi).
  { clear Hne. induction H as [|x rest Hx Hrest IH].
    - unfold sumQ. cbn [fold_left length].
      change (inject_Z (Z.of_nat 0)) with 0. lra.
    - rewrite sumQ_cons. cbn [length]. rewrite ofNat_S. lra. }
  assert (P : 0 < inject_Z (Z.of_nat (length c))).
  { apply ofNat_pos. destruct c; [contradiction|cbn [length]; lia]. }
  unfold meanQ. apply Qle_shift_div_r; lra.
Qed.

Lemma meanQ_lower (c : list Q) (lo : Q) :
  c <> [] -> Forall (fun q => lo <= q) c -> lo <= meanQ c.
Proof.
  intros Hne H.
  assert (S : inject_Z (Z.of_nat (length c)) * lo <= sumQ c).
  { clear Hne. induction H as [|x rest Hx Hrest IH].
    - unfold sumQ. cbn [fold_left length].
      change (inject_Z (Z.of_nat 0)) with 0. lra.
    - rewrite sumQ_cons. cbn [length]. rewrite ofNat_S. lra. }
  assert (P : 0 < inject_Z (Z.of_nat (length c))).
  { apply ofNat_pos. destruct c; [contradiction|cbn [length]; lia]. }
  unfold meanQ. apply Qle_shift_div_l; lra.
Qed.

(** The means of consecutive runs of a sorted list are in order. *)
Lemma means_sorted (cs : list (list Q)) :
  Forall (fun c => c <> []) cs -> StronglySorted Qle (concat cs) ->
  StronglySorted Qle (map meanQ cs).
Proof.
  induction cs as [|c cs IH]; intros Hne S; cbn [map]; [constructor|].
  inversion Hne as [|? ? Hc Hcs]; subst. cbn [concat] in S.
  assert (Split : StronglySorted Qle (concat cs)
                  /\ forall a b, In a c -> In b (concat cs) -> a <= b).
  { clear IH Hne Hc Hcs. induction c as [|x c IHc]; cbn [app] in S.
    - split; [exact S|]. intros a b [].
    - inversion S as [|? ? Sr Hx]; subst.
      destruct (IHc Sr) as (S' & Le). split; [exact S'|].
      intros a b [<-|Ia] Ib; [|apply Le; assumption].
      apply (proj1 (Forall_forall _ _) Hx). apply in_or_app. right.
      exact Ib. }
  destruct Split as (S' & Le).
  constructor; [apply IH; assumption|].
  apply Forall_forall. intros m Hm. apply in_map_iff in Hm.
  destruct Hm as (c' & <- & Hc').
  assert (Hne' : c' <> [])
    by exact (proj1 (Forall_forall _ _) Hcs c' Hc').
  apply meanQ_lower; [exact Hne'|].
  apply Forall_forall. intros b Hb.
  apply meanQ_upper; [exact Hc|].
  apply Forall_forall. intros a Ha. apply Le; [exact Ha|].
  apply in_concat. exists c'. split; assumption.
Qed.

Lemma same_ascending (ms : list Q) :
  StronglySorted Qle ms ->
  forall out, Forall2 same out (map Fin ms) ->
              Forall isFin out /\ ascending out.
Proof.
  induction 1 as [|m ms Hs IH Hm]; intros out F2; cbn [map] in F2.
  - inversion F2. split; constructor.
  - inversion F2 as [|v ? out' ? Hvm Hrest]; subst.
    destruct (IH out' Hrest) as (Fi & Asc).
    destruct v as [q| | |]; try contradiction. cbn [same] in Hvm.
    split; [constructor; [exact I|exact Fi]|].
    constructor; [exact Asc|].
    clear IH Asc Fi F2 Hs. revert out' Hrest.
    induction Hm as [|m' ms' Hm' Hms IHm]; intros out' Hrest;
      cbn [map] in Hrest.
    + inversion Hrest. constructor.
    + inversion Hrest as [|w ? out'' ? Hwm Hrest']; subst.
      constructor; [|apply IHm; exact Hrest'].
      destruct w as [q'| | |]; try contradiction. cbn [same] in Hwm.
      rewrite le_Fin. apply Qle_bool_iff. rewrite Hvm, Hwm. exact Hm'.
Qed.

(** The clusters of finite levels are finite and in ascending order. *)
Lemma clusterLevels_ascending (qs : list Q) (tol : Q) :
  Forall isFin (fst (clusterLevels (map Fin qs) (Fin tol)))
  /\ ascending (fst (clusterLevels (map Fin qs) (Fin tol))).
Proof.
  unfold clusterLevels. rewrite sortAsc_Fin.
  destruct (sortQ_sorted_perm qs) as (_ & S).
  destruct (sortQ qs) as [|x rest] eqn:E; cbn [map fst];
    [split; constructor|].
  pose proof (clusterLoop_chains tol rest x [x] x) as C.
  destruct (chainsFrom_spec tol rest x [x]) as (Cc & F & _ & _);
    [discriminate|reflexivity|exact I|].
  cbv zeta in Cc, F. cbn [length] in C.
  apply (same_ascending (map meanQ (chainsFrom tol x [x] rest))).
  - apply means_sorted.
    + apply Forall_forall. intros c Hc.
      exact (proj1 (proj1 (Forall_forall _ _) F c Hc)).
    + rewrite Cc. apply Sorted_StronglySorted; [|exact S].
      intros a b c. apply Qle_trans.
  - rewrite map_map. apply C; [discriminate|].
    unfold sumQ. cbn [fold_left]. ring.
Qed.


(** ** Stochastic RSI *)

(** The series over finite prices: the undefined entries, then one value
    between 0 and 100 per remaining index. *)
Lemma rsiStateAt_shape (qs : list Q) (period : nat) :
  (1 <= period)%nat -> (period < length qs)%nat ->
  forall n,
    (n <= length qs)%nat ->
    exists rs,
      rsiArray (rsiStateAt (map Fin qs) period n)
      = repeat None (Nat.min n period) ++ map (fun r => Some (Fin r)) rs
      /\ length rs = (n - period)%nat /\ allWithin 0 100 rs.
Proof.
  intros Hp Hlen. induction n as [|n IH]; intro Hn.
  - exists []. repeat split. constructor.
  - destruct IH as (rs & E & L & All); [lia|].
    rewrite rsiStateAt_S.
    destruct (Nat.lt_ge_cases n period) as [Hlt|Hge].
    + rewrite rsiStep_undefined by exact Hlt. cbn [rsiArray]. rewrite E.
      assert (R : rs = [])
        by (destruct rs; [reflexivity|cbn [length] in L; lia]).
      subst rs. exists []. rewrite !app_nil_r.
      replace (Nat.min n period) with n by lia.
      replace (Nat.min (S n) period) with (S n) by lia.
      split; [|split; [cbn [length]; lia|constructor]].
      cbn [repeat]. rewrite repeat_cons. reflexivity.
    + destruct (rsiStep_defined qs period
                                (rsiStateAt (map Fin qs) period n) n Hp Hlen)
        as (g & l & Hg & Hl & Es); [lia| |].
      { destruct (Nat.eq_dec n period) as [Heq|Hne]; [left; exact Heq|].
        right.
        destruct (rsiStateAt_invariant qs period Hp Hlen n ltac:(lia))
          as (_ & _ & _ & Iavg).
        apply Iavg. lia. }
      rewrite Es. cbn [rsiArray]. rewrite E.
      destruct (proj2 (rsiValue_finite g l Hg Hl)) as (v & Ev & Hv).
      rewrite Ev. exists (rs ++ [v]).
      replace (Nat.min n period) with period by lia.
      replace (Nat.min (S n) period) with period by lia.
      rewrite map_app, <- app_assoc. split; [reflexivity|].
      split; [rewrite length_app; cbn [length]; lia|].
      apply Forall_app. split; [exact All|]. constructor; [exact Hv|].
      constructor.
Qed.

Lemma definedOnly_shape (n : nat) (rs : list Q) :
  definedOnly (repeat None n ++ map (fun r => Some (Fin r)) rs) = map Fin rs.
Proof.
  unfold definedOnly. rewrite flat_map_app.
  assert (A : flat_map (fun x : option num =>
                          match x with Some v => [v] | None => [] end)
                       (repeat None n) = []).
  { induction n as [|n IH]; [reflexivity|]. cbn [repeat flat_map].
    exact IH. }
  rewrite A. cbn [app].
  induction rs as [|r rest IH]; [reflexivity|].
  cbn [map flat_map app]. rewrite IH. reflexivity.
Qed.

(** The defined values of the series of finite prices. *)
Lemma rsiValues_shape (qs : list Q) (period : nat) :
  (1 <= period)%nat ->
  exists rs,
    definedOnly (calculateRSIArray (map Fin qs) period) = map Fin rs
    /\ length rs = (length qs - period)%nat /\ allWithin 0 100 rs.
Proof.
  intro Hp. destruct (Nat.lt_ge_cases period (length qs)) as [Hlen|Short].
  - rewrite calculateRSIArray_loop by exact Hlen.
    destruct (rsiStateAt_shape qs period Hp Hlen (length qs)
                               (Nat.le_refl _))
      as (rs & E & L & All).
    exists rs. rewrite E, definedOnly_shape. repeat split; assumption.
  - exists []. unfold calculateRSIArray. rewrite length_map.
    assert (E : (length qs <? period + 1)%nat = true)
      by (apply Nat.ltb_lt; lia).
    rewrite E. split; [|split; [cbn [length]; lia|constructor]].
    unfold fill. rewrite <- (app_nil_r (repeat None (length qs))).
    apply (definedOnly_shape (length qs) []).
Qed.

Lemma slice_map {A B} (f : A -> B) (xs : list A) (a b : nat) :
  slice (map f xs) a b = map f (slice xs a b).
Proof. unfold slice. rewrite skipn_map, firstn_map. reflexivity. Qed.

Lemma slice_Forall {A} (P : A -> Prop) (xs : list A) (a b : nat) :
  Forall P xs -> Forall P (slice xs a b).
Proof.
  intro H. apply Forall_forall. intros x Hx.
  apply (proj1 (Forall_forall _ _) H). unfold slice in Hx.
  rewrite <- (firstn_skipn a xs). apply in_or_app. right.
  rewrite <- (firstn_skipn (b - a) (skipn a xs)). apply in_or_app. left.
  exact Hx.
Qed.

(** One window of the normalisation loop. *)
Lemma stochWindow (rs : list Q) (period i : nat) (flat : num)
      (post : num -> num) (a b : Q) :
  (1 <= period)%nat -> allWithin 0 100 rs ->
  (period <= i < length rs)%nat ->
  within a b flat ->
  (forall x, 0 <= x <= 1 -> within a b (post (Fin x))) ->
  exists v,
    (let sl := slice (map Fin rs) (i - period + 1) (i + 1) in
     if (length sl =? 0)%nat then [] else
     let min := minList sl in
     let max := maxList sl in
     let current := at_ (map Fin rs) i in
     if max .== min then [flat]
     else [post ((current .- min) ./ (max .- min))])
    = [Fin v]
    /\ a <= v <= b.
Proof.
  intros Hp All Hi Hflat Hpost. cbv zeta. rewrite slice_map.
  assert (Ls : length (slice rs (i - period + 1) (i + 1)) = period).
  { unfold slice. rewrite length_firstn, length_skipn. lia. }
  rewrite length_map, Ls.
  assert (Z : (period =? 0)%nat = false) by (apply Nat.eqb_neq; lia).
  rewrite Z.
  destruct (nth_error_in_range rs i) as (c & Ec); [lia|].
  assert (Ic : In c (slice rs (i - period + 1) (i + 1))).
  { apply (nth_error_In _ (period - 1)). unfold slice.
    rewrite nth_error_firstn.
    assert (B : (period - 1 <? i + 1 - (i - period + 1))%nat = true)
      by (apply Nat.ltb_lt; lia).
    rewrite B, nth_error_skipn.
    replace (i - period + 1 + (period - 1))%nat with i by lia.
    exact Ec. }
  destruct (slice rs (i - period + 1) (i + 1)) as [|y ys] eqn:S;
    [destruct Ic|].
  destruct (minList_Fin y ys) as (mn & Emin & Imin & Amin).
  destruct (maxList_Fin y ys) as (mx & Emax & Imax & Amax).
  rewrite Emin, Emax. cbn [Js.eq].
  assert (Lc : mn <= c) by exact (proj1 (Forall_forall _ _) Amin _ Ic).
  assert (Uc : c <= mx) by exact (proj1 (Forall_forall _ _) Amax _ Ic).
  destruct (Qeq_bool mx mn) eqn:Q.
  - destruct flat as [f| | |]; try contradiction.
    exists f. split; [reflexivity|exact Hflat].
  - apply Qeqb_neq in Q.
    assert (Pos : 0 < mx + - mn).
    { destruct (Qlt_le_dec mn mx) as [L|G]; [lra|].
      exfalso. apply Q. lra. }
    unfold at_. rewrite nth_error_map, Ec.
    cbn [option_map toNum Js.sub Js.neg Js.add Js.div].
    assert (Nz : Qeq_bool (mx + - mn) 0 = false) by (apply Qeqb_neq; lra).
    rewrite Nz.
    assert (R : 0 <= (c + - mn) / (mx + - mn) <= 1).
    { split; [apply Qle_shift_div_l|apply Qle_shift_div_r]; lra. }
    specialize (Hpost _ R).
    destruct (post (Fin ((c + - mn) / (mx + - mn)))) as [v| | |];
      try contradiction.
    exists v. split; [reflexivity|exact Hpost].
Qed.

Lemma stochLoop_shape (rs : list Q) (period : nat) (flat : num)
      (post : num -> num) (a b : Q) :
  (1 <= period)%nat -> allWithin 0 100 rs ->
  within a b flat ->
  (forall x, 0 <= x <= 1 -> within a b (post (Fin x))) ->
  exists ss,
    stochLoop (map Fin rs) period flat post = map Fin ss
    /\ length ss = (length rs - period)%nat /\ allWithin a b ss.
Proof.
  intros Hp All Hflat Hpost. unfold stochLoop. rewrite length_map.
  assert (G : forall js,
             Forall (fun i => (period <= i < length rs)%nat) js ->
             exists ss,
               flat_map
                 (fun i =>
                    let sl := slice (map Fin rs) (i - period + 1) (i + 1) in
                    if (length sl =? 0)%nat then [] else
                    let min := minList sl in
                    let max := maxList sl in
                    let current := at_ (map Fin rs) i in
                    if max .== min then [flat]
                    else [post ((current .- min) ./ (max .- min))])
                 js
               = map Fin ss
               /\ length ss = length js /\ allWithin a b ss).
  { induction js as [|j js IH]; intro Hjs.
    - exists []. repeat split. constructor.
    - inversion Hjs as [|? ? Hj Hrest]; subst.
      destruct (IH Hrest) as (ss & E & L & A).
      destruct (stochWindow rs period j flat post a b Hp All Hj Hflat Hpost)
        as (v & Ev & Hv).
      exists (v :: ss). cbv zeta in E, Ev. cbn [flat_map]. cbv zeta.
      rewrite Ev, E.
      split; [reflexivity|]. split; [cbn [length]; lia|].
      constructor; assumption. }
  destruct (G (seq period (length rs - period))) as (ss & E & L & A).
  { apply Forall_forall. intros i Hi. apply in_seq in Hi. lia. }
  exists ss. split; [exact E|]. split; [rewrite L; apply length_seq|exact A].
Qed.

(** [smooth(arr, 3)] of values between 0 and 1. *)
Lemma smooth_shape (ss : list Q) :
  allWithin 0 1 ss ->
  exists ks,
    smooth (map Fin ss) 3 = map Fin ks
    /\ length ks = (length ss + 1 - 3)%nat /\ allWithin 0 100 ks.
Proof.
  intro All. unfold smooth. rewrite length_map.
  assert (G : forall js,
             Forall (fun i => (3 <= i <= length ss)%nat) js ->
             exists ks,
               map (fun i => Js.sum (slice (map Fin ss) (i - 3) i)
                             ./ ofNat 3 .* Fin 100) js
               = map Fin ks
               /\ length ks = length js /\ allWithin 0 100 ks).
  { induction js as [|j js IH]; intro Hjs.
    - exists []. repeat split. constructor.
    - inversion Hjs as [|? ? Hj Hrest]; subst.
      destruct (IH Hrest) as (ks & E & L & A).
      destruct (mean_bounds (slice ss (j - 3) j) 0 1 3) as (m & Em & Hm).
      + apply slice_Forall. exact All.
      + unfold slice. rewrite length_firstn, length_skipn. lia.
      + lia.
      + exists ((m * 100) :: ks). cbn [map]. rewrite E, slice_map, Em.
        split; [reflexivity|]. split; [cbn [length]; lia|].
        constructor; [lra|exact A]. }
  destruct (G (seq 3 (length ss + 1 - 3))) as (ks & E & L & A).
  { apply Forall_forall. intros i Hi. apply in_seq in Hi. lia. }
  exists ks. split; [exact E|]. split; [rewrite L; apply length_seq|exact A].
Qed.

Lemma percent_shape (ks : list Q) :
  allWithin 0 100 ks ->
  exists ds,
    map (fun v => v ./ Fin 100) (map Fin ks) = map Fin ds
    /\ length ds = length ks /\ allWithin 0 1 ds.
Proof.
  intro All. exists (map (fun k => k / 100) ks).
  rewrite !map_map. split; [reflexivity|].
  split; [apply length_map|].
  apply Forall_forall. intros d Hd. apply in_map_iff in Hd.
  destruct Hd as (k & <- & Hk).
  assert (0 <= k <= 100) by exact (proj1 (Forall_forall _ _) All _ Hk).
  split; [apply Qle_shift_div_l|apply Qle_shift_div_r]; lra.
Qed.

Lemma fromEnd_within (xs : list Q) (a b : Q) :
  allWithin a b xs -> (1 <= length xs)%nat ->
  exists x, fromEnd (map Fin xs) 0 = Some (Fin x) /\ a <= x <= b.
Proof.
  intros All L. unfold fromEnd. rewrite length_map.
  assert (B : (0 <? length xs)%nat = true) by (apply Nat.ltb_lt; lia).
  rewrite B. apply nth_error_map_Fin; [exact All|lia].
Qed.


(** ** Hybrid scanner: a flat market *)

Module HybridFlat.
Import HybridScannerService.

Lemma Forall_eq_repeat {A} (x : A) (l : list A) :
  Forall (fun y => y = x) l -> l = repeat x (length l).
Proof.
  induction 1 as [|y rest Hy Hrest IH]; [reflexivity|].
  cbn [length repeat]. rewrite Hy, <- IH. reflexivity.
Qed.

Lemma allWithin_repeat (p : Q) (n : nat) : allWithin p p (repeat p n).
Proof.
  apply Forall_forall. intros x Hx. apply repeat_spec in Hx. subst x.
  split; lra.
Qed.

(** The regime of a window of candles that all close at one price and
    carry no high or low of their own: the true range is 0 and the position
    in the range is 0/0, so only the comparison of the price with its
    averages is left to decide. *)
Lemma detectMarketRegime_flat (t : string) (p : Q) (v : option num)
      (n : nat) :
  (50 <= n)%nat ->
  let history := repeat (mkChartPoint t (Fin p) v None None) n in
  detectMarketRegime history (map price history) = RANGING
  \/ detectMarketRegime history (map price history) = TRENDING.
Proof.
  intros Hn history. unfold detectMarketRegime, history.
  rewrite !map_repeat. cbn [price high low]. unfold orElse.
  cbn [truthyOpt]. cbv zeta.
  set (ema20 := getLast (calculateEMA (repeat (Fin p) n) 20)).
  set (ema50 := getLast (calculateEMA (repeat (Fin p) n) 50)).
  clearbody ema20 ema50.
  assert (R : repeat (Fin p) n = map Fin (repeat p n))
    by (rewrite map_repeat; reflexivity).
  rewrite R.
  destruct (calculateATR_bounds (repeat p n) (repeat p n) (repeat p n) 14
                                p p)
    as (a & -> & Ha); try reflexivity; try apply allWithin_repeat;
    [lia|rewrite repeat_length; lia|].
  assert (Cur : fromEnd (map Fin (repeat p n)) 0 = Some (Fin p)).
  { rewrite <- R. unfold fromEnd. rewrite repeat_length.
    assert (B : (0 <? n)%nat = true) by (apply Nat.ltb_lt; lia).
    rewrite B. apply nth_error_repeat. lia. }
  rewrite Cur. cbn [toNum truthyOpt truthy].
  assert (Za : Qeq_bool a 0 = true) by (apply Qeq_bool_iff; lra).
  rewrite Za. cbn [negb andb].
  change (Fin 0 .> VOLATILITY_THRESHOLD_HIGH) with false. cbv iota.
  destruct (((Fin p .> ema20) && (ema20 .> ema50))
            || ((Fin p .< ema20) && (ema20 .< ema50)));
    [right; reflexivity|left].
  rewrite <- R.
  assert (P50 : lastN 50 (repeat (Fin p) n)
                = repeat (Fin p) (length (lastN 50 (repeat (Fin p) n)))).
  { apply Forall_eq_repeat. apply lastN_Forall.
    apply Forall_forall. intros x Hx. apply repeat_spec in Hx.
    exact Hx. }
  rewrite P50.
  destruct (extremes_repeat p (length (lastN 50 (repeat (Fin p) n))))
    as (-> & ->).
  { rewrite lastN_length; [lia|rewrite repeat_length; lia]. }
  cbn [Js.sub Js.neg Js.add Js.div].
  assert (Z : Qeq_bool (p + - p) 0 = true) by (apply Qeq_bool_iff; lra).
  rewrite Z. unfold signed_inf. rewrite Z. reflexivity.
Qed.


End HybridFlat.

(** ** Concrete instances of the indicator properties *)



Lemma calculateADX_range_witness :
  (1 <= 2)%nat
  /\ (calculateADX (map Fin rampPrices) (map Fin rampPrices)
                   (map Fin rampPrices) 2
      = None
      <-> ((length (map Fin rampPrices) < 2 * 2)%nat \/ rampPrices = []
           \/ exists c, fromEnd rampPrices 0 = Some c /\ c == 0))
  /\ (forall v,
         calculateADX (map Fin rampPrices) (map Fin rampPrices)
                      (map Fin rampPrices) 2
         = Some v ->
         within 10 60 v).
Proof.
  assert (P : (1 <= 2)%nat) by lia.
  split; [exact P|].
  exact (calculateADX_range (map Fin rampPrices) (map Fin rampPrices)
                            rampPrices 2 P).
Defined.


Lemma calculateRSI_rising_witness :
  (1 <= 2)%nat /\ nondecreasing stepPrices
  /\ (forall i, (2 <= i < length stepPrices)%nat ->
                nth_error (calculateRSIArray (map Fin stepPrices) 2) i
                = Some (Some (Fin 100)))
  /\ ((2 < length stepPrices)%nat ->
      calculateRSI (map Fin stepPrices) 2 = Some (Fin 100)).
Proof.
  assert (P : (1 <= 2)%nat) by lia.
  assert (N : nondecreasing stepPrices).
  { apply nondecreasing_sorted.
    repeat (constructor; try (vm_compute; discriminate)). }
  split; [exact P|]. split; [exact N|].
  exact (calculateRSI_rising stepPrices 2 P N).
Defined.

Lemma runBacktest_never_rising_witness :
  map price slideHistory = map Fin slidePrices
  /\ nonincreasing slidePrices
  /\ MEAN_REVERSION <> SCORE_BASED
  /\ (let r := runBacktest unweightedScore MEAN_REVERSION slideHistory
                           (Fin 1000) None in
      trades r = [] /\ totalTrades r = 0%nat
      /\ winRate r = Fin 0 /\ profitFactor r = Fin 0
      /\ maxDrawdown r = Fin 0
      /\ Forall (fun pt => curveEquity pt = Fin 1000) (equityCurve r)
      /\ (length (equityCurve r) <= 1)%nat).
Proof.
  assert (M : map price slideHistory = map Fin slidePrices).
  { unfold slideHistory. rewrite map_map. reflexivity. }
  assert (N : nonincreasing slidePrices).
  { apply nonincreasing_sorted. vm_compute.
    repeat (constructor; try (vm_compute; discriminate)). }
  assert (S : MEAN_REVERSION <> SCORE_BASED) by discriminate.
  split; [exact M|]. split; [exact N|]. split; [exact S|].
  exact (runBacktest_never_rising unweightedScore MEAN_REVERSION slideHistory
                                  slidePrices (Fin 1000) None M N S).
Defined.

Lemma detectRSIDivergence_monotone_witness :
  (nondecreasing slidePrices \/ nonincreasing slidePrices)
  /\ detectRSIDivergence (map Fin slidePrices)
                         (calculateRSIArray (map Fin slidePrices) 14)
     = mkDivergence NONE WEAK.
Proof.
  assert (N : nondecreasing slidePrices \/ nonincreasing slidePrices).
  { right. apply nonincreasing_sorted. vm_compute.
    repeat (constructor; try (vm_compute; discriminate)). }
  split; [exact N|].
  exact (detectRSIDivergence_monotone
           slidePrices (calculateRSIArray (map Fin slidePrices) 14) N).
Defined.

Lemma analyzeMarketStructure_sorted_swings_witness :
  (10 <= length zigzagPrices)%nat
  /\ swings (map Fin zigzagPrices)
     = (map Fin zigzagHighs, map Fin zigzagLows)
  /\ (2 <= length zigzagHighs)%nat /\ (2 <= length zigzagLows)%nat
  /\ exists h1 h0 l1 l0 last,
      fromEnd (sortQ zigzagHighs) 1 = Some h1
      /\ fromEnd (sortQ zigzagHighs) 0 = Some h0
      /\ fromEnd (sortQ zigzagLows) 1 = Some l1
      /\ fromEnd (sortQ zigzagLows) 0 = Some l0
      /\ fromEnd zigzagPrices 0 = Some last
      /\ In h0 zigzagHighs /\ (forall h, In h zigzagHighs -> h <= h0)
      /\ In l0 zigzagLows /\ (forall l, In l zigzagLows -> l <= l0)
      /\ trend (analyzeMarketStructure (map Fin zigzagPrices))
         = if Qltb h1 h0 && Qltb l1 l0
           then if Qltb last l0 then DOWNTREND else UPTREND
           else RANGING.
Proof.
  assert (L : (10 <= length zigzagPrices)%nat) by (vm_compute; lia).
  assert (S : swings (map Fin zigzagPrices)
              = (map Fin zigzagHighs, map Fin zigzagLows))
    by reflexivity.
  assert (H : (2 <= length zigzagHighs)%nat) by (vm_compute; lia).
  assert (W : (2 <= length zigzagLows)%nat) by (vm_compute; lia).
  split; [exact L|]. split; [exact S|]. split; [exact H|].
  split; [exact W|].
  exact (analyzeMarketStructure_sorted_swings
           zigzagPrices zigzagHighs zigzagLows L S H W).
Defined.

(** The series of the witness: its last swing high is lower than the one
    before, yet the trend is reported as UPTREND. *)
Example analyzeMarketStructure_zigzag :
  trend (analyzeMarketStructure (map Fin zigzagPrices)) = UPTREND.
Proof. vm_compute. reflexivity. Qed.

Lemma detectWhaleMovements_no_volume_witness :
  (24 <= length (repeat quietCandle 24))%nat
  /\ noVolume (lastN 24 (repeat quietCandle 24))
  /\ (let m := detectWhaleMovements (Fin 100) (Fin 8) (Fin 5000) (Fin 1000)
                                    (repeat quietCandle 24) in
      netFlowStatus m = NF_NEUTRAL /\ volumeAnomalyFactor m = Fin 1
      /\ whaleAlert m = alertNone).
Proof.
  assert (L : (24 <= length (repeat quietCandle 24))%nat)
    by (vm_compute; lia).
  assert (V : noVolume (lastN 24 (repeat quietCandle 24)))
    by (vm_compute; repeat constructor).
  split; [exact L|]. split; [exact V|].
  exact (detectWhaleMovements_no_volume (Fin 100) (Fin 8) (Fin 5000)
                                        (Fin 1000) (repeat quietCandle 24)
                                        L V).
Defined.

Lemma enrichSignal_overlay_witness :
  (50 <= length (repeat flatCandle 50))%nat
  /\ HybridScannerService.futuresData squeezedSignal
     = Some (HybridScannerService.mkFuturesData (Fin 1) (Fin 0.5) (Fin 0))
  /\ HybridScannerService.riskLevel
       (HybridScannerService.enrichSignal squeezedSignal
                                          (repeat flatCandle 50) None)
     = HybridScannerService.LOW.
Proof.
  assert (L : (50 <= length (repeat flatCandle 50))%nat)
    by (vm_compute; lia).
  assert (F : HybridScannerService.futuresData squeezedSignal
              = Some (HybridScannerService.mkFuturesData (Fin 1) (Fin 0.5)
                                                         (Fin 0)))
    by reflexivity.
  split; [exact L|]. split; [exact F|].
  refine (proj1 (proj1 (HybridRules.enrichSignal_overlay
                          squeezedSignal (repeat flatCandle 50) None _ L F)
                       _ _)).
  - discriminate.
  - reflexivity.
Defined.

Lemma calculateVolumeProfile_equal_prices_witness :
  (1 <= 3)%nat /\ (1 <= length (map Fin barLows))%nat /\ (1 <= 24)%nat
  /\ exists vp q,
      calculateVolumeProfile 0 (repeat (Fin 100) 3) (map Fin barLows) 24
      = Some vp
      /\ length (profile vp) = 24%nat
      /\ Forall (fun b => binVolume b = Fin 0) (profile vp)
      /\ poc vp = Some (Fin q) /\ q == 100
      /\ vacLow vp = poc vp /\ vacHigh vp = poc vp.
Proof.
  assert (N : (1 <= 3)%nat) by lia.
  assert (V : (1 <= length (map Fin barLows))%nat) by (vm_compute; lia).
  assert (B : (1 <= 24)%nat) by lia.
  split; [exact N|]. split; [exact V|]. split; [exact B|].
  exact (calculateVolumeProfile_equal_prices 0 100 3 (map Fin barLows) 24
                                             N V B).
Defined.




